(** * B-Ball-Metrics: the PER formula, the stats normalizer and the fetch cache

    A shallow embedding of [NBAApiService.calculatePER] (services/nbaApi.ts)
    and of [RealNBADataService] (utils/realNbaData.ts).

    A TypeScript [number] is an IEEE 754 binary64 value: it is modelled by
    Rocq's primitive [float], whose operations are the same binary64
    operations with round-to-nearest-even.  General facts are obtained
    through the bit-level specification [Prim2SF] of the Floats library. *)

From Stdlib Require Import ZArith Lia Bool List String Ascii DecimalString.
From Stdlib Require Import Floats.
From Stdlib Require Import Sorting.Sorted Sorting.Permutation.
Import ListNotations.

#[local] Set Warnings "-inexact-float,-register-all".
Local Open Scope float_scope.

(** ** JavaScript numbers *)

Module JS.

Definition number := float.

(** [x === y] on numbers: IEEE equality ([NaN] differs from everything,
    [+0] equals [-0]). *)
Definition strict_eq (x y : number) : bool := x =? y.

(** [Math.min] and [Math.max] of two numbers (ECMAScript 21.3.2.24/25):
    [NaN] if either argument is [NaN]; [-0] counts as smaller than [+0]. *)
Definition Math_min (x y : number) : number :=
  if is_nan x || is_nan y then nan
  else if x <? y then x
  else if y <? x then y
  else if get_sign x then x else y.

Definition Math_max (x y : number) : number :=
  if is_nan x || is_nan y then nan
  else if x <? y then y
  else if y <? x then x
  else if get_sign x then y else x.

(** [x || 0]: the left operand unless it is falsy ([NaN], [+0] or [-0]). *)
Definition or_zero (x : number) : number :=
  if is_nan x || (x =? 0) then 0 else x.

(** The number whose value is the integer [n] (exact for [|n| <= 2^53]). *)
Definition of_Z (n : Z) : number :=
  SF2Prim (binary_normalize prec emax n 0 false).

Definition signed_zero (s : bool) : number := if s then neg_zero else zero.

(** [Math.round] (ECMAScript 21.3.2.28): [NaN], infinities, zeros and
    integral numbers are returned as they are; otherwise the closest
    integer, the one toward +infinity in a tie, with the sign of [x] kept
    on a zero result.  For [x = (-1)^s * m * 2^e] with [e < 0] the integer
    is [floor (x + 1/2)], computed exactly on [Z]. *)
Definition Math_round (x : number) : number :=
  match Prim2SF x with
  | S754_finite s m e =>
      if (0 <=? e)%Z then x
      else
        let n := ((2 * cond_Zopp s (Zpos m) + 2 ^ (- e)) / 2 ^ (1 - e))%Z in
        if (n =? 0)%Z then signed_zero s else of_Z n
  | _ => x
  end.

(** [Math.floor] (ECMAScript 21.3.2.16). *)
Definition Math_floor (x : number) : number :=
  match Prim2SF x with
  | S754_finite s m e =>
      if (0 <=? e)%Z then x
      else
        let n := (cond_Zopp s (Zpos m) / 2 ^ (- e))%Z in
        if (n =? 0)%Z then signed_zero s else of_Z n
  | _ => x
  end.

(** [a[i]] for an array [a] and a number [i]: the element when [i] is an
    integer index inside the array, [undefined] ([None]) otherwise. *)
Definition Array_get {A : Type} (a : list A) (i : number) : option A :=
  match Prim2SF i with
  | S754_zero _ => nth_error a 0
  | S754_finite false m e =>
      if (0 <=? e)%Z then nth_error a (Z.to_nat (Zpos m * 2 ^ e))
      else if (Zpos m mod 2 ^ (- e) =? 0)%Z
           then nth_error a (Z.to_nat (Zpos m / 2 ^ (- e)))
           else None
  | _ => None
  end.

(** [Array.prototype.sort(cmp)]: a stable sort (ECMAScript 2019) in which
    [a] goes after [b] when [cmp(a, b) > 0]; a [NaN] from the comparator
    counts as [+0].  For a consistent comparator every conforming engine
    returns this list; it is given here as a stable insertion sort. *)
Section Sort.
Context {A : Type} (cmp : A -> A -> number).

Fixpoint sort_insert (x : A) (l : list A) : list A :=
  match l with
  | [] => [x]
  | y :: l' => if 0 <? cmp x y then y :: sort_insert x l' else x :: l
  end.

Fixpoint Array_sort (l : list A) : list A :=
  match l with
  | [] => []
  | x :: l' => sort_insert x (Array_sort l')
  end.
End Sort.

(** [n.toString()] for an integral number [n]. *)
Definition toString (n : Z) : string :=
  DecimalString.NilZero.string_of_int (Z.to_int n).

(** A [string] holds the UTF-8 bytes of the JavaScript string.  The
    characters of the class [\s] (ECMAScript 22.2.2.9: WhiteSpace and
    LineTerminator) are one UTF-16 code unit each; their UTF-8 encodings
    have one to three bytes and start with a byte that is never a
    continuation byte, so in well-formed text an encoding is met only where
    its character stands. *)

(** The number of bytes of the line terminator (LF, CR, U+2028, U+2029)
    that [s] starts with; [0] when it starts with none. *)
Definition line_terminator_width (s : string) : nat :=
  match s with
  | EmptyString => 0
  | String c s1 =>
      let b := N_of_ascii c in
      if ((b =? 10) || (b =? 13))%N then 1
      else
        match s1 with
        | String c1 (String c2 _) =>
            let b1 := N_of_ascii c1 in
            let b2 := N_of_ascii c2 in
            if ((b =? 226) && (b1 =? 128) && ((b2 =? 168) || (b2 =? 169)))%N
            then 3 else 0
        | _ => 0
        end
  end%nat.

(** The three-byte encodings of the class [\s]. *)
Definition three_byte_space (b b1 b2 : N) : bool :=
  ((b =? 225) && (b1 =? 154) && (b2 =? 128)               (* U+1680 *)
   || (b =? 226) && (b1 =? 128)
      && ((128 <=? b2) && (b2 <=? 138)                    (* U+2000 to U+200A *)
          || (b2 =? 168) || (b2 =? 169)                   (* U+2028, U+2029 *)
          || (b2 =? 175))                                 (* U+202F *)
   || (b =? 226) && (b1 =? 129) && (b2 =? 159)            (* U+205F *)
   || (b =? 227) && (b1 =? 128) && (b2 =? 128)            (* U+3000 *)
   || (b =? 239) && (b1 =? 187) && (b2 =? 191))%N.        (* U+FEFF *)

(** The number of bytes of the character of the class [\s] that [s]
    starts with; [0] when it starts with none. *)
Definition space_width (s : string) : nat :=
  match s with
  | EmptyString => 0
  | String c s1 =>
      let b := N_of_ascii c in
      if ((9 <=? b) && (b <=? 13) || (b =? 32))%N then 1   (* TAB LF VT FF CR SP *)
      else
        match s1 with
        | EmptyString => 0
        | String c1 s2 =>
            let b1 := N_of_ascii c1 in
            if ((b =? 194) && (b1 =? 160))%N then 2        (* U+00A0 *)
            else
              match s2 with
              | EmptyString => 0
              | String c2 _ =>
                  if three_byte_space b b1 (N_of_ascii c2) then 3 else 0
              end
        end
  end%nat.

(** [s] without its first [n] bytes, and its first [n] bytes. *)
Fixpoint drop (n : nat) (s : string) : string :=
  match n, s with
  | S n', String _ s' => drop n' s'
  | _, _ => s
  end.

Fixpoint take (n : nat) (s : string) : string :=
  match n, s with
  | S n', String c s' => String c (take n' s')
  | _, _ => EmptyString
  end.

(** [s.replace(/^.*\s/, '')]: the greedy match is the longest prefix that
    ends in a character of [\s] and has no line terminator before it (the
    dot matches every code unit but the line terminators);
    [strip_match] is what follows the match. *)
Fixpoint strip_match (s : string) : option string :=
  match s with
  | EmptyString => None
  | String c s' =>
      match (if (0 <? line_terminator_width s)%nat then None else strip_match s') with
      | Some r => Some r
      | None => if (0 <? space_width s)%nat then Some (drop (space_width s) s) else None
      end
  end.

Definition replace_to_last_space (s : string) : string :=
  match strip_match s with Some r => r | None => s end.

(** Outcome of a call that may throw (or of a promise that may reject). *)
Inductive outcome (A : Type) : Type :=
| Returned (a : A)
| Thrown (message : string).
Arguments Returned {A} a.
Arguments Thrown {A} message.

(** [Math.random()] is an oracle: the [k]-th call of a run returns
    [rnd k]; computations that draw from it thread the call counter. *)
Definition Rand (A : Type) : Type := nat -> A * nat.
Definition ret {A} (a : A) : Rand A := fun k => (a, k).
Definition bind {A B} (m : Rand A) (f : A -> Rand B) : Rand B :=
  fun k => let (a, k') := m k in f a k'.
Definition Math_random (rnd : nat -> number) : Rand number :=
  fun k => (rnd k, S k).

Fixpoint mapM {A B} (f : A -> Rand B) (l : list A) : Rand (list B) :=
  match l with
  | [] => ret []
  | x :: l' => bind (f x) (fun y => bind (mapM f l') (fun ys => ret (y :: ys)))
  end.

End JS.

Notation "x <- m ;; k" := (JS.bind m (fun x => k))
  (at level 61, m at next level, right associativity).

(** ** services/nbaApi.ts *)

Record NBAPlayerStats := {
  PLAYER_ID : Z;
  PLAYER_NAME : string;
  TEAM_ABBREVIATION : string;
  GP : JS.number;
  MIN : JS.number;
  FGM : JS.number;
  FGA : JS.number;
  FG_PCT : JS.number;
  FG3M : JS.number;
  FG3A : JS.number;
  FG3_PCT : JS.number;
  FTM : JS.number;
  FTA : JS.number;
  FT_PCT : JS.number;
  REB : JS.number;
  AST : JS.number;
  TOV : JS.number;
  STL : JS.number;
  BLK : JS.number;
  PF : JS.number;
  PTS : JS.number
}.

Definition DRB_PCT : JS.number := 0.2.

(** The [factor], [VOP] and [uPER] locals of [calculatePER].  JavaScript's
    [+], [-], [*], [/] associate to the left, as the notations below do. *)
Definition per_factor (p : NBAPlayerStats) : JS.number :=
  (2 / 3) - (0.5 * (AST p / (FGM p + 0.001))) / (2 * (FGM p + 0.001) / (FTM p + 0.001)).

Definition per_VOP (p : NBAPlayerStats) : JS.number :=
  PTS p / (FGA p - REB p + TOV p + 0.44 * FTA p).

Definition per_uPER (p : NBAPlayerStats) : JS.number :=
  let factor := per_factor p in
  let VOP := per_VOP p in
  (1 / MIN p) * (
    FG3M p +
    (2 / 3) * AST p +
    (2 - factor * (AST p / (FGM p + 0.001))) * FGM p +
    (FTM p * 0.5 * (1 + (1 - (AST p / (FGM p + 0.001))) + (2 / 3) * (AST p / (FGM p + 0.001)))) -
    VOP * TOV p -
    VOP * DRB_PCT * (FGA p - FGM p) -
    VOP * 0.44 * (0.44 + (0.56 * DRB_PCT)) * (FTA p - FTM p) +
    VOP * (1 - DRB_PCT) * (REB p - REB p) +
    VOP * DRB_PCT * REB p +
    VOP * STL p +
    VOP * DRB_PCT * BLK p -
    PF p * ((FTM p / PF p) - 0.44 * (FTA p / PF p) * VOP)
  ).

Definition calculatePER (p : NBAPlayerStats) : JS.number :=
  if JS.strict_eq (MIN p) 0 then 0
  else JS.Math_max 0 (JS.Math_min 40 (per_uPER p * 15)).


(** ** types/nba.ts *)

Record Player := {
  id : string;
  name : string;
  team : string;
  position : option string;   (* [None] is [undefined] *)
  gamesPlayed : JS.number;
  minutes : JS.number;
  points : JS.number;
  rebounds : JS.number;
  assists : JS.number;
  steals : JS.number;
  blocks : JS.number;
  turnovers : JS.number;
  fieldGoalsMade : JS.number;
  fieldGoalsAttempted : JS.number;
  threePointersMade : JS.number;
  threePointersAttempted : JS.number;
  freeThrowsMade : JS.number;
  freeThrowsAttempted : JS.number;
  per : JS.number;
  predictedPER : JS.number
}.

(** The two team records repeat field names of the player records: each
    has its own name space. *)
Module NBATeamStats.
Record t := {
  TEAM_ID : Z;
  TEAM_NAME : string;
  TEAM_ABBREVIATION : string;
  TEAM_CITY : string;
  W : JS.number;
  L : JS.number;
  W_PCT : JS.number;
  PTS : JS.number;
  REB : JS.number;
  AST : JS.number;
  FG_PCT : JS.number;
  FG3_PCT : JS.number;
  FT_PCT : JS.number
}.
End NBATeamStats.

Module Team.
Record t := {
  id : string;
  name : string;
  city : string;
  abbreviation : string;
  wins : JS.number;
  losses : JS.number;
  winPercentage : JS.number;
  pointsPerGame : JS.number;
  reboundsPerGame : JS.number;
  assistsPerGame : JS.number;
  fieldGoalPercentage : JS.number;
  threePointPercentage : JS.number;
  freeThrowPercentage : JS.number
}.
End Team.

(** ** services/nbaApi.ts: the two fetches

    The body of [getPlayerStats] (the HTTP request of [makeRequest] and the
    reshaping of its rows) sits in a [try] whose [catch] logs and returns
    [[]].  The outcome of that body is the argument: [Returned rows] when
    the request and the reshaping succeed, [Thrown] when either fails. *)

Definition getPlayerStats (body : JS.outcome (list NBAPlayerStats))
  : JS.outcome (list NBAPlayerStats) :=
  match body with
  | JS.Returned rows => JS.Returned rows
  | JS.Thrown _ => JS.Returned []
  end.

Definition getTeamStats (body : JS.outcome (list NBATeamStats.t))
  : JS.outcome (list NBATeamStats.t) :=
  match body with
  | JS.Returned rows => JS.Returned rows
  | JS.Thrown _ => JS.Returned []
  end.

(** ** utils/realNbaData.ts *)

Module RealNBADataService.

(** The three mutable fields of the class.  Times are [Date.now()]
    readings, integral numbers of milliseconds far below [2^53], on which
    number arithmetic is exact: they are kept in [Z]. *)
Record t := {
  playerStatsCache : list NBAPlayerStats;
  teamStatsCache : list NBATeamStats.t;
  lastFetchTime : Z
}.

Definition CACHE_DURATION : Z := 5 * 60 * 1000.

(** The instance built by [new RealNBADataService()]. *)
Definition init : t :=
  {| playerStatsCache := []; teamStatsCache := []; lastFetchTime := 0 |}.

(** [Math.round(x * 10) / 10] and [Math.round(x * 1000) / 10]. *)
Definition round1 (x : JS.number) : JS.number := JS.Math_round (x * 10) / 10.
Definition round_pct (x : JS.number) : JS.number := JS.Math_round (x * 1000) / 10.

Definition weights : list JS.number :=
  [0.85; 0.61; 0.55; 0.72; 0.68; 0.45; 0.38; 0.42; 0.39; -0.33; 0.28].

Definition features (player : NBAPlayerStats) : list JS.number :=
  [PTS player; REB player; AST player; MIN player;
   FG_PCT player; FG3_PCT player; FT_PCT player;
   STL player; BLK player; TOV player; GP player].

Section WithRandom.
Variable rnd : nat -> JS.number.

Definition generateMLPrediction (player : NBAPlayerStats) (actualPER : JS.number)
  : JS.Rand JS.number :=
  let prediction :=
    fold_left (fun acc fw => acc + JS.or_zero (fst fw) * snd fw)
              (combine (features player) weights) 0 in
  let prediction := prediction / 100 + 10 in
  r <- JS.Math_random rnd ;;
  let prediction := prediction + (r - 0.5) * 3 in
  JS.ret (JS.Math_max 0 (JS.Math_min 40 prediction)).

Definition positions : list string := ["PG"; "SG"; "SF"; "PF"; "C"]%string.

Definition getPlayerPosition (playerName : string) : JS.Rand (option string) :=
  r <- JS.Math_random rnd ;;
  JS.ret (JS.Array_get positions
            (JS.Math_floor (r * JS.of_Z (Z.of_nat (List.length positions))))).

(** The callback of [.map] in [convertToPlayerFormat]. *)
Definition toPlayer (player : NBAPlayerStats) : JS.Rand Player :=
  let per := calculatePER player in
  predictedPER <- generateMLPrediction player per ;;
  position <- getPlayerPosition (PLAYER_NAME player) ;;
  JS.ret {|
    id := JS.toString (PLAYER_ID player);
    name := PLAYER_NAME player;
    team := TEAM_ABBREVIATION player;
    position := position;
    gamesPlayed := GP player;
    minutes := round1 (MIN player);
    points := round1 (PTS player);
    rebounds := round1 (REB player);
    assists := round1 (AST player);
    steals := round1 (STL player);
    blocks := round1 (BLK player);
    turnovers := round1 (TOV player);
    fieldGoalsMade := round1 (FGM player);
    fieldGoalsAttempted := round1 (FGA player);
    threePointersMade := round1 (FG3M player);
    threePointersAttempted := round1 (FG3A player);
    freeThrowsMade := round1 (FTM player);
    freeThrowsAttempted := round1 (FTA player);
    per := round1 per;
    predictedPER := round1 predictedPER
  |}.

(** The [.filter] predicate, and the records after [.filter(..).map(..)],
    still in input order. *)
Definition admitted (player : NBAPlayerStats) : bool := 10 <? GP player.

Definition playerRecords (nbaPlayers : list NBAPlayerStats) : JS.Rand (list Player) :=
  JS.mapM toPlayer (filter admitted nbaPlayers).

Definition byPerDesc (a b : Player) : JS.number := per b - per a.

Definition convertToPlayerFormat (nbaPlayers : list NBAPlayerStats)
  : JS.Rand (list Player) :=
  records <- playerRecords nbaPlayers ;;
  JS.ret (JS.Array_sort byPerDesc records).
End WithRandom.

Definition toTeam (team : NBATeamStats.t) : Team.t :=
  {| Team.id := JS.toString (NBATeamStats.TEAM_ID team);
     Team.name := JS.replace_to_last_space (NBATeamStats.TEAM_NAME team);
     Team.city := NBATeamStats.TEAM_CITY team;
     Team.abbreviation := NBATeamStats.TEAM_ABBREVIATION team;
     Team.wins := NBATeamStats.W team;
     Team.losses := NBATeamStats.L team;
     Team.winPercentage := round_pct (NBATeamStats.W_PCT team);
     Team.pointsPerGame := round1 (NBATeamStats.PTS team);
     Team.reboundsPerGame := round1 (NBATeamStats.REB team);
     Team.assistsPerGame := round1 (NBATeamStats.AST team);
     Team.fieldGoalPercentage := round_pct (NBATeamStats.FG_PCT team);
     Team.threePointPercentage := round_pct (NBATeamStats.FG3_PCT team);
     Team.freeThrowPercentage := round_pct (NBATeamStats.FT_PCT team) |}.

Definition byWinPctDesc (a b : Team.t) : JS.number :=
  Team.winPercentage b - Team.winPercentage a.

Definition convertToTeamFormat (nbaTeams : list NBATeamStats.t) : list Team.t :=
  JS.Array_sort byWinPctDesc (map toTeam nbaTeams).

(** What one call of a fetch method meets outside the object: the two
    readings of [Date.now()] (the freshness test, then the store), the
    outcome of the request body inside [nbaApi], the random oracle and
    the number of draws made so far. *)
Record world (Raw : Type) := {
  now_check : Z;
  now_store : Z;
  request : JS.outcome (list Raw);
  rnd : nat -> JS.number;
  drawn : nat
}.
Arguments now_check {Raw}. Arguments now_store {Raw}.
Arguments request {Raw}. Arguments rnd {Raw}. Arguments drawn {Raw}.

Inductive api_call := GetPlayerStats (season : string) | GetTeamStats (season : string).

(** What a call leaves behind: the object's fields, the settled promise,
    the calls made to [nbaApi] and the number of random draws.  The rows
    are typed as the interfaces say, so the conversions inside the [try]
    cannot throw; writes to the console are left out. *)
Record result (A : Type) := {
  state : t;
  value : JS.outcome (list A);
  calls : list api_call;
  draws : nat
}.
Arguments state {A}. Arguments value {A}. Arguments calls {A}. Arguments draws {A}.

Definition fresh (cached : nat) (now : Z) (this : t) : bool :=
  (0 <? cached)%nat && (now - lastFetchTime this <? CACHE_DURATION)%Z.

Definition fetchPlayerData (season : string) (w : world NBAPlayerStats) (this : t)
  : result Player :=
  if fresh (List.length (playerStatsCache this)) (now_check w) this then
    let (players, k) := convertToPlayerFormat (rnd w) (playerStatsCache this) (drawn w) in
    {| state := this; value := JS.Returned players; calls := []; draws := k |}
  else
    match getPlayerStats (request w) with
    | JS.Returned playerStats =>
        let this' := {| playerStatsCache := playerStats;
                        teamStatsCache := teamStatsCache this;
                        lastFetchTime := now_store w |} in
        let (players, k) := convertToPlayerFormat (rnd w) playerStats (drawn w) in
        {| state := this'; value := JS.Returned players;
           calls := [GetPlayerStats season]; draws := k |}
    | JS.Thrown _ =>
        (* catch (error) { console.error(...); return []; } *)
        {| state := this; value := JS.Returned [];
           calls := [GetPlayerStats season]; draws := drawn w |}
    end.

Definition fetchTeamData (season : string) (w : world NBATeamStats.t) (this : t)
  : result Team.t :=
  if fresh (List.length (teamStatsCache this)) (now_check w) this then
    {| state := this; value := JS.Returned (convertToTeamFormat (teamStatsCache this));
       calls := []; draws := drawn w |}
  else
    match getTeamStats (request w) with
    | JS.Returned teamStats =>
        let this' := {| playerStatsCache := playerStatsCache this;
                        teamStatsCache := teamStats;
                        lastFetchTime := now_store w |} in
        {| state := this'; value := JS.Returned (convertToTeamFormat teamStats);
           calls := [GetTeamStats season]; draws := drawn w |}
    | JS.Thrown _ =>
        {| state := this; value := JS.Returned [];
           calls := [GetTeamStats season]; draws := drawn w |}
    end.

End RealNBADataService.

(** ** The specification's side

    The reference algorithm of section 4.1 of the specification, written
    from its eight steps as a function of the thirteen statistics, and the
    rounding rule named in section 4.2. *)

Module Reference.

Definition epsilon : JS.number := 0.001.

Section PER.
Variables MIN FGM FGA FTM FTA FG3M AST REB TOV STL BLK PF PTS : JS.number.

Definition factor : JS.number :=
  (2 / 3) - (0.5 * (AST / (FGM + epsilon))) / (2 * (FGM + epsilon) / (FTM + epsilon)).

Definition VOP : JS.number := PTS / (FGA - REB + TOV + 0.44 * FTA).

Definition DRB_PCT : JS.number := 0.2.

Definition uPER : JS.number :=
  (1 / MIN) *
  (FG3M + (2 / 3) * AST + (2 - factor * (AST / (FGM + epsilon))) * FGM
   + FTM * 0.5 * (1 + (1 - AST / (FGM + epsilon)) + (2 / 3) * (AST / (FGM + epsilon)))
   - VOP * TOV - VOP * DRB_PCT * (FGA - FGM)
   - VOP * 0.44 * (0.44 + 0.56 * DRB_PCT) * (FTA - FTM)
   + VOP * (1 - DRB_PCT) * (REB - REB) + VOP * DRB_PCT * REB + VOP * STL
   + VOP * DRB_PCT * BLK
   - PF * ((FTM / PF) - 0.44 * (FTA / PF) * VOP)).

Definition PERCalculator : JS.number :=
  if MIN =? 0 then 0                                  (* step 1 *)
  else
    let result := uPER * 15 in                        (* steps 2 to 6 *)
    let result := JS.Math_max 0 (JS.Math_min 40 result) in   (* step 7 *)
    result.                                           (* step 8 *)
End PER.

(** Rounding to the closest integer, a tie going away from zero: the
    magnitude [m * 2^e] is rounded as [floor (|x| + 1/2)] and the sign put
    back. *)
Definition round_half_away (x : JS.number) : JS.number :=
  match Prim2SF x with
  | S754_finite s m e =>
      if (0 <=? e)%Z then x
      else
        let k := ((2 * Zpos m + 2 ^ (- e)) / 2 ^ (1 - e))%Z in
        if (k =? 0)%Z then JS.signed_zero s else JS.of_Z (cond_Zopp s k)
  | _ => x
  end.

Definition round_to_one_decimal (x : JS.number) : JS.number :=
  round_half_away (x * 10) / 10.

End Reference.

(** ** Vocabulary of the properties *)

Definition clamp (x : JS.number) : JS.number := JS.Math_max 0 (JS.Math_min 40 x).

Definition VOP_denominator (p : NBAPlayerStats) : JS.number :=
  FGA p - REB p + TOV p + 0.44 * FTA p.

(** The thirteen statistics read by [calculatePER] are all [>= 0]. *)
Definition nonneg_stats (p : NBAPlayerStats) : bool :=
  forallb (fun x => 0 <=? x)
    [MIN p; FGM p; FGA p; FTM p; FTA p; FG3M p; AST p; REB p; TOV p; STL p;
     BLK p; PF p; PTS p].

Definition in_0_40 (x : JS.number) : bool := (0 <=? x) && (x <=? 40).

(** The binary order of magnitude of a number [(-1)^s * m * 2^e]: the
    [k] with [2^(k-1) <= m * 2^e < 2^k]. *)
Definition mag (x : JS.number) : Z :=
  match Prim2SF x with
  | S754_finite _ m e => (Zpos (digits2_pos m) + e)%Z
  | _ => 0%Z
  end.

Definition is_nonzero_finite (x : JS.number) : bool :=
  match Prim2SF x with S754_finite _ _ _ => true | _ => false end.

(** [SFbelow k r]: [r] is a zero or finite with [|r| < 2^k];
    [SFabove c r]: [r] is finite or infinite with [2^(c-1) <= |r|]. *)
Definition SFbelow (k : Z) (r : spec_float) : Prop :=
  match r with
  | S754_zero _ => True
  | S754_finite _ m e => (Zpos (digits2_pos m) + e <= k)%Z
  | _ => False
  end.

Definition SFabove (c : Z) (r : spec_float) : Prop :=
  match r with
  | S754_finite _ m e => (c <= Zpos (digits2_pos m) + e)%Z
  | S754_infinity _ => True
  | _ => False
  end.

(** [below k x]: [x] is finite with [|x| < 2^k]; [above c x]: [x] is
    finite with [2^(c-1) <= |x|]. *)
Definition below (k : Z) (x : JS.number) : Prop := SFbelow k (Prim2SF x).

Definition above (c : Z) (x : JS.number) : Prop :=
  is_nonzero_finite x = true /\ (c <= mag x)%Z.

(** [SFgrid g r]: [r] is a zero or a finite multiple of [2^g]. *)
Definition SFgrid (g : Z) (r : spec_float) : Prop :=
  match r with
  | S754_zero _ => True
  | S754_finite _ m e => (2 ^ Z.max (g - e) 0 | Zpos m)%Z
  | _ => False
  end.

Definition grid (g : Z) (x : JS.number) : Prop := SFgrid g (Prim2SF x).

(** A statistic of ordinary size: zero, or between [1e-6] and [1e6]. *)
Definition in_scale (x : JS.number) : bool :=
  (x =? 0) || ((1e-6 <=? x) && (x <=? 1e6)).

(** The thirteen statistics read by [calculatePER] are of ordinary size,
    [MIN > 0] and the two unguarded denominators are not zero. *)
Definition ordinary_stats (p : NBAPlayerStats) : bool :=
  forallb in_scale
    [MIN p; FGM p; FGA p; FTM p; FTA p; FG3M p; AST p; REB p; TOV p; STL p;
     BLK p; PF p; PTS p]
  && (0 <? MIN p) && negb (VOP_denominator p =? 0) && negb (PF p =? 0).

(** The fields that [convertToPlayerFormat] copies verbatim. *)
Definition stats_key (p : NBAPlayerStats) : string * string * string * JS.number :=
  (JS.toString (PLAYER_ID p), PLAYER_NAME p, TEAM_ABBREVIATION p, GP p).

Definition player_key (q : Player) : string * string * string * JS.number :=
  (id q, name q, team q, gamesPlayed q).



(** ** Sample data *)

(** The end-to-end fixture of the specification (section 8). *)
Definition sample : NBAPlayerStats :=
  {| PLAYER_ID := 2544; PLAYER_NAME := "Sample Player"; TEAM_ABBREVIATION := "LAL";
     GP := 70; MIN := 34.2; FGM := 9; FGA := 18; FG_PCT := 0.5; FG3M := 2;
     FG3A := 5; FG3_PCT := 0.4; FTM := 4; FTA := 5; FT_PCT := 0.8; REB := 7;
     AST := 5; TOV := 3; STL := 1; BLK := 1; PF := 2; PTS := 24 |}.

Definition with_stats (p : NBAPlayerStats) (label : string) (gp min pts fga pf : JS.number)
  : NBAPlayerStats :=
  {| PLAYER_ID := PLAYER_ID p; PLAYER_NAME := label;
     TEAM_ABBREVIATION := TEAM_ABBREVIATION p;
     GP := gp; MIN := min; FGM := FGM p; FGA := fga; FG_PCT := FG_PCT p;
     FG3M := FG3M p; FG3A := FG3A p; FG3_PCT := FG3_PCT p; FTM := FTM p;
     FTA := FTA p; FT_PCT := FT_PCT p; REB := REB p; AST := AST p; TOV := TOV p;
     STL := STL p; BLK := BLK p; PF := pf; PTS := pts |}.

(** Non-negative statistics with non-zero denominators whose [VOP]
    overflows: one minute played, [1e308] points on half an attempt. *)
Definition overflowing : NBAPlayerStats :=
  {| PLAYER_ID := 1; PLAYER_NAME := "Overflow"; TEAM_ABBREVIATION := "X";
     GP := 70; MIN := 1; FGM := 0; FGA := 0.5; FG_PCT := 0; FG3M := 0;
     FG3A := 0; FG3_PCT := 0; FTM := 0; FTA := 0; FT_PCT := 0; REB := 0;
     AST := 0; TOV := 0; STL := 0; BLK := 0; PF := 1; PTS := 1e308 |}.

(** Statistics of at most 1 in which one divisor is tiny but not zero:
    the denominator of [VOP] ([0.44 * 1e-320]), the minutes, the fouls. *)
Definition small_stats (min fga fta ftm pf pts : JS.number) : NBAPlayerStats :=
  {| PLAYER_ID := 2; PLAYER_NAME := "Small"; TEAM_ABBREVIATION := "X";
     GP := 70; MIN := min; FGM := 0; FGA := fga; FG_PCT := 0; FG3M := 0;
     FG3A := 0; FG3_PCT := 0; FTM := ftm; FTA := fta; FT_PCT := 0; REB := 0;
     AST := 0; TOV := 0; STL := 0; BLK := 0; PF := pf; PTS := pts |}.

Definition tiny_denominator : NBAPlayerStats := small_stats 1 0 1e-320 0 1 1.
Definition tiny_minutes : NBAPlayerStats := small_stats 1e-320 1 0 0 1 0.
Definition tiny_fouls : NBAPlayerStats := small_stats 1 1 1 1 1e-320 1.

(** The thirteen statistics lie in [0, 1], [MIN > 0] and the two unguarded
    denominators are not zero. *)
Definition small_and_nondegenerate (p : NBAPlayerStats) : bool :=
  forallb (fun x => (0 <=? x) && (x <=? 1))
    [MIN p; FGM p; FGA p; FTM p; FTA p; FG3M p; AST p; REB p; TOV p; STL p;
     BLK p; PF p; PTS p]
  && (0 <? MIN p) && negb (VOP_denominator p =? 0) && negb (PF p =? 0).

(** The fixture with no personal foul. *)
Definition no_fouls : NBAPlayerStats := with_stats sample "No Fouls" 70 34.2 24 18 0.

(** The fixture with a negative points value that is a tie at one decimal. *)
Definition negative_tie : NBAPlayerStats :=
  with_stats sample "Negative" 70 34.2 (-0.25) 18 2.

Definition bench : NBAPlayerStats := with_stats sample "Bench" 5 12 4 18 2.
Definition starter : NBAPlayerStats := with_stats sample "Starter" 15 30 20 18 2.
Definition scorer : NBAPlayerStats := with_stats sample "Scorer" 60 30 31 18 2.

Definition sample_team : NBATeamStats.t :=
  {| NBATeamStats.TEAM_ID := 1610612747;
     NBATeamStats.TEAM_NAME := "Los Angeles Lakers";
     NBATeamStats.TEAM_ABBREVIATION := "LAL";
     NBATeamStats.TEAM_CITY := "Los Angeles";
     NBATeamStats.W := 47; NBATeamStats.L := 35; NBATeamStats.W_PCT := 0.573;
     NBATeamStats.PTS := 118; NBATeamStats.REB := 43.1; NBATeamStats.AST := 28.5;
     NBATeamStats.FG_PCT := 0.499; NBATeamStats.FG3_PCT := 0.377;
     NBATeamStats.FT_PCT := 0.782 |}.

(** An oracle for [Math.random] whose draws are all 0.1. *)
Definition low_draws : nat -> JS.number := fun _ => 0.1.

(** A service whose two caches were filled at time 0. *)
Definition filled_at_0 : RealNBADataService.t :=
  {| RealNBADataService.playerStatsCache := [sample];
     RealNBADataService.teamStatsCache := [sample_team];
     RealNBADataService.lastFetchTime := 0 |}.

(** The world of a call at time [now] whose request has the outcome
    [outcome], with random oracle [rnd]. *)
Definition at_time {Raw : Type} (now : Z) (outcome : JS.outcome (list Raw))
  (rnd : nat -> JS.number) : RealNBADataService.world Raw :=
  {| RealNBADataService.now_check := now;
     RealNBADataService.now_store := now;
     RealNBADataService.request := outcome;
     RealNBADataService.rnd := rnd;
     RealNBADataService.drawn := 0 |}.

(** One oracle for two successive calls: the first two draws are low, the
    later ones high. *)
Definition mixed_draws : nat -> JS.number :=
  fun k => if (k <? 2)%nat then 0.1 else 0.9.

(** The list a settled call resolved to. *)
Definition returned {A : Type} (o : JS.outcome (list A)) : list A :=
  match o with JS.Returned l => l | JS.Thrown _ => [] end.

(** The error thrown by [makeRequest]. *)
Definition api_error (endpoint : string) : string :=
  ("Failed to fetch data from NBA API: " ++ endpoint)%string.

(* ================================================================== *)
(** * The code around the calculator, the normalizer and the cache *)

(** ** services/nbaApi.ts: from rows to objects

    [getPlayerStats], [getTeamStats] and [getPlayerGameLogs] turn each row
    of the answer into an object with
    [const player = {}; headers.forEach((header, index) => { player[header] = row[index]; })].
    The answer is parsed JSON.  The object under construction is an
    ordinary object: its own properties in the order of their creation, and
    its prototype, which starts as [Object.prototype]. *)

Module Rows.

(** A value of the parsed answer, or [undefined] (a cell read past the end
    of a row). *)
Inductive value : Type :=
| Undefined
| Null
| Bool (b : bool)
| Num (x : JS.number)
| Str (s : string)
| Arr (items : list value)
| Obj (props : list (string * value)).

(** The prototype of the object: [Object.prototype], none, or a parsed
    array or object of the answer (whose own prototype is the built-in
    one). *)
Inductive prototype : Type :=
| ObjectPrototype
| NoPrototype
| Parsed (v : value).

Record object : Type := {
  own : list (string * value);
  proto : prototype
}.

(** [{}]. *)
Definition empty : object := {| own := []; proto := ObjectPrototype |}.

Definition has_key (props : list (string * value)) (h : string) : bool :=
  existsb (fun kv => String.eqb (fst kv) h) props.

(** The value of the own property [h], if there is one. *)
Definition own_value (props : list (string * value)) (h : string) : option value :=
  match find (fun kv => String.eqb (fst kv) h) props with
  | Some (_, v) => Some v
  | None => None
  end.

(** An own data property is overwritten in place, or created at the end. *)
Fixpoint assign (props : list (string * value)) (h : string) (v : value)
  : list (string * value) :=
  match props with
  | [] => [(h, v)]
  | (h', v') :: props' =>
      if String.eqb h' h then (h', v) :: props' else (h', v') :: assign props' h v
  end.

(** The lookup of [__proto__] along the chain of a prototype ends at the
    accessor of [Object.prototype], unless the chain is empty or a parsed
    object on it has an own property of that name ([JSON.parse] creates
    one for the key [__proto__]). *)
Definition inherits_proto_accessor (p : prototype) : bool :=
  match p with
  | ObjectPrototype => true
  | NoPrototype => false
  | Parsed (Obj props) => negb (has_key props "__proto__")
  | Parsed _ => true
  end.

(** [o[h] = v] (ECMAScript 10.1.9, OrdinarySet).  The only property with a
    setter on the chain is [__proto__]: assigning to it when the object has
    no own property of that name changes the prototype to [v] if [v] is
    [null] or an object, does nothing otherwise, and creates no property.
    Every other assignment writes an own data property (the inherited data
    properties are writable). *)
Definition set (o : object) (h : string) (v : value) : object :=
  if String.eqb h "__proto__" && negb (has_key (own o) h)
     && inherits_proto_accessor (proto o)
  then
    match v with
    | Null => {| own := own o; proto := NoPrototype |}
    | Arr _ | Obj _ => {| own := own o; proto := Parsed v |}
    | _ => o
    end
  else {| own := assign (own o) h v; proto := proto o |}.

(** [o[h]]: the own property, or else whatever the lookup of [h] on the
    prototype gives ([Object.prototype] answers [constructor], [toString]
    and its other names, and [undefined] for the rest). *)
Inductive lookup : Type :=
| Found (v : value)
| Delegated (p : prototype).

Definition get (o : object) (h : string) : lookup :=
  match own_value (own o) h with
  | Some v => Found v
  | None => Delegated (proto o)
  end.

(** The names of the own properties, in the order of their creation. *)
Definition keys (o : object) : list string := map fst (own o).

(** [row[index]]. *)
Definition cell (row : list value) (index : nat) : value := nth index row Undefined.

(** The [forEach] loop from position [index] on. *)
Fixpoint forEach_assign (headers : list string) (index : nat) (row : list value)
  (player : object) : object :=
  match headers with
  | [] => player
  | header :: rest =>
      forEach_assign rest (S index) row (set player header (cell row index))
  end.

Definition reshape (headers : list string) (row : list value) : object :=
  forEach_assign headers 0 row empty.

Definition reshape_rows (headers : list string) (rows : list (list value))
  : list object :=
  map (reshape headers) rows.

End Rows.

(** ** utils/realNbaData.ts: [fetchHistoricalData]

    One season after the other: the players call, then the teams call on
    the state the players call left, their lists appended to the totals.
    The [catch] of the loop body only logs. *)

Module Historical.

Record totals := {
  players : list Player;
  teams : list Team.t;
  service : RealNBADataService.t;
  calls : list RealNBADataService.api_call;
  draws : nat
}.

(** The world of a call inside a run that has made [k] draws so far. *)
Definition after_draws {Raw : Type} (k : nat) (w : RealNBADataService.world Raw)
  : RealNBADataService.world Raw :=
  {| RealNBADataService.now_check := RealNBADataService.now_check w;
     RealNBADataService.now_store := RealNBADataService.now_store w;
     RealNBADataService.request := RealNBADataService.request w;
     RealNBADataService.rnd := RealNBADataService.rnd w;
     RealNBADataService.drawn := k |}.

Definition season_step (acc : totals)
  (s : string * RealNBADataService.world NBAPlayerStats
       * RealNBADataService.world NBATeamStats.t) : totals :=
  let '(season, wp, wt) := s in
  let rp := RealNBADataService.fetchPlayerData season (after_draws (draws acc) wp)
              (service acc) in
  match RealNBADataService.value rp with
  | JS.Thrown _ =>
      {| players := players acc; teams := teams acc;
         service := RealNBADataService.state rp;
         calls := calls acc ++ RealNBADataService.calls rp;
         draws := RealNBADataService.draws rp |}
  | JS.Returned ps =>
      let rt := RealNBADataService.fetchTeamData season
                  (after_draws (RealNBADataService.draws rp) wt)
                  (RealNBADataService.state rp) in
      match RealNBADataService.value rt with
      | JS.Thrown _ =>
          {| players := players acc; teams := teams acc;
             service := RealNBADataService.state rt;
             calls := calls acc ++ RealNBADataService.calls rp
                      ++ RealNBADataService.calls rt;
             draws := RealNBADataService.draws rt |}
      | JS.Returned ts =>
          {| players := players acc ++ ps; teams := teams acc ++ ts;
             service := RealNBADataService.state rt;
             calls := calls acc ++ RealNBADataService.calls rp
                      ++ RealNBADataService.calls rt;
             draws := RealNBADataService.draws rt |}
      end
  end.

Definition fetchHistoricalData
  (seasons : list (string * RealNBADataService.world NBAPlayerStats
                   * RealNBADataService.world NBATeamStats.t))
  (this : RealNBADataService.t) (drawn : nat) : totals :=
  fold_left season_step seasons
    {| players := []; teams := []; service := this; calls := []; draws := drawn |}.

End Historical.

(** ** App.tsx: loading the data and the overview figures *)

(** [a.reduce(f)] with no initial value: a [TypeError] on the empty array. *)
Definition Array_reduce_no_init {A : Type} (f : A -> A -> A) (a : list A) : JS.outcome A :=
  match a with
  | [] => JS.Thrown "Reduce of empty array with no initial value"
  | x :: rest => JS.Returned (fold_left f rest x)
  end.

Module App.

Record OverviewStats := {
  totalPoints : JS.number;
  avgPER : JS.number;
  topTeam : string;
  totalGames : JS.number
}.

(** The callback of [teams.reduce] in [getOverviewStats]. *)
Definition better (prev current : Team.t) : Team.t :=
  if Team.winPercentage current <? Team.winPercentage prev then prev else current.

Definition getOverviewStats (players : list Player) (teams : list Team.t)
  : JS.outcome OverviewStats :=
  if (List.length players =? 0)%nat then
    JS.Returned {| totalPoints := 0; avgPER := 0; topTeam := "Loading...";
                   totalGames := 0 |}
  else
    let totalPoints := fold_left (fun sum player => sum + points player) players 0 in
    let avgPER := fold_left (fun sum player => sum + per player) players 0
                  / JS.of_Z (Z.of_nat (List.length players)) in
    match Array_reduce_no_init better teams with
    | JS.Thrown e => JS.Thrown e
    | JS.Returned top =>
        JS.Returned
          {| totalPoints := JS.Math_round totalPoints;
             avgPER := JS.Math_round (avgPER * 10) / 10;
             topTeam := if String.eqb (Team.name top) "" then "N/A" else Team.name top;
             totalGames := fold_left (fun sum team => sum + Team.wins team + Team.losses team)
                             teams 0 |}
    end.

(** The component's state that [loadNBAData] writes, and the service
    object it calls. *)
Record state := {
  players : list Player;
  teams : list Team.t;
  isLoading : bool;
  hasError : bool;
  lastUpdated : option Z;
  service : RealNBADataService.t
}.

(** [loadNBAData]: [Promise.all] starts both fetches before either
    resumes, so both freshness tests read the service as it is at the
    start and each call computes its list as it would alone; the stores
    run when the requests settle, the players' first or
    ([players_settle_first = false]) the teams' first, and the last store
    leaves its time.  [now] is the reading of [new Date()]. *)
Definition loadNBAData (players_settle_first : bool)
  (wp : RealNBADataService.world NBAPlayerStats)
  (wt : RealNBADataService.world NBATeamStats.t) (now : Z) (app : state) : state :=
  let this := service app in
  let rp := RealNBADataService.fetchPlayerData "2023-24" wp this in
  let rt := RealNBADataService.fetchTeamData "2023-24" wt this in
  let missed {A} (r : RealNBADataService.result A) :=
    negb (match RealNBADataService.calls r with [] => true | _ => false end) in
  let this' :=
    {| RealNBADataService.playerStatsCache :=
         RealNBADataService.playerStatsCache (RealNBADataService.state rp);
       RealNBADataService.teamStatsCache :=
         RealNBADataService.teamStatsCache (RealNBADataService.state rt);
       RealNBADataService.lastFetchTime :=
         if players_settle_first then
           if missed rt then RealNBADataService.lastFetchTime (RealNBADataService.state rt)
           else RealNBADataService.lastFetchTime (RealNBADataService.state rp)
         else
           if missed rp then RealNBADataService.lastFetchTime (RealNBADataService.state rp)
           else RealNBADataService.lastFetchTime (RealNBADataService.state rt) |} in
  match RealNBADataService.value rp, RealNBADataService.value rt with
  | JS.Returned playersData, JS.Returned teamsData =>
      {| players := playersData; teams := teamsData; isLoading := false;
         hasError := false; lastUpdated := Some now; service := this' |}
  | _, _ =>
      {| players := []; teams := []; isLoading := false; hasError := true;
         lastUpdated := lastUpdated app; service := this' |}
  end.

End App.

(** ** components/PlayerTable.tsx and components/PredictionPanel.tsx *)

(** The rows of the table: [players.slice(0, 10)]. *)
Definition PlayerTable_rows (players : list Player) : list Player := firstn 10 players.

Definition calculatePredictionAccuracy (players : list Player) : JS.number :=
  let accuracies :=
    map (fun player =>
           let error := abs (per player - predictedPER player) / per player in
           1 - error) players in
  let avgAccuracy :=
    fold_left (fun sum acc => sum + acc) accuracies 0
    / JS.of_Z (Z.of_nat (List.length accuracies)) in
  JS.Math_max 0 (JS.Math_min 1 avgAccuracy) * 100.

(** ** Vocabulary of the further properties *)

(** No character of the class [\s] stands in [s]; no line terminator
    stands in [s]. *)
Fixpoint no_space (s : string) : bool :=
  match s with
  | EmptyString => true
  | String _ s' => (JS.space_width s =? 0)%nat && no_space s'
  end.

Fixpoint one_line (s : string) : bool :=
  match s with
  | EmptyString => true
  | String _ s' => (JS.line_terminator_width s =? 0)%nat && one_line s'
  end.

(** [w] is the encoding of one character of the class [\s]. *)
Definition space_char (w : string) : Prop :=
  w <> EmptyString /\ JS.space_width w = String.length w.

(** Further teams: a name whose last white space is a no-break space
    (U+00A0, the bytes 194 160), and a league of four teams given out of
    order, two of them with the same [W_PCT]. *)
Definition team_like (id : Z) (name city abbreviation : string) (w l w_pct : JS.number)
  : NBATeamStats.t :=
  {| NBATeamStats.TEAM_ID := id;
     NBATeamStats.TEAM_NAME := name;
     NBATeamStats.TEAM_ABBREVIATION := abbreviation;
     NBATeamStats.TEAM_CITY := city;
     NBATeamStats.W := w; NBATeamStats.L := l; NBATeamStats.W_PCT := w_pct;
     NBATeamStats.PTS := NBATeamStats.PTS sample_team;
     NBATeamStats.REB := NBATeamStats.REB sample_team;
     NBATeamStats.AST := NBATeamStats.AST sample_team;
     NBATeamStats.FG_PCT := NBATeamStats.FG_PCT sample_team;
     NBATeamStats.FG3_PCT := NBATeamStats.FG3_PCT sample_team;
     NBATeamStats.FT_PCT := NBATeamStats.FT_PCT sample_team |}.

Definition blazers : NBATeamStats.t :=
  team_like 1610612757
    ("Portland Trail" ++ String (ascii_of_N 194) (String (ascii_of_N 160) "Blazers"))
    "Portland" "POR" 21 61 0.256.

Definition sample_league : list NBATeamStats.t :=
  [sample_team;
   team_like 1610612738 "Boston Celtics" "Boston" "BOS" 64 18 0.78;
   team_like 1610612746 "LA Clippers" "LA" "LAC" 47 35 0.573;
   team_like 1610612743 "Denver Nuggets" "Denver" "DEN" 57 25 0.695;
   blazers].

(** Twelve records with more than 10 games, named after their minutes. *)
Definition sample_roster : list NBAPlayerStats :=
  map (fun min => with_stats sample (JS.toString min) 70 (JS.of_Z min) 24 18 2)
      [24; 8; 31; 12; 27; 5; 19; 22; 35; 15; 29; 10]%Z.

(** A sample answer of the API: the header [PLAYER_NAME] comes twice, and
    the row is one cell short. *)
Definition sample_headers : list string :=
  ["PLAYER_ID"; "PLAYER_NAME"; "GP"; "PLAYER_NAME"; "MIN"]%string.
Definition sample_row : list Rows.value :=
  [Rows.Num 2544; Rows.Str "L. James"; Rows.Num 71; Rows.Str "LeBron James"].

(** The integer [n] taken as tenths, [n / 10], lies in [0, 40]. *)
Definition tenths_in_range (n : Z) : bool :=
  (0 <=? JS.of_Z n / 10) && (JS.of_Z n / 10 <=? 40).

(* ================================================================== *)
(** * Facts about binary64 numbers *)

(** ** The bit-level specification *)

Section SpecFloatFacts.

Lemma SFcompare_refl x : x <> S754_nan -> SFcompare x x = Some Eq.
Proof.
  destruct x as [s|s| |s m e]; simpl; try congruence; intros _.
  - now destruct s.
  - rewrite Z.compare_refl. fold (Pos.compare m m). rewrite Pos.compare_refl.
    now destruct s.
Qed.

Lemma SFcompare_antisym x y :
  SFcompare y x = option_map CompOpp (SFcompare x y).
Proof.
  destruct x as [sx|sx| |sx mx ex], y as [sy|sy| |sy my ey]; simpl;
    try reflexivity; try (now destruct sx); try (now destruct sy);
    try (now destruct sx, sy).
  fold (Pos.compare mx my) (Pos.compare my mx).
  rewrite (Z.compare_antisym ex ey), (Pos.compare_antisym mx my).
  destruct sx, sy; simpl; try reflexivity;
    destruct (ex ?= ey)%Z; simpl; try reflexivity;
    now destruct (mx ?= my)%positive.
Qed.

(** Numerically equal numbers compare alike with any third one. *)
Lemma SFcompare_Eq_l x v y :
  SFcompare x v = Some Eq -> SFcompare x y = SFcompare v y.
Proof.
  destruct x as [sx|sx| |sx mx ex], v as [sv|sv| |sv mv ev]; simpl;
    try discriminate; try (destruct sx; discriminate);
    try (destruct sv; discriminate); try (destruct sx, sv; discriminate).
  - intros _. now destruct y.
  - destruct sx, sv; try discriminate; intros _; now destruct y.
  - fold (Pos.compare mx mv).
    destruct sx, sv; try discriminate;
      destruct (Z.compare_spec ex ev); try discriminate;
      destruct (Pos.compare_spec mx mv); try discriminate; subst; reflexivity.
Qed.

Lemma SFleb_trans x y z :
  SFleb x y = true -> SFleb y z = true -> SFleb x z = true.
Proof.
  unfold SFleb.
  destruct x as [sx|sx| |sx mx ex], y as [sy|sy| |sy my ey],
           z as [sz|sz| |sz mz ez]; simpl;
    try discriminate; try reflexivity;
    try (destruct sx; simpl; (discriminate || reflexivity));
    try (destruct sy; simpl; (discriminate || reflexivity));
    try (destruct sz; simpl; (discriminate || reflexivity));
    try (destruct sx, sy; simpl; (discriminate || reflexivity));
    try (destruct sy, sz; simpl; (discriminate || reflexivity));
    try (destruct sx, sz; simpl; (discriminate || reflexivity));
    try (destruct sx, sy, sz; simpl; (discriminate || reflexivity)).
  fold (Pos.compare mx my) (Pos.compare my mz) (Pos.compare mx mz).
  destruct sx, sy, sz; simpl; try discriminate; try reflexivity;
    destruct (Z.compare_spec ex ey); try discriminate;
    destruct (Z.compare_spec ey ez); try discriminate;
    destruct (Z.compare_spec ex ez); try reflexivity; try lia;
    subst;
    destruct (Pos.compare_spec mx my); try discriminate;
    destruct (Pos.compare_spec my mz); try discriminate;
    destruct (Pos.compare_spec mx mz); try reflexivity; try lia.
Qed.

End SpecFloatFacts.

(** ** Rounding never turns a non-zero difference into zero *)

Section Rounding.

Local Open Scope Z_scope.

Lemma fexp_eq x : fexp prec emax x = Z.max (x - 53) (-1074).
Proof. reflexivity. Qed.

Lemma digits2_pos_bounds m :
  2 ^ (Zpos (digits2_pos m) - 1) <= Zpos m < 2 ^ Zpos (digits2_pos m).
Proof.
  induction m as [p IH|p IH|]; simpl digits2_pos.
  - rewrite Pos2Z.inj_succ.
    replace (Z.succ (Zpos (digits2_pos p)) - 1) with (Z.succ (Zpos (digits2_pos p) - 1)) by lia.
    rewrite !Z.pow_succ_r by lia. lia.
  - rewrite Pos2Z.inj_succ.
    replace (Z.succ (Zpos (digits2_pos p)) - 1) with (Z.succ (Zpos (digits2_pos p) - 1)) by lia.
    rewrite !Z.pow_succ_r by lia. lia.
  - simpl. lia.
Qed.

Lemma shr_1_m mrs : 0 <= shr_m mrs -> shr_m (shr_1 mrs) = shr_m mrs / 2.
Proof.
  destruct mrs as [m r s]. simpl. intros H.
  destruct m as [|[p|p|]|p]; simpl; try reflexivity; try lia.
  - apply Z.div_unique with 1; lia.
  - apply Z.div_unique with 0; lia.
Qed.

Lemma iter_shr_1_m n : forall mrs,
  0 <= shr_m mrs ->
  shr_m (iter_pos shr_1 n mrs) = shr_m mrs / 2 ^ Zpos n.
Proof.
  assert (Hpow : forall k, 0 < 2 ^ Zpos k) by (intros; apply Z.pow_pos_nonneg; lia).
  induction n as [p IH|p IH|]; intros mrs H; simpl iter_pos.
  - assert (H1 : 0 <= shr_m (shr_1 mrs)).
    { rewrite shr_1_m by assumption. apply Z.div_pos; lia. }
    assert (H2 : 0 <= shr_m (iter_pos shr_1 p (shr_1 mrs))).
    { rewrite IH by assumption. apply Z.div_pos; [assumption | apply Hpow]. }
    rewrite (IH _ H2), (IH _ H1), shr_1_m by assumption.
    pose proof (Hpow p).
    rewrite !Z.div_div by lia.
    f_equal.
    replace (Zpos p~1) with (1 + Zpos p + Zpos p) by lia.
    rewrite !Z.pow_add_r by lia. change (2 ^ 1) with 2. lia.
  - assert (H2 : 0 <= shr_m (iter_pos shr_1 p mrs)).
    { rewrite IH by assumption. apply Z.div_pos; [assumption | apply Hpow]. }
    rewrite (IH _ H2), (IH _ H) by assumption.
    pose proof (Hpow p).
    rewrite !Z.div_div by lia.
    f_equal.
    replace (Zpos p~0) with (Zpos p + Zpos p) by lia.
    rewrite !Z.pow_add_r by lia. lia.
  - now rewrite shr_1_m.
Qed.

Lemma shr_record_of_loc_m m l : shr_m (shr_record_of_loc m l) = m.
Proof. now destruct l as [|[]]. Qed.

(** Shifting a positive mantissa to its canonical exponent keeps it
    positive as long as the exponent is not below [emin]. *)
Lemma shr_fexp_pos m e l :
  -1074 <= e ->
  exists p, shr_m (fst (shr_fexp prec emax (Zpos m) e l)) = Zpos p
            /\ e <= snd (shr_fexp prec emax (Zpos m) e l).
Proof.
  intros He. unfold shr_fexp, shr. rewrite fexp_eq.
  pose proof (digits2_pos_bounds m) as Hd.
  cbn [Zdigits2].
  set (d := Zpos (digits2_pos m)) in *.
  destruct (Z.max (d + e - 53) (-1074) - e) as [|n|n] eqn:En; cbn [fst snd].
  - exists m. rewrite shr_record_of_loc_m. split; [reflexivity | lia].
  - rewrite iter_shr_1_m by (rewrite shr_record_of_loc_m; lia).
    rewrite shr_record_of_loc_m.
    assert (Hn : Zpos n <= d - 1) by lia.
    assert (Hle : 2 ^ Zpos n <= Zpos m).
    { etransitivity; [apply Z.pow_le_mono_r with (c := d - 1); lia | apply Hd]. }
    assert (Hq : 0 < Zpos m / 2 ^ Zpos n).
    { apply Z.div_str_pos. split; [apply Z.pow_pos_nonneg; lia | assumption]. }
    destruct (Zpos m / 2 ^ Zpos n) as [|q|q]; try lia.
    exists q. split; [reflexivity | lia].
  - exists m. rewrite shr_record_of_loc_m. split; [reflexivity | lia].
Qed.

Lemma round_nearest_even_pos p l :
  exists q, round_nearest_even (Zpos p) l = Zpos q.
Proof.
  destruct l as [|[]]; simpl; eauto; destruct p; simpl; eauto.
Qed.

(** With an exponent not below [emin], rounding a positive mantissa
    never underflows to zero: the result keeps the sign. *)
Lemma binary_round_aux_sign s m e l :
  -1074 <= e ->
  (exists m' e', binary_round_aux prec emax s (Zpos m) e l = S754_finite s m' e')
  \/ binary_round_aux prec emax s (Zpos m) e l = S754_infinity s.
Proof.
  intros He. unfold binary_round_aux.
  destruct (shr_fexp_pos m e l He) as (p & Hp & He1).
  destruct (shr_fexp prec emax (Zpos m) e l) as [mrs1 e1]. cbn [fst snd] in *.
  rewrite Hp.
  destruct (round_nearest_even_pos p (loc_of_shr_record mrs1)) as [q Hq].
  rewrite Hq.
  destruct (shr_fexp_pos q e1 loc_Exact) as (r & Hr & He2); [lia|].
  destruct (shr_fexp prec emax (Zpos q) e1 loc_Exact) as [mrs2 e2]. cbn [fst snd] in *.
  rewrite Hr.
  destruct (e2 <=? emax - prec); eauto.
Qed.

Lemma shl_align_exp m e e' : e <= snd (shl_align m e e') \/ snd (shl_align m e e') = e'.
Proof.
  unfold shl_align. destruct (e' - e); cbn [snd]; lia.
Qed.

Lemma binary_round_sign s m e :
  -1074 <= e ->
  (exists m' e', binary_round prec emax s m e = S754_finite s m' e')
  \/ binary_round prec emax s m e = S754_infinity s.
Proof.
  intros He. unfold binary_round.
  pose proof (shl_align_exp m e (fexp prec emax (Zpos (digits2_pos m) + e))) as H.
  rewrite fexp_eq in *.
  destruct (shl_align m e _) as [mz ez]. cbn [snd] in H.
  apply binary_round_aux_sign. lia.
Qed.

Lemma binary_normalize_pos m e :
  -1074 <= e ->
  SFltb (S754_zero false) (binary_normalize prec emax m e false) = (0 <? m).
Proof.
  intros He. destruct m as [|p|p]; simpl binary_normalize.
  - reflexivity.
  - destruct (binary_round_sign false p e He) as [(m' & e' & ->)| ->]; reflexivity.
  - destruct (binary_round_sign true p e He) as [(m' & e' & ->)| ->]; reflexivity.
Qed.

Lemma iter_xO_pow m d : Zpos (Pos.iter xO m d) = Zpos m * 2 ^ Zpos d.
Proof.
  induction d as [|d IH] using Pos.peano_ind.
  - change (Zpos m~0 = Zpos m * 2). lia.
  - rewrite Pos.iter_succ, Pos2Z.inj_xO, IH, Pos2Z.inj_succ, Z.pow_succ_r by lia. lia.
Qed.

Lemma shl_align_fst m e ez :
  ez <= e -> Zpos (fst (shl_align m e ez)) = Zpos m * 2 ^ (e - ez).
Proof.
  intros H. unfold shl_align.
  destruct (ez - e) as [|d|d] eqn:E; cbn [fst]; try lia.
  - replace (e - ez) with 0 by lia. lia.
  - rewrite iter_xO_pow. f_equal. f_equal. lia.
Qed.

(** A valid finite number has its exponent at least [emin] and its
    mantissa below [2^53]; above [emin] the mantissa is normalised. *)
Lemma valid_finite_bounds s m e :
  valid_binary (S754_finite s m e) = true ->
  -1074 <= e /\ Zpos m < 2 ^ 53 /\ (-1074 < e -> 2 ^ 52 <= Zpos m).
Proof.
  unfold SpecFloat.valid_binary, bounded, canonical_mantissa.
  rewrite fexp_eq. intros H. apply andb_prop in H as [H _].
  apply Z.eqb_eq in H.
  pose proof (digits2_pos_bounds m) as Hd.
  set (d := Zpos (digits2_pos m)) in *.
  assert (Hd53 : d <= 53) by lia.
  split; [lia|]. split.
  - apply Z.lt_le_trans with (2 ^ d); [apply Hd|].
    apply Z.pow_le_mono_r; lia.
  - intros He. replace d with 53 in Hd by lia. apply Hd.
Qed.

(** Two valid positive magnitudes, brought to the smaller exponent,
    compare as [SFcompare] compares them: exponents first. *)
Lemma aligned_compare mx ex my ey :
  valid_binary (S754_finite false mx ex) = true ->
  valid_binary (S754_finite false my ey) = true ->
  (Zpos mx * 2 ^ (ex - Z.min ex ey) ?= Zpos my * 2 ^ (ey - Z.min ex ey)) =
  match ex ?= ey with
  | Lt => Lt
  | Gt => Gt
  | Eq => Pos.compare_cont Eq mx my
  end.
Proof.
  intros Hx Hy.
  apply valid_finite_bounds in Hx as (Hex & Hmx & Hnx).
  apply valid_finite_bounds in Hy as (Hey & Hmy & Hny).
  change (2 ^ 53) with 9007199254740992 in *.
  change (2 ^ 52) with 4503599627370496 in *.
  destruct (Z.compare_spec ex ey) as [E|E|E].
  - subst. rewrite Z.min_id, Z.sub_diag, !Z.mul_1_r. reflexivity.
  - rewrite Z.min_l, Z.sub_diag, Z.mul_1_r by lia.
    apply Z.compare_lt_iff.
    assert (2 ^ 1 <= 2 ^ (ey - ex)) by (apply Z.pow_le_mono_r; lia).
    change (2 ^ 1) with 2 in *. specialize (Hny ltac:(lia)). nia.
  - rewrite Z.min_r, Z.sub_diag, Z.mul_1_r by lia.
    apply Z.compare_gt_iff.
    assert (2 ^ 1 <= 2 ^ (ex - ey)) by (apply Z.pow_le_mono_r; lia).
    change (2 ^ 1) with 2 in *. specialize (Hnx ltac:(lia)). nia.
Qed.

(** The sign of a difference of two numbers is the sign of their
    comparison: subtraction never rounds a non-zero difference to zero. *)
Lemma SFsub_pos x y :
  valid_binary x = true -> valid_binary y = true ->
  x <> S754_nan -> y <> S754_nan ->
  SFltb (S754_zero false) (SF64sub y x) = SFltb x y.
Proof.
  intros Vx Vy Nx Ny.
  destruct x as [sx|sx| |sx mx ex], y as [sy|sy| |sy my ey];
    try congruence; try (now destruct sx, sy); try (now destruct sx);
    try (now destruct sy).
  unfold SF64sub, SFsub.
  pose proof (valid_finite_bounds _ _ _ Vx) as (Hex & _).
  pose proof (valid_finite_bounds _ _ _ Vy) as (Hey & _).
  rewrite binary_normalize_pos by lia.
  rewrite !shl_align_fst by lia.
  assert (Vx' : valid_binary (S754_finite false mx ex) = true) by exact Vx.
  assert (Vy' : valid_binary (S754_finite false my ey) = true) by exact Vy.
  pose proof (aligned_compare mx ex my ey Vx' Vy') as C.
  rewrite (Z.min_comm ey ex).
  assert (Px : 0 < Zpos mx * 2 ^ (ex - Z.min ex ey)).
  { apply Z.mul_pos_pos; [lia | apply Z.pow_pos_nonneg; lia]. }
  assert (Py : 0 < Zpos my * 2 ^ (ey - Z.min ex ey)).
  { apply Z.mul_pos_pos; [lia | apply Z.pow_pos_nonneg; lia]. }
  set (X := Zpos mx * 2 ^ (ex - Z.min ex ey)) in *.
  set (Y := Zpos my * 2 ^ (ey - Z.min ex ey)) in *.
  unfold SFltb, SFcompare, cond_Zopp.
  destruct sx, sy.
  - destruct (Z.compare_spec X Y) as [E|E|E];
      destruct (ex ?= ey); try discriminate; rewrite <- ?C; cbn [CompOpp];
      try (apply Z.ltb_lt; lia); apply Z.ltb_ge; lia.
  - apply Z.ltb_lt; lia.
  - apply Z.ltb_ge; lia.
  - destruct (Z.compare_spec X Y) as [E|E|E];
      destruct (ex ?= ey); try discriminate; rewrite <- ?C;
      try (apply Z.ltb_lt; lia); apply Z.ltb_ge; lia.
Qed.

(** Rounding a non-negative mantissa never yields [NaN]. *)
Lemma shr_fexp_nonneg m e l :
  0 <= m -> 0 <= shr_m (fst (shr_fexp prec emax m e l)).
Proof.
  intros Hm. unfold shr_fexp, shr.
  destruct (fexp prec emax (Zdigits2 m + e) - e) as [|n|n]; cbn [fst];
    rewrite ?iter_shr_1_m, shr_record_of_loc_m; try assumption.
  - apply Z.div_pos; [assumption | apply Z.pow_pos_nonneg; lia].
  - now rewrite shr_record_of_loc_m.
Qed.

Lemma round_nearest_even_nonneg m l : 0 <= m -> 0 <= round_nearest_even m l.
Proof.
  intros Hm. destruct l as [|[]]; simpl; try lia. destruct (Z.even m); lia.
Qed.

Lemma binary_round_aux_not_nan s m e l :
  0 <= m -> binary_round_aux prec emax s m e l <> S754_nan.
Proof.
  intros Hm. unfold binary_round_aux.
  pose proof (shr_fexp_nonneg m e l Hm) as H1.
  destruct (shr_fexp prec emax m e l) as [mrs1 e1]. cbn [fst] in H1.
  pose proof (shr_fexp_nonneg _ e1 loc_Exact
                (round_nearest_even_nonneg _ (loc_of_shr_record mrs1) H1)) as H2.
  destruct (shr_fexp prec emax _ e1 loc_Exact) as [mrs2 e2]. cbn [fst] in H2.
  destruct (shr_m mrs2); try discriminate; [|lia].
  destruct (e2 <=? emax - prec); discriminate.
Qed.

Lemma binary_round_not_nan s m e : binary_round prec emax s m e <> S754_nan.
Proof.
  unfold binary_round. destruct (shl_align m e _) as [mz ez].
  apply binary_round_aux_not_nan. lia.
Qed.

Lemma binary_normalize_not_nan m e sz : binary_normalize prec emax m e sz <> S754_nan.
Proof.
  destruct m; simpl; try discriminate; apply binary_round_not_nan.
Qed.

Lemma SFmul_not_nan x y :
  (forall s, x <> S754_infinity s) -> (forall s, y <> S754_infinity s) ->
  x <> S754_nan -> y <> S754_nan -> SF64mul x y <> S754_nan.
Proof.
  intros Ix Iy Nx Ny.
  destruct x as [sx|sx| |sx mx ex], y as [sy|sy| |sy my ey];
    try congruence; try discriminate;
    try (now elim (Ix sx)); try (now elim (Iy sy)).
  apply binary_round_aux_not_nan. lia.
Qed.

Lemma SFdiv_finite_not_nan x s m e :
  x <> S754_nan -> SF64div x (S754_finite s m e) <> S754_nan.
Proof.
  intros Nx. destruct x as [sx|sx| |sx mx ex]; try congruence; try discriminate.
  unfold SF64div, SFdiv, SFdiv_core_binary.
  set (m' := match _ - _ with Z0 => _ | Zpos _ => _ | Zneg _ => _ end).
  assert (Hm' : 0 <= m').
  { unfold m'. destruct (_ - _); try lia. apply Z.shiftl_nonneg. lia. }
  pose proof (Z.div_pos m' (Zpos m) Hm' ltac:(lia)) as Hq.
  unfold Z.div in Hq. destruct (Z.div_eucl m' (Zpos m)) as [q r].
  now apply binary_round_aux_not_nan.
Qed.

End Rounding.

(** ** Comparisons of primitive numbers *)

Section Comparisons.

Lemma is_nan_spec x : is_nan x = true <-> Prim2SF x = S754_nan.
Proof.
  unfold is_nan. rewrite eqb_spec. unfold SFeqb. split.
  - intros H. destruct (Prim2SF x) eqn:E; try reflexivity;
      rewrite SFcompare_refl in H by discriminate; discriminate.
  - intros ->. reflexivity.
Qed.

Lemma not_nan_spec x : is_nan x = false <-> Prim2SF x <> S754_nan.
Proof.
  rewrite <- is_nan_spec. destruct (is_nan x); split; congruence.
Qed.

Lemma is_nan_eq x : is_nan x = true -> x = nan.
Proof.
  intros H. apply Prim2SF_inj. apply is_nan_spec in H. now rewrite H.
Qed.

Lemma SFcompare_some x y :
  is_nan x = false -> is_nan y = false ->
  exists c, SFcompare (Prim2SF x) (Prim2SF y) = Some c.
Proof.
  rewrite !not_nan_spec.
  destruct (Prim2SF x), (Prim2SF y); simpl; try congruence; eauto.
Qed.

(** Every comparison of two numbers, read off [SFcompare]. *)
Lemma ltb_cmp x y :
  (x <? y) = match SFcompare (Prim2SF x) (Prim2SF y) with
             | Some Lt => true | _ => false end.
Proof. now rewrite ltb_spec. Qed.

Lemma gtb_cmp x y :
  (y <? x) = match SFcompare (Prim2SF x) (Prim2SF y) with
             | Some Gt => true | _ => false end.
Proof.
  rewrite ltb_spec. unfold SFltb. rewrite SFcompare_antisym.
  now destruct (SFcompare (Prim2SF x) (Prim2SF y)) as [[]|].
Qed.

Lemma leb_cmp x y :
  (x <=? y) = match SFcompare (Prim2SF x) (Prim2SF y) with
              | Some (Lt | Eq) => true | _ => false end.
Proof. now rewrite leb_spec. Qed.

Lemma geb_cmp x y :
  (y <=? x) = match SFcompare (Prim2SF x) (Prim2SF y) with
              | Some (Gt | Eq) => true | _ => false end.
Proof.
  rewrite leb_spec. unfold SFleb. rewrite SFcompare_antisym.
  now destruct (SFcompare (Prim2SF x) (Prim2SF y)) as [[]|].
Qed.

Lemma eqb_cmp x y :
  (x =? y) = match SFcompare (Prim2SF x) (Prim2SF y) with
             | Some Eq => true | _ => false end.
Proof. now rewrite eqb_spec. Qed.

Lemma eqb_sym x y : (y =? x) = (x =? y).
Proof.
  rewrite !eqb_spec. unfold SFeqb. rewrite SFcompare_antisym.
  now destruct (SFcompare (Prim2SF x) (Prim2SF y)) as [[]|].
Qed.

Lemma ltb_not_leb x y : (x <? y) = true -> (y <=? x) = false.
Proof.
  rewrite ltb_cmp, geb_cmp.
  now destruct (SFcompare (Prim2SF x) (Prim2SF y)) as [[]|].
Qed.

Lemma ltb_leb x y : (x <? y) = true -> (x <=? y) = true.
Proof.
  rewrite ltb_cmp, leb_cmp.
  now destruct (SFcompare (Prim2SF x) (Prim2SF y)) as [[]|].
Qed.

Lemma ltb_not_eqb x y : (x <? y) = true -> (x =? y) = false.
Proof.
  rewrite ltb_cmp, eqb_cmp.
  now destruct (SFcompare (Prim2SF x) (Prim2SF y)) as [[]|].
Qed.

Lemma not_ltb_geb x y :
  is_nan x = false -> is_nan y = false -> (x <? y) = false -> (y <=? x) = true.
Proof.
  intros Hx Hy. destruct (SFcompare_some x y Hx Hy) as [c Hc].
  rewrite ltb_cmp, geb_cmp, Hc. now destruct c.
Qed.

Lemma leb_trans x y z : (x <=? y) = true -> (y <=? z) = true -> (x <=? z) = true.
Proof. rewrite !leb_spec. apply SFleb_trans. Qed.

Lemma eqb_ltb_l x v y : (x =? v) = true -> (x <? y) = (v <? y).
Proof.
  rewrite eqb_cmp, !ltb_cmp. intros H.
  rewrite (SFcompare_Eq_l (Prim2SF x) (Prim2SF v) (Prim2SF y)); [reflexivity|].
  now destruct (SFcompare (Prim2SF x) (Prim2SF v)) as [[]|].
Qed.

Lemma sub_pos x y :
  is_nan x = false -> is_nan y = false -> (0 <? y - x) = (x <? y).
Proof.
  intros Hx Hy. rewrite !ltb_spec, sub_spec.
  change (Prim2SF 0) with (S754_zero false).
  apply SFsub_pos; try apply Prim2SF_valid; now apply not_nan_spec.
Qed.

End Comparisons.

(** ** [Array.prototype.sort] with a comparator [(a, b) => key(b) - key(a)] *)

Section SortDescending.

Context {A : Type} (key : A -> JS.number).

Let cmp (a b : A) : JS.number := key b - key a.

(** [a] may stand before [b]. *)
Let before (a b : A) : Prop := (key b <=? key a) = true.

Let numeric (a : A) : Prop := is_nan (key a) = false.

Lemma Forall_perm (P : A -> Prop) l l' :
  Permutation l l' -> Forall P l -> Forall P l'.
Proof.
  intros Hp H. rewrite Forall_forall in *. intros a Ha.
  apply H. eapply Permutation_in; [symmetry|]; eassumption.
Qed.

Lemma sort_insert_perm x l : Permutation (JS.sort_insert cmp x l) (x :: l).
Proof.
  induction l as [|y l IH]; simpl; [reflexivity|].
  destruct (0 <? cmp x y); [|reflexivity].
  rewrite IH. apply perm_swap.
Qed.

Lemma Array_sort_perm l : Permutation (JS.Array_sort cmp l) l.
Proof.
  induction l as [|x l IH]; simpl; [reflexivity|].
  rewrite sort_insert_perm. now constructor.
Qed.

Lemma sort_insert_sorted x l :
  numeric x -> Forall numeric l ->
  StronglySorted before l -> StronglySorted before (JS.sort_insert cmp x l).
Proof.
  intros Hx Hl Hs. induction Hs as [|y l Hs IH Hy]; simpl.
  - repeat constructor.
  - inversion Hl as [|? ? Ny Nl]; subst.
    unfold cmp at 1. rewrite sub_pos by assumption.
    destruct (key x <? key y) eqn:E.
    + constructor; [now apply IH|].
      apply (Forall_perm _ (x :: l));
        [symmetry; apply sort_insert_perm|].
      constructor; [now apply ltb_leb | assumption].
    + assert (Hxy : before x y) by now apply not_ltb_geb.
      constructor; [now constructor|].
      constructor; [assumption|].
      eapply Forall_impl; [|exact Hy].
      intros z Hz. unfold before in *. eapply leb_trans; eassumption.
Qed.

Lemma Array_sort_sorted l :
  Forall numeric l -> StronglySorted before (JS.Array_sort cmp l).
Proof.
  induction l as [|x l IH]; simpl; intros H.
  - constructor.
  - inversion H; subst. apply sort_insert_sorted; auto.
    apply (Forall_perm _ l); [symmetry; apply Array_sort_perm | assumption].
Qed.

(** Stability: the elements whose key equals [v] come out in the order
    they went in. *)
Lemma sort_insert_stable v x l :
  numeric x -> Forall numeric l ->
  filter (fun a => key a =? v) (JS.sort_insert cmp x l) =
  filter (fun a => key a =? v) (x :: l).
Proof.
  intros Hx Hl. induction Hl as [|y l Ny Nl IH]; [reflexivity|].
  cbn [JS.sort_insert]. unfold cmp at 1. rewrite sub_pos by assumption.
  destruct (key x <? key y) eqn:E; [|reflexivity].
  cbn [filter] in *. rewrite IH.
  destruct (key x =? v) eqn:Ex; [|reflexivity].
  rewrite (eqb_ltb_l _ _ _ Ex) in E.
  assert (Ey : (key y =? v) = false).
  { rewrite eqb_sym. now apply ltb_not_eqb. }
  now rewrite Ey.
Qed.

Lemma Array_sort_stable v l :
  Forall numeric l ->
  filter (fun a => key a =? v) (JS.Array_sort cmp l) =
  filter (fun a => key a =? v) l.
Proof.
  induction l as [|x l IH]; intros H; [reflexivity|].
  inversion H; subst. cbn [JS.Array_sort].
  rewrite sort_insert_stable; auto.
  - cbn [filter]. now rewrite IH.
  - apply (Forall_perm _ l); [symmetry; apply Array_sort_perm | assumption].
Qed.

End SortDescending.

(** ** How [NaN] and the infinities travel through the operations *)

Section NonFinite.

Lemma is_finite_false_spec x :
  is_finite x = false <->
  (Prim2SF x = S754_nan \/ exists s, Prim2SF x = S754_infinity s).
Proof.
  unfold is_finite, is_infinity, is_nan.
  rewrite !eqb_spec, abs_spec.
  change (Prim2SF infinity) with (S754_infinity false).
  destruct (Prim2SF x) as [s|s| |s m e] eqn:E; unfold SFeqb.
  - rewrite SFcompare_refl by discriminate. simpl.
    split; [discriminate | intros [H|[? H]]; discriminate].
  - rewrite SFcompare_refl by discriminate. simpl. split; eauto.
  - simpl. split; auto.
  - rewrite SFcompare_refl by discriminate. simpl.
    split; [discriminate | intros [H|[? H]]; discriminate].
Qed.

Lemma is_zero_spec x : (x =? 0) = true <-> exists s, Prim2SF x = S754_zero s.
Proof.
  rewrite eqb_spec. change (Prim2SF 0) with (S754_zero false). unfold SFeqb.
  destruct (Prim2SF x) as [s|s| |s m e]; simpl; split;
    try discriminate; try (intros [? H]; discriminate); eauto;
    destruct s; discriminate.
Qed.

Ltac to_spec := apply Prim2SF_inj; rewrite ?add_spec, ?sub_spec, ?mul_spec, ?div_spec;
                change (Prim2SF nan) with S754_nan.

Lemma add_nan_l x : nan + x = nan.
Proof. to_spec. now destruct (Prim2SF x). Qed.
Lemma add_nan_r x : x + nan = nan.
Proof. to_spec. now destruct (Prim2SF x). Qed.
Lemma sub_nan_l x : nan - x = nan.
Proof. to_spec. now destruct (Prim2SF x). Qed.
Lemma sub_nan_r x : x - nan = nan.
Proof. to_spec. now destruct (Prim2SF x). Qed.
Lemma mul_nan_l x : nan * x = nan.
Proof. to_spec. now destruct (Prim2SF x). Qed.
Lemma mul_nan_r x : x * nan = nan.
Proof. to_spec. now destruct (Prim2SF x). Qed.

(** Dividing by a zero gives an infinity or [NaN]. *)
Lemma div_by_zero x y : (y =? 0) = true -> is_finite (x / y) = false.
Proof.
  intros H. apply is_zero_spec in H as [s Hs].
  apply is_finite_false_spec. rewrite div_spec, Hs.
  destruct (Prim2SF x); simpl; eauto.
Qed.

Lemma sub_nonfinite_l x y : is_finite x = false -> is_finite (x - y) = false.
Proof.
  rewrite !is_finite_false_spec, sub_spec.
  intros [->|[s ->]]; [now left|].
  destruct (Prim2SF y) as [| sy | |]; simpl; eauto. destruct s, sy; eauto.
Qed.

(** Times a finite non-zero number, an infinity or [NaN] stays one. *)
Lemma mul_nonfinite_l x y s m e :
  Prim2SF y = S754_finite s m e ->
  is_finite x = false -> is_finite (x * y) = false.
Proof.
  intros Hy. rewrite !is_finite_false_spec, mul_spec, Hy.
  intros [->|[sx ->]]; simpl; eauto.
Qed.

(** Zero times an infinity or [NaN] is [NaN], on either side. *)
Lemma mul_zero_nonfinite z x :
  (z =? 0) = true -> is_finite x = false -> z * x = nan.
Proof.
  intros Hz Hx. apply is_zero_spec in Hz as [s Hs].
  apply is_finite_false_spec in Hx. to_spec. rewrite Hs.
  destruct Hx as [->|[sx ->]]; reflexivity.
Qed.

(** [x - x] is a zero, or [NaN] when [x] is not finite. *)
Lemma sub_diag x : (x - x =? 0) = true \/ x - x = nan.
Proof.
  destruct (Prim2SF x) as [s|s| |s m e] eqn:E.
  - left. apply is_zero_spec. rewrite sub_spec, E. destruct s; simpl; eauto.
  - right. to_spec. rewrite E. now destruct s.
  - right. to_spec. now rewrite E.
  - left. apply is_zero_spec. rewrite sub_spec, E.
    unfold SF64sub, SFsub. rewrite Z.sub_diag. simpl. eauto.
Qed.

Lemma mul_nonfinite_sub_diag x y : is_finite x = false -> x * (y - y) = nan.
Proof.
  intros Hx. destruct (sub_diag y) as [Hz| ->]; [|apply mul_nan_r].
  apply is_zero_spec in Hz as [s Hs].
  apply is_finite_false_spec in Hx. to_spec. rewrite Hs.
  destruct Hx as [->|[sx ->]]; reflexivity.
Qed.

Lemma is_finite_true_spec x :
  is_finite x = true ->
  Prim2SF x <> S754_nan /\ forall s, Prim2SF x <> S754_infinity s.
Proof.
  intros H. split; [intros E | intros s E];
    assert (F : is_finite x = false) by (apply is_finite_false_spec; eauto);
    congruence.
Qed.

Lemma mul_finite_not_nan x y :
  is_finite x = true -> is_finite y = true -> is_nan (x * y) = false.
Proof.
  intros Hx Hy. apply is_finite_true_spec in Hx as [Nx Ix].
  apply is_finite_true_spec in Hy as [Ny Iy].
  apply not_nan_spec. rewrite mul_spec. now apply SFmul_not_nan.
Qed.

Lemma div_finite_not_nan x y s m e :
  Prim2SF y = S754_finite s m e -> is_nan x = false -> is_nan (x / y) = false.
Proof.
  intros Hy Hx. apply not_nan_spec. rewrite div_spec, Hy.
  apply SFdiv_finite_not_nan. now apply not_nan_spec.
Qed.

Lemma of_Z_not_nan n : is_nan (JS.of_Z n) = false.
Proof.
  unfold JS.of_Z. pose proof (binary_normalize_not_nan n 0 false) as H.
  destruct (binary_normalize prec emax n 0 false) as [s|s| |s m e];
    try (now destruct s); [congruence|].
  apply not_nan_spec. unfold SF2Prim.
  assert (Hf : Prim2SF (FloatOps.Z.ldexp (of_uint63 (Uint63Axioms.of_Z (Zpos m))) e)
               <> S754_nan).
  { rewrite Z_ldexp_spec, of_uint63_spec.
    pose proof (binary_normalize_not_nan
                  (Uint63Axioms.to_Z (Uint63Axioms.of_Z (Zpos m))) 0 false) as H'.
    destruct (binary_normalize prec emax _ 0 false); try congruence; try discriminate.
    apply binary_round_not_nan. }
  destruct s; [|assumption].
  rewrite opp_spec. now destruct (Prim2SF _).
Qed.

Lemma Math_round_not_nan y : is_nan y = false -> is_nan (JS.Math_round y) = false.
Proof.
  intros H. unfold JS.Math_round.
  destruct (Prim2SF y) as [s|s| |s m e]; try assumption.
  destruct (0 <=? e)%Z; [assumption|].
  match goal with |- context [Z.eqb ?n 0] => destruct (Z.eqb n 0) end.
  - now destruct s.
  - apply of_Z_not_nan.
Qed.

End NonFinite.

(** ** The clamp [Math.max(0, Math.min(40, x))] *)

Section Clamp.

Lemma clamp_spec x :
  (is_nan x = true /\ clamp x = nan) \/
  (is_nan x = false /\ (0 <=? clamp x) = true /\ (clamp x <=? 40) = true).
Proof.
  destruct (is_nan x) eqn:Hn.
  - left. split; [reflexivity|]. apply is_nan_eq in Hn. now subst.
  - right. split; [reflexivity|].
    unfold clamp, JS.Math_min. rewrite Hn. cbn [is_nan orb].
    change (is_nan 40) with false. cbn [orb].
    assert (H40 : is_nan 40 = false) by reflexivity.
    destruct (SFcompare_some 40 x H40 Hn) as [c Hc].
    rewrite ltb_cmp, gtb_cmp, Hc.
    assert (Hx : c <> Lt ->
      (0 <=? JS.Math_max 0 x) = true /\ (JS.Math_max 0 x <=? 40) = true).
    { intros Hlt.
      assert (Hle : (x <=? 40) = true).
      { rewrite geb_cmp, Hc. now destruct c. }
      unfold JS.Math_max. change (is_nan 0) with false. rewrite Hn. cbn [orb].
      assert (H0 : is_nan 0 = false) by reflexivity.
      destruct (SFcompare_some 0 x H0 Hn) as [c0 Hc0].
      rewrite ltb_cmp, gtb_cmp, Hc0.
      destruct c0; change (get_sign 0) with false; cbv iota;
        try (split; reflexivity).
      split; [|assumption]. rewrite leb_cmp, Hc0. reflexivity. }
    destruct c; change (get_sign 40) with false; cbv iota.
    + apply Hx. discriminate.
    + split; reflexivity.
    + apply Hx. discriminate.
Qed.

Lemma in_range_finite r :
  (0 <=? r) = true -> (r <=? 40) = true -> is_finite r = true.
Proof.
  intros H0 H40. destruct (is_finite r) eqn:E; [reflexivity|].
  apply is_finite_false_spec in E.
  rewrite leb_cmp in H0, H40.
  change (Prim2SF 0) with (S754_zero false) in H0.
  destruct E as [E|[s E]]; rewrite E in *; simpl in *; try discriminate.
  destruct s; discriminate.
Qed.

End Clamp.

(* ================================================================== *)
(** * Orders of magnitude *)

Section Magnitude.

Local Open Scope Z_scope.

Lemma pow2_lt_exp a b : 0 <= b -> 2 ^ a < 2 ^ b -> a < b.
Proof.
  intros Hb H. destruct (Z_lt_le_dec a b) as [|Hle]; [assumption|].
  pose proof (Z.pow_le_mono_r 2 b a ltac:(lia) Hle). lia.
Qed.

Lemma divide_pow_split a b m :
  0 <= a -> 0 <= b -> (2 ^ (a + b) | m) -> (2 ^ a | m) /\ (2 ^ b | m / 2 ^ a).
Proof.
  intros Ha Hb [k Hk]. rewrite Z.pow_add_r in Hk by assumption.
  assert (Hp : 0 < 2 ^ a) by (apply Z.pow_pos_nonneg; lia).
  split.
  - exists (k * 2 ^ b). lia.
  - exists k. subst m. replace (k * (2 ^ a * 2 ^ b)) with (k * 2 ^ b * 2 ^ a) by lia.
    now rewrite Z.div_mul by lia.
Qed.

Lemma shr_1_inexact mrs :
  0 <= shr_m mrs ->
  (shr_r (shr_1 mrs) || shr_s (shr_1 mrs)) = true ->
  (shr_r mrs || shr_s mrs) = true \/ ~ (2 ^ 1 | shr_m mrs).
Proof.
  destruct mrs as [m r s]. simpl shr_m. intros Hm.
  destruct m as [|[p|p|]|p]; simpl; try lia;
    try (intros H; left; exact H);
    intros _; right; intros [k Hk]; lia.
Qed.

Lemma iter_shr_inexact p : forall mrs,
  0 <= shr_m mrs ->
  (shr_r (iter_pos shr_1 p mrs) || shr_s (iter_pos shr_1 p mrs)) = true ->
  (shr_r mrs || shr_s mrs) = true \/ ~ (2 ^ Zpos p | shr_m mrs).
Proof.
  assert (Hpow : forall k, 0 < 2 ^ Zpos k) by (intros; apply Z.pow_pos_nonneg; lia).
  induction p as [p IH|p IH|]; intros mrs Hm; simpl iter_pos.
  - assert (H1 : 0 <= shr_m (shr_1 mrs)).
    { rewrite shr_1_m by assumption. apply Z.div_pos; lia. }
    assert (H2 : 0 <= shr_m (iter_pos shr_1 p (shr_1 mrs))).
    { rewrite iter_shr_1_m by assumption. apply Z.div_pos; [assumption | apply Hpow]. }
    intros H. apply (IH _ H2) in H as [H|H].
    + apply (IH _ H1) in H as [H|H].
      * apply (shr_1_inexact _ Hm) in H as [H|H]; [now left|].
        right. intros D. apply H.
        replace (Zpos p~1) with (1 + (Zpos p + Zpos p)) in D by lia.
        now apply divide_pow_split in D as [D _]; try lia.
      * right. intros D. apply H. rewrite shr_1_m by assumption.
        replace (Zpos p~1) with (1 + (Zpos p + Zpos p)) in D by lia.
        apply divide_pow_split in D as [_ D]; try lia. change (2 ^ 1) with 2 in D.
        now apply divide_pow_split in D as [D _]; try lia.
    + right. intros D. apply H.
      rewrite iter_shr_1_m, shr_1_m by assumption.
      replace (Zpos p~1) with (1 + (Zpos p + Zpos p)) in D by lia.
      apply divide_pow_split in D as [_ D]; try lia. change (2 ^ 1) with 2 in D.
      now apply divide_pow_split in D as [_ D]; try lia.
  - assert (H2 : 0 <= shr_m (iter_pos shr_1 p mrs)).
    { rewrite iter_shr_1_m by assumption. apply Z.div_pos; [assumption | apply Hpow]. }
    intros H. apply (IH _ H2) in H as [H|H].
    + apply (IH _ Hm) in H as [H|H]; [now left|].
      right. intros D. apply H.
      replace (Zpos p~0) with (Zpos p + Zpos p) in D by lia.
      now apply divide_pow_split in D as [D _]; try lia.
    + right. intros D. apply H. rewrite iter_shr_1_m by assumption.
      replace (Zpos p~0) with (Zpos p + Zpos p) in D by lia.
      now apply divide_pow_split in D as [_ D]; try lia.
  - apply shr_1_inexact; assumption.
Qed.

(** Rounding to nearest moves the mantissa up by at most one, and only
    when bits were lost. *)
Lemma round_nearest_even_shr m p :
  let mrs := iter_pos shr_1 p {| shr_m := Zpos m; shr_r := false; shr_s := false |} in
  let q := Zpos m / 2 ^ Zpos p in
  let q' := round_nearest_even (shr_m mrs) (loc_of_shr_record mrs) in
  q' = q \/ (q' = q + 1 /\ q * 2 ^ Zpos p < Zpos m).
Proof.
  intros mrs q q'. 
  assert (Hq : shr_m mrs = q) by (unfold mrs; now rewrite iter_shr_1_m by (simpl; lia)).
  assert (Hin : (shr_r mrs || shr_s mrs) = true -> q * 2 ^ Zpos p < Zpos m).
  { intros H. apply iter_shr_inexact in H; [|simpl; lia]. simpl in H.
    destruct H as [H|H]; [discriminate|].
    assert (Hp : 0 < 2 ^ Zpos p) by (apply Z.pow_pos_nonneg; lia).
    pose proof (Z.mul_div_le (Zpos m) (2 ^ Zpos p) Hp) as Hle.
    fold q in Hle.
    destruct (Z.eq_dec (q * 2 ^ Zpos p) (Zpos m)) as [E|E]; [|lia].
    exfalso. apply H. exists q. lia. }
  unfold q'. rewrite Hq.
  destruct mrs as [m' r s]. simpl in *.
  destruct r, s; simpl; auto; try (right; split; [lia | now apply Hin]).
  destruct (Z.even q); auto.
Qed.

Lemma Zdigits2_nonneg m : 0 <= Zdigits2 m.
Proof. destruct m; simpl; lia. Qed.

Lemma Zdigits2_bounds m :
  0 < m -> 2 ^ (Zdigits2 m - 1) <= m < 2 ^ Zdigits2 m.
Proof. destruct m as [|p|p]; try lia. intros _. apply digits2_pos_bounds. Qed.

Lemma Zdigits2_le_iff m k :
  0 <= m -> 0 <= k -> (Zdigits2 m <= k <-> m < 2 ^ k).
Proof.
  intros Hm Hk.
  assert (Hp : 0 < 2 ^ k) by (apply Z.pow_pos_nonneg; lia).
  destruct (Z.eq_dec m 0) as [->|Hne]; [simpl; lia|].
  pose proof (Zdigits2_bounds m ltac:(lia)) as Hd.
  pose proof (Zdigits2_nonneg m) as Hn.
  split; intros H.
  - apply Z.lt_le_trans with (2 ^ Zdigits2 m); [apply Hd|].
    apply Z.pow_le_mono_r; lia.
  - assert (Zdigits2 m - 1 < k); [|lia].
    apply pow2_lt_exp; [assumption|]. lia.
Qed.

Lemma Zdigits2_ge_iff m k :
  0 < m -> 1 <= k -> (k <= Zdigits2 m <-> 2 ^ (k - 1) <= m).
Proof.
  intros Hm Hk.
  pose proof (Zdigits2_bounds m Hm) as Hd.
  pose proof (Zdigits2_nonneg m) as Hn.
  split; intros H.
  - apply Z.le_trans with (2 ^ (Zdigits2 m - 1)); [|apply Hd].
    apply Z.pow_le_mono_r; lia.
  - assert (k - 1 < Zdigits2 m); [|lia].
    apply pow2_lt_exp; [assumption|]. lia.
Qed.

Lemma Zdigits2_mono a b : 0 <= a <= b -> Zdigits2 a <= Zdigits2 b.
Proof.
  intros [Ha Hab]. pose proof (Zdigits2_nonneg b) as Hn.
  apply Zdigits2_le_iff; [assumption..|].
  destruct (Z.eq_dec b 0) as [->|Hne]; [simpl; lia|].
  pose proof (Zdigits2_bounds b ltac:(lia)). lia.
Qed.

Lemma Zdigits2_succ a : 0 <= a -> Zdigits2 (a + 1) <= Zdigits2 a + 1.
Proof.
  intros Ha. pose proof (Zdigits2_nonneg a) as Hn.
  apply Zdigits2_le_iff; [lia..|].
  rewrite Z.pow_add_r by lia. change (2 ^ 1) with 2.
  destruct (Z.eq_dec a 0) as [->|Hne]; [simpl; lia|].
  pose proof (Zdigits2_bounds a ltac:(lia)). lia.
Qed.

Lemma Zdigits2_div_pow_le m n :
  0 <= m -> 0 <= n -> Zdigits2 (m / 2 ^ n) <= Z.max (Zdigits2 m - n) 0.
Proof.
  intros Hm Hn.
  assert (Hp : 0 < 2 ^ n) by (apply Z.pow_pos_nonneg; lia).
  assert (Hq : 0 <= m / 2 ^ n) by (apply Z.div_pos; lia).
  pose proof (Zdigits2_nonneg m) as Hd.
  apply Zdigits2_le_iff; [assumption | lia |].
  apply Z.div_lt_upper_bound; [assumption|].
  destruct (Z.eq_dec m 0) as [->|Hne].
  { assert (0 < 2 ^ Z.max (Zdigits2 0 - n) 0) by (apply Z.pow_pos_nonneg; lia). lia. }
  pose proof (Zdigits2_bounds m ltac:(lia)) as Hb.
  apply Z.lt_le_trans with (2 ^ Zdigits2 m); [apply Hb|].
  rewrite <- Z.pow_add_r by lia. apply Z.pow_le_mono_r; lia.
Qed.

Lemma Zdigits2_div_pow_ge m n :
  0 < m -> 0 <= n -> n < Zdigits2 m -> Zdigits2 m - n <= Zdigits2 (m / 2 ^ n).
Proof.
  intros Hm Hn Hlt.
  assert (Hp : 0 < 2 ^ n) by (apply Z.pow_pos_nonneg; lia).
  pose proof (Zdigits2_bounds m Hm) as Hb.
  assert (Hq : 2 ^ (Zdigits2 m - n - 1) <= m / 2 ^ n).
  { apply Z.div_le_lower_bound; [assumption|].
    rewrite <- Z.pow_add_r by lia.
    replace (n + (Zdigits2 m - n - 1)) with (Zdigits2 m - 1) by lia. apply Hb. }
  assert (0 < 2 ^ (Zdigits2 m - n - 1)) by (apply Z.pow_pos_nonneg; lia).
  apply Zdigits2_ge_iff; [lia | lia | assumption].
Qed.

Lemma Zdigits2_mul a b :
  0 < a -> 0 < b ->
  Zdigits2 a + Zdigits2 b - 1 <= Zdigits2 (a * b) <= Zdigits2 a + Zdigits2 b.
Proof.
  intros Ha Hb.
  pose proof (Zdigits2_bounds a Ha) as Ba. pose proof (Zdigits2_bounds b Hb) as Bb.
  pose proof (Zdigits2_nonneg a). pose proof (Zdigits2_nonneg b).
  assert (Da : 1 <= Zdigits2 a).
  { apply Zdigits2_ge_iff; [assumption | lia | simpl; lia]. }
  assert (Db : 1 <= Zdigits2 b).
  { apply Zdigits2_ge_iff; [assumption | lia | simpl; lia]. }
  assert (0 < 2 ^ (Zdigits2 a - 1)) by (apply Z.pow_pos_nonneg; lia).
  assert (0 < 2 ^ (Zdigits2 b - 1)) by (apply Z.pow_pos_nonneg; lia).
  split.
  - apply Zdigits2_ge_iff; [nia | lia |].
    replace (Zdigits2 a + Zdigits2 b - 1 - 1) with ((Zdigits2 a - 1) + (Zdigits2 b - 1)) by lia.
    rewrite Z.pow_add_r by lia. nia.
  - apply Zdigits2_le_iff; [nia | lia |].
    rewrite Z.pow_add_r by lia. nia.
Qed.

(** The mantissa and the exponent after [shr_fexp]. *)
Lemma shr_fexp_spec M E l :
  0 <= M ->
  let n := Z.max (fexp prec emax (Zdigits2 M + E) - E) 0 in
  shr_m (fst (shr_fexp prec emax M E l)) = M / 2 ^ n
  /\ snd (shr_fexp prec emax M E l) = E + n.
Proof.
  intros HM n. unfold shr_fexp, shr. fold (fexp prec emax (Zdigits2 M + E)).
  subst n. destruct (fexp prec emax (Zdigits2 M + E) - E) as [|p|p]; cbn [fst snd].
  - rewrite shr_record_of_loc_m. change (Z.max 0 0) with 0.
    rewrite Z.div_1_r. lia.
  - rewrite iter_shr_1_m by (rewrite shr_record_of_loc_m; assumption).
    rewrite shr_record_of_loc_m. rewrite Z.max_l by lia. split; reflexivity.
  - rewrite shr_record_of_loc_m. rewrite Z.max_r by lia.
    rewrite Z.div_1_r. lia.
Qed.

Lemma round_nearest_even_cases m l :
  round_nearest_even m l = m \/ round_nearest_even m l = m + 1.
Proof. destruct l as [|[]]; simpl; auto. destruct (Z.even m); auto. Qed.

Lemma binary_round_aux_below s M E l k :
  0 <= M -> Zdigits2 M + E <= k -> -1074 <= k -> k <= 1023 -> E <= 971 ->
  SFbelow (k + 1) (binary_round_aux prec emax s M E l).
Proof.
  intros HM Hk Hlo Hhi HE. unfold binary_round_aux.
  destruct (shr_fexp_spec M E l HM) as [Hm1 He1].
  destruct (shr_fexp prec emax M E l) as [mrs1 e1]. cbn [fst snd] in Hm1, He1.
  set (n := Z.max (fexp prec emax (Zdigits2 M + E) - E) 0) in *.
  set (q' := round_nearest_even (shr_m mrs1) (loc_of_shr_record mrs1)).
  assert (Hn : 0 <= n) by (unfold n; lia).
  assert (Hpn : 0 < 2 ^ n) by (apply Z.pow_pos_nonneg; lia).
  assert (Hm1' : 0 <= shr_m mrs1) by (rewrite Hm1; apply Z.div_pos; lia).
  assert (Hq' : 0 <= q') by (unfold q'; destruct (round_nearest_even_cases (shr_m mrs1) (loc_of_shr_record mrs1)) as [->| ->]; lia).
  assert (Dq' : Zdigits2 q' + e1 <= k + 1).
  { assert (D1 : Zdigits2 (shr_m mrs1) <= Z.max (Zdigits2 M - n) 0).
    { rewrite Hm1. now apply Zdigits2_div_pow_le. }
    assert (D2 : Zdigits2 q' <= Zdigits2 (shr_m mrs1) + 1).
    { unfold q'. destruct (round_nearest_even_cases (shr_m mrs1) (loc_of_shr_record mrs1)) as [->| ->].
      - lia.
      - now apply Zdigits2_succ. }
    pose proof (Zdigits2_nonneg M). pose proof (fexp_eq (Zdigits2 M + E)).
    unfold n in *. lia. }
  destruct (shr_fexp_spec q' e1 loc_Exact Hq') as [Hm2 He2].
  destruct (shr_fexp prec emax q' e1 loc_Exact) as [mrs2 e2]. cbn [fst snd] in Hm2, He2.
  set (n2 := Z.max (fexp prec emax (Zdigits2 q' + e1) - e1) 0) in *.
  assert (Hn2 : 0 <= n2) by (unfold n2; lia).
  assert (Hpn2 : 0 < 2 ^ n2) by (apply Z.pow_pos_nonneg; lia).
  destruct (shr_m mrs2) as [|m2|m2] eqn:Em2.
  - exact I.
  - assert (D3 : Zdigits2 (Zpos m2) <= Z.max (Zdigits2 q' - n2) 0).
    { rewrite Hm2. now apply Zdigits2_div_pow_le. }
    cbn [Zdigits2] in D3.
    assert (He2' : e2 <= emax - prec).
    { pose proof (fexp_eq (Zdigits2 M + E)). pose proof (fexp_eq (Zdigits2 q' + e1)).
      unfold n, n2 in *. unfold emax, prec. lia. }
    apply Z.leb_le in He2'. rewrite He2'. cbn [SFbelow]. lia.
  - assert (0 <= q' / 2 ^ n2) by (apply Z.div_pos; lia). lia.
Qed.

Lemma binary_round_aux_above s M E l c :
  0 < M -> E <= fexp prec emax (Zdigits2 M + E) -> c <= Zdigits2 M + E -> -1073 <= c ->
  SFabove c (binary_round_aux prec emax s M E l).
Proof.
  intros HM HE Hc Hlo. unfold binary_round_aux.
  destruct (shr_fexp_spec M E l ltac:(lia)) as [Hm1 He1].
  destruct (shr_fexp prec emax M E l) as [mrs1 e1]. cbn [fst snd] in Hm1, He1.
  rewrite fexp_eq in HE, Hm1, He1.
  set (d := Zdigits2 M) in *.
  rewrite Z.max_l in Hm1, He1 by lia.
  set (n := Z.max (d + E - 53) (-1074) - E) in *.
  assert (Hn : 0 <= n) by (unfold n; lia).
  assert (Hnd : n < d) by (unfold n; lia).
  set (q' := round_nearest_even (shr_m mrs1) (loc_of_shr_record mrs1)).
  assert (D1 : d - n <= Zdigits2 (shr_m mrs1)).
  { rewrite Hm1. now apply Zdigits2_div_pow_ge. }
  assert (Hm1' : 0 <= shr_m mrs1).
  { rewrite Hm1. apply Z.div_pos; [lia | apply Z.pow_pos_nonneg; lia]. }
  assert (Hq' : shr_m mrs1 <= q').
  { unfold q'. destruct (round_nearest_even_cases (shr_m mrs1) (loc_of_shr_record mrs1)) as [->| ->]; lia. }
  assert (D2 : d - n <= Zdigits2 q').
  { pose proof (Zdigits2_mono (shr_m mrs1) q' ltac:(lia)). lia. }
  assert (Hq0 : 0 < q').
  { destruct (Z.eq_dec q' 0) as [E0|]; [|lia]. rewrite E0 in D2. simpl in D2. lia. }
  destruct (shr_fexp_spec q' e1 loc_Exact ltac:(lia)) as [Hm2 He2].
  destruct (shr_fexp prec emax q' e1 loc_Exact) as [mrs2 e2]. cbn [fst snd] in Hm2, He2.
  rewrite fexp_eq in Hm2, He2.
  set (n2 := Z.max (Z.max (Zdigits2 q' + e1 - 53) (-1074) - e1) 0) in *.
  assert (Hn2 : 0 <= n2) by (unfold n2; lia).
  assert (Hn2d : n2 < Zdigits2 q') by (unfold n2; lia).
  assert (D3 : Zdigits2 q' - n2 <= Zdigits2 (shr_m mrs2)).
  { rewrite Hm2. now apply Zdigits2_div_pow_ge. }
  destruct (shr_m mrs2) as [|m2|m2] eqn:Em2.
  - simpl in D3. lia.
  - cbn [Zdigits2] in D3. destruct (e2 <=? emax - prec); cbn [SFabove]; [lia | exact I].
  - assert (0 <= q' / 2 ^ n2) by (apply Z.div_pos; [lia | apply Z.pow_pos_nonneg; lia]). lia.
Qed.

Lemma Zdigits2_mul_pow m s :
  0 < m -> 0 <= s -> Zdigits2 (m * 2 ^ s) = Zdigits2 m + s.
Proof.
  intros Hm Hs.
  pose proof (Zdigits2_bounds m Hm) as Hb. pose proof (Zdigits2_nonneg m) as Hn.
  assert (Hp : 0 < 2 ^ s) by (apply Z.pow_pos_nonneg; lia).
  assert (D1 : 1 <= Zdigits2 m).
  { apply Zdigits2_ge_iff; [assumption | lia | simpl; lia]. }
  apply Z.le_antisymm.
  - apply Zdigits2_le_iff; [nia | lia |]. rewrite Z.pow_add_r by lia. nia.
  - apply Zdigits2_ge_iff; [nia | lia |].
    replace (Zdigits2 m + s - 1) with ((Zdigits2 m - 1) + s) by lia.
    rewrite Z.pow_add_r by lia. nia.
Qed.

(** A valid finite number: at most 53 digits, exactly 53 above the
    smallest exponent. *)
Lemma valid_digits s m e :
  valid_binary (S754_finite s m e) = true ->
  Zpos (digits2_pos m) <= 53 /\ -1074 <= e <= 971
  /\ (e = -1074 \/ Zpos (digits2_pos m) = 53).
Proof.
  unfold SpecFloat.valid_binary, bounded, canonical_mantissa.
  rewrite fexp_eq. intros H. apply andb_prop in H as [H1 H2].
  apply Z.eqb_eq in H1. apply Z.leb_le in H2. unfold emax, prec in H2. lia.
Qed.

Lemma shl_align_spec m e e' :
  Zdigits2 (Zpos (fst (shl_align m e e'))) + snd (shl_align m e e') = Zpos (digits2_pos m) + e
  /\ snd (shl_align m e e') = Z.min e e'.
Proof.
  unfold shl_align. destruct (e' - e) as [|d|d] eqn:E; cbn [fst snd Zdigits2].
  - lia.
  - lia.
  - pose proof (Zdigits2_mul_pow (Zpos m) (Zpos d) ltac:(lia) ltac:(lia)) as H.
    cbn [Zdigits2] in H.
    assert (Hpos : exists p, Zpos m * 2 ^ Zpos d = Zpos p).
    { assert (0 < Zpos m * 2 ^ Zpos d) by (apply Z.mul_pos_pos; [lia | apply Z.pow_pos_nonneg; lia]).
      destruct (Zpos m * 2 ^ Zpos d) as [|p|p]; try lia. now exists p. }
    destruct Hpos as [p Hp]. rewrite Hp in H. cbn [Zdigits2] in H.
    assert (Hd : Zpos (digits2_pos (Pos.iter xO m d)) = Zpos (digits2_pos p)).
    { f_equal. f_equal. pose proof (iter_xO_pow m d) as Hx. rewrite Hp in Hx. now injection Hx. }
    rewrite Hd. lia.
Qed.

Lemma binary_round_below s m e k :
  Zpos (digits2_pos m) + e <= k -> -1074 <= k -> k <= 1023 ->
  SFbelow (k + 1) (binary_round prec emax s m e).
Proof.
  intros Hk Hlo Hhi. unfold binary_round.
  destruct (shl_align_spec m e (fexp prec emax (Zpos (digits2_pos m) + e))) as [Hd He].
  destruct (shl_align m e _) as [mz ez]. cbn [fst snd] in Hd, He.
  rewrite fexp_eq in He.
  apply binary_round_aux_below; try lia.
Qed.

Lemma binary_round_above s m e c :
  c <= Zpos (digits2_pos m) + e -> -1073 <= c ->
  SFabove c (binary_round prec emax s m e).
Proof.
  intros Hc Hlo. unfold binary_round.
  destruct (shl_align_spec m e (fexp prec emax (Zpos (digits2_pos m) + e))) as [Hd He].
  destruct (shl_align m e _) as [mz ez]. cbn [fst snd] in Hd, He.
  apply binary_round_aux_above; try lia.
  rewrite Hd. lia.
Qed.

Lemma binary_normalize_below m e k :
  Zdigits2 m + e <= k -> -1074 <= k -> k <= 1023 ->
  SFbelow (k + 1) (binary_normalize prec emax m e false).
Proof.
  intros Hk Hlo Hhi. destruct m as [|p|p]; cbn [binary_normalize].
  - exact I.
  - now apply binary_round_below.
  - now apply binary_round_below.
Qed.

(** Magnitudes of the aligned sum or difference of two mantissas. *)
Lemma aligned_sum_digits mx ex my ey (S : Z) a b :
  let ez := Z.min ex ey in
  Z.abs S <= Zpos mx * 2 ^ (ex - ez) + Zpos my * 2 ^ (ey - ez) ->
  Zpos (digits2_pos mx) + ex <= a -> Zpos (digits2_pos my) + ey <= b ->
  Zdigits2 S + ez <= Z.max a b + 1.
Proof.
  intros ez HS Ha Hb.
  pose proof (digits2_pos_bounds mx) as Bx. pose proof (digits2_pos_bounds my) as By.
  set (dx := Zpos (digits2_pos mx)) in *. set (dy := Zpos (digits2_pos my)) in *.
  assert (Hdx : 1 <= dx) by (unfold dx; lia). assert (Hdy : 1 <= dy) by (unfold dy; lia).
  assert (Hez1 : ez <= ex) by (unfold ez; lia). assert (Hez2 : ez <= ey) by (unfold ez; lia).
  assert (HD : Zdigits2 S = Zdigits2 (Z.abs S)) by (destruct S; reflexivity).
  rewrite HD.
  assert (Zdigits2 (Z.abs S) <= Z.max a b + 1 - ez); [|lia].
  apply Zdigits2_le_iff; [lia | lia |].
  assert (X : Zpos mx * 2 ^ (ex - ez) < 2 ^ (Z.max a b - ez)).
  { apply Z.lt_le_trans with (2 ^ dx * 2 ^ (ex - ez)).
    - apply Z.mul_lt_mono_pos_r; [apply Z.pow_pos_nonneg; lia | apply Bx].
    - rewrite <- Z.pow_add_r by lia. apply Z.pow_le_mono_r; lia. }
  assert (Y : Zpos my * 2 ^ (ey - ez) < 2 ^ (Z.max a b - ez)).
  { apply Z.lt_le_trans with (2 ^ dy * 2 ^ (ey - ez)).
    - apply Z.mul_lt_mono_pos_r; [apply Z.pow_pos_nonneg; lia | apply By].
    - rewrite <- Z.pow_add_r by lia. apply Z.pow_le_mono_r; lia. }
  replace (Z.max a b + 1 - ez) with (1 + (Z.max a b - ez)) by lia.
  rewrite Z.pow_add_r by lia. change (2 ^ 1) with 2. lia.
Qed.

Lemma SFadd_below a b x y :
  valid_binary x = true -> valid_binary y = true ->
  SFbelow a x -> SFbelow b y -> -1075 <= Z.max a b -> Z.max a b <= 1022 ->
  SFbelow (Z.max a b + 2) (SF64add x y).
Proof.
  intros Vx Vy Hx Hy Hlo Hhi.
  destruct x as [sx|sx| |sx mx ex], y as [sy|sy| |sy my ey]; cbn [SFbelow] in *;
    try contradiction; unfold SF64add; cbn [SFadd SFbelow]; try lia.
  - now destruct sx, sy.
  - replace (Z.max a b + 2) with (Z.max a b + 1 + 1) by lia.
    apply valid_digits in Vx as (Dx & Ex & _). apply valid_digits in Vy as (Dy & Ey & _).
    apply binary_normalize_below; try lia.
    apply (aligned_sum_digits mx ex my ey); try assumption.
    rewrite !shl_align_fst by lia.
    assert (Px : 0 < Zpos mx * 2 ^ (ex - Z.min ex ey))
      by (apply Z.mul_pos_pos; [lia | apply Z.pow_pos_nonneg; lia]).
    assert (Py : 0 < Zpos my * 2 ^ (ey - Z.min ex ey))
      by (apply Z.mul_pos_pos; [lia | apply Z.pow_pos_nonneg; lia]).
    set (X := Zpos mx * 2 ^ (ex - Z.min ex ey)) in *.
    set (Y := Zpos my * 2 ^ (ey - Z.min ex ey)) in *.
    destruct sx, sy; cbn [cond_Zopp]; lia.
Qed.

Lemma SFsub_below a b x y :
  valid_binary x = true -> valid_binary y = true ->
  SFbelow a x -> SFbelow b y -> -1075 <= Z.max a b -> Z.max a b <= 1022 ->
  SFbelow (Z.max a b + 2) (SF64sub x y).
Proof.
  intros Vx Vy Hx Hy Hlo Hhi.
  destruct x as [sx|sx| |sx mx ex], y as [sy|sy| |sy my ey]; cbn [SFbelow] in *;
    try contradiction; unfold SF64sub; cbn [SFsub SFbelow]; try lia.
  - now destruct sx, sy.
  - replace (Z.max a b + 2) with (Z.max a b + 1 + 1) by lia.
    apply valid_digits in Vx as (Dx & Ex & _). apply valid_digits in Vy as (Dy & Ey & _).
    apply binary_normalize_below; try lia.
    apply (aligned_sum_digits mx ex my ey); try assumption.
    rewrite !shl_align_fst by lia.
    assert (Px : 0 < Zpos mx * 2 ^ (ex - Z.min ex ey))
      by (apply Z.mul_pos_pos; [lia | apply Z.pow_pos_nonneg; lia]).
    assert (Py : 0 < Zpos my * 2 ^ (ey - Z.min ex ey))
      by (apply Z.mul_pos_pos; [lia | apply Z.pow_pos_nonneg; lia]).
    set (X := Zpos mx * 2 ^ (ex - Z.min ex ey)) in *.
    set (Y := Zpos my * 2 ^ (ey - Z.min ex ey)) in *.
    destruct sx, sy; cbn [cond_Zopp]; lia.
Qed.

Lemma SFmul_below a b x y :
  valid_binary x = true -> valid_binary y = true ->
  SFbelow a x -> SFbelow b y -> -1074 <= a + b -> a + b <= 1023 ->
  SFbelow (a + b + 1) (SF64mul x y).
Proof.
  intros Vx Vy Hx Hy Hlo Hhi.
  destruct x as [sx|sx| |sx mx ex], y as [sy|sy| |sy my ey]; cbn [SFbelow] in *;
    try contradiction; unfold SF64mul; cbn [SFmul SFbelow]; try exact I.
  apply valid_digits in Vx as (Dx & Ex & Cx). apply valid_digits in Vy as (Dy & Ey & Cy).
  pose proof (Zdigits2_mul (Zpos mx) (Zpos my) ltac:(lia) ltac:(lia)) as Hd.
  change (Zpos mx * Zpos my) with (Zpos (mx * my)) in Hd. cbn [Zdigits2] in Hd.
  apply binary_round_aux_below; cbn [Zdigits2]; lia.
Qed.

Lemma SFmul_above a b x y :
  valid_binary x = true -> valid_binary y = true ->
  SFabove a x -> SFabove b y -> -1072 <= a + b ->
  SFabove (a + b - 1) (SF64mul x y).
Proof.
  intros Vx Vy Hx Hy Hlo.
  destruct x as [sx|sx| |sx mx ex], y as [sy|sy| |sy my ey]; cbn [SFabove] in *;
    try contradiction; unfold SF64mul; cbn [SFmul SFabove]; try exact I.
  apply valid_digits in Vx as (Dx & Ex & Cx). apply valid_digits in Vy as (Dy & Ey & Cy).
  pose proof (Zdigits2_mul (Zpos mx) (Zpos my) ltac:(lia) ltac:(lia)) as Hd.
  change (Zpos mx * Zpos my) with (Zpos (mx * my)) in Hd. cbn [Zdigits2] in Hd.
  assert (1 <= Zpos (digits2_pos mx)) by lia. assert (1 <= Zpos (digits2_pos my)) by lia.
  apply binary_round_aux_above; cbn [Zdigits2]; try lia.
  rewrite fexp_eq. lia.
Qed.

Lemma SFadd_above c x y my ey :
  valid_binary x = true -> valid_binary y = true ->
  SFleb (S754_zero false) x = true ->
  y = S754_finite false my ey ->
  c <= Zpos (digits2_pos my) + ey -> -1073 <= c ->
  SFabove c (SF64add x y).
Proof.
  intros Vx Vy Hx -> Hc Hlo.
  destruct x as [sx|sx| |sx mx ex]; try discriminate.
  - exact Hc.
  - destruct sx; [discriminate|]. exact I.
  - destruct sx; [discriminate|].
    unfold SF64add, SFadd.
    apply valid_digits in Vx as (Dx & Ex & _). apply valid_digits in Vy as (Dy & Ey & _).
    rewrite !shl_align_fst by lia. cbn [cond_Zopp].
    assert (Px : 0 < Zpos mx * 2 ^ (ex - Z.min ex ey))
      by (apply Z.mul_pos_pos; [lia | apply Z.pow_pos_nonneg; lia]).
    assert (Py : 0 < Zpos my * 2 ^ (ey - Z.min ex ey))
      by (apply Z.mul_pos_pos; [lia | apply Z.pow_pos_nonneg; lia]).
    pose proof (Zdigits2_mul_pow (Zpos my) (ey - Z.min ex ey) ltac:(lia) ltac:(lia)) as DY.
    cbn [Zdigits2] in DY.
    set (X := Zpos mx * 2 ^ (ex - Z.min ex ey)) in *.
    set (Y := Zpos my * 2 ^ (ey - Z.min ex ey)) in *.
    pose proof (Zdigits2_mono Y (X + Y) ltac:(lia)) as DS.
    destruct (X + Y) as [|p|p] eqn:ES; try lia.
    cbn [binary_normalize]. cbn [Zdigits2] in DS.
    apply binary_round_above; lia.
Qed.

(** The shifted dividend of [SFdiv_core_binary]. *)
Lemma div_shift m s :
  0 <= s ->
  match s with Zpos _ => Z.shiftl (Zpos m) s | Z0 => Zpos m | Zneg _ => 0 end
  = Zpos m * 2 ^ s.
Proof.
  intros Hs. destruct s as [|p|p]; try lia.
  apply Z.shiftl_mul_pow2. lia.
Qed.

Lemma SFdiv_below a c x y :
  valid_binary x = true -> valid_binary y = true ->
  SFbelow a x -> SFabove c y -> -1075 <= a - c -> a - c <= 1022 ->
  SFbelow (a - c + 2) (SF64div x y).
Proof.
  intros Vx Vy Hx Hy Hlo Hhi.
  destruct x as [sx|sx| |sx mx ex], y as [sy|sy| |sy my ey]; cbn [SFbelow SFabove] in *;
    try contradiction; try exact I.
  unfold SF64div, SFdiv, SFdiv_core_binary. cbn [Zdigits2].
  apply valid_digits in Vx as (Dx & Ex & Cx). apply valid_digits in Vy as (Dy & Ey & Cy).
  pose proof (digits2_pos_bounds mx) as Bx. pose proof (digits2_pos_bounds my) as By.
  set (d1 := Zpos (digits2_pos mx)) in *. set (d2 := Zpos (digits2_pos my)) in *.
  rewrite fexp_eq.
  set (e' := Z.min (Z.max (d1 + ex - (d2 + ey) - 53) (-1074)) (ex - ey)).
  set (s := ex - ey - e').
  assert (Hs : 0 <= s) by (unfold s, e'; lia).
  rewrite (div_shift mx s Hs).
  set (m' := Zpos mx * 2 ^ s).
  assert (Hps : 0 < 2 ^ s) by (apply Z.pow_pos_nonneg; lia).
  assert (Hm' : 0 < m') by (unfold m'; lia).
  assert (Hm'u : m' < 2 ^ (d1 + s)).
  { unfold m'. rewrite Z.pow_add_r by (unfold d1; lia). nia. }
  pose proof (Z.div_pos m' (Zpos my) ltac:(lia) ltac:(lia)) as Hq0.
  pose proof (Z.mul_div_le m' (Zpos my) ltac:(lia)) as Hqle.
  assert (Dq : Zdigits2 (m' / Zpos my) <= Z.max (d1 + s - d2 + 1) 0).
  { destruct (Z_lt_le_dec (d1 + s - d2 + 1) 0) as [Hneg|Hpos].
    - rewrite Z.div_small; [simpl; lia|]. split; [lia|].
      apply Z.lt_le_trans with (2 ^ (d1 + s)); [assumption|].
      apply Z.le_trans with (2 ^ (d2 - 1)); [|apply By].
      apply Z.pow_le_mono_r; lia.
    - rewrite Z.max_l by lia. apply Zdigits2_le_iff; [lia | lia |].
      assert (Hp2 : 0 < 2 ^ (d2 - 1)) by (apply Z.pow_pos_nonneg; unfold d2; lia).
      assert (Hsplit : 2 ^ (d1 + s) = 2 ^ (d1 + s - d2 + 1) * 2 ^ (d2 - 1)).
      { rewrite <- Z.pow_add_r by (unfold d2; lia). f_equal. lia. }
      apply (Z.mul_lt_mono_pos_r (2 ^ (d2 - 1))); [assumption|]. nia. }
  unfold Z.div in Dq, Hq0.
  destruct (Z.div_eucl m' (Zpos my)) as [q r]. cbn [fst] in Dq, Hq0.
  replace (a - c + 2) with (a - c + 1 + 1) by lia.
  apply binary_round_aux_below; unfold s, e' in *; lia.
Qed.

Lemma SFdiv_above a b c x y :
  valid_binary x = true -> valid_binary y = true ->
  SFabove a x -> SFbelow b y -> SFabove c y -> -1021 <= a - b ->
  SFabove (a - b) (SF64div x y).
Proof.
  intros Vx Vy Hx Hy Hy' Hlo.
  destruct x as [sx|sx| |sx mx ex], y as [sy|sy| |sy my ey]; cbn [SFbelow SFabove] in *;
    try contradiction; try exact I.
  unfold SF64div, SFdiv, SFdiv_core_binary. cbn [Zdigits2].
  apply valid_digits in Vx as (Dx & Ex & Cx). apply valid_digits in Vy as (Dy & Ey & Cy).
  pose proof (digits2_pos_bounds mx) as Bx. pose proof (digits2_pos_bounds my) as By.
  set (d1 := Zpos (digits2_pos mx)) in *. set (d2 := Zpos (digits2_pos my)) in *.
  assert (Hd1 : 1 <= d1) by (unfold d1; lia). assert (Hd2 : 1 <= d2) by (unfold d2; lia).
  rewrite fexp_eq.
  set (e' := Z.min (Z.max (d1 + ex - (d2 + ey) - 53) (-1074)) (ex - ey)).
  set (s := ex - ey - e').
  assert (Hs : 0 <= s) by (unfold s, e'; lia).
  assert (Ht : 52 <= d1 - 1 + s - d2) by (unfold s, e'; lia).
  rewrite (div_shift mx s Hs).
  set (m' := Zpos mx * 2 ^ s).
  assert (Hps : 0 < 2 ^ s) by (apply Z.pow_pos_nonneg; lia).
  assert (Hm'l : 2 ^ (d1 - 1 + s) <= m').
  { unfold m'. rewrite Z.pow_add_r by lia. nia. }
  assert (Hq : 2 ^ (d1 - 1 + s - d2) <= m' / Zpos my).
  { apply Z.div_le_lower_bound; [lia|].
    assert (Hsplit : 2 ^ (d1 - 1 + s) = 2 ^ d2 * 2 ^ (d1 - 1 + s - d2)).
    { rewrite <- Z.pow_add_r by lia. f_equal. lia. }
    assert (0 < 2 ^ (d1 - 1 + s - d2)) by (apply Z.pow_pos_nonneg; lia).
    nia. }
  assert (Hq0 : 0 < m' / Zpos my).
  { assert (0 < 2 ^ (d1 - 1 + s - d2)) by (apply Z.pow_pos_nonneg; lia). lia. }
  assert (Dq : d1 + s - d2 <= Zdigits2 (m' / Zpos my)).
  { apply Zdigits2_ge_iff; [assumption | lia |].
    replace (d1 + s - d2 - 1) with (d1 - 1 + s - d2) by lia. assumption. }
  unfold Z.div in Dq, Hq0.
  destruct (Z.div_eucl m' (Zpos my)) as [q r]. cbn [fst] in Dq, Hq0.
  apply binary_round_aux_above; rewrite ?fexp_eq; unfold s, e' in *; lia.
Qed.

Lemma divide_shift g e e' m :
  e' <= e -> (2 ^ Z.max (g - e) 0 | m) -> (2 ^ Z.max (g - e') 0 | m * 2 ^ (e - e')).
Proof.
  intros He [K HK]. subst m.
  destruct (Z_le_gt_dec g e') as [H1|H1].
  - rewrite (Z.max_r (g - e')) by lia. apply Z.divide_1_l.
  - rewrite (Z.max_l (g - e')) by lia.
    destruct (Z_le_gt_dec g e) as [H2|H2].
    + rewrite (Z.max_r (g - e)) by lia. exists (K * 2 ^ (e - g)).
      replace (e - e') with ((e - g) + (g - e')) by lia.
      rewrite Z.pow_add_r by lia. change (2 ^ 0) with 1. ring.
    + rewrite (Z.max_l (g - e)) by lia. exists K.
      replace (g - e') with ((g - e) + (e - e')) by lia.
      rewrite Z.pow_add_r by lia. ring.
Qed.

Lemma divide_unshift g e n m :
  0 <= n -> e + n < g -> (2 ^ Z.max (g - e) 0 | m) ->
  (2 ^ n | m) /\ (2 ^ Z.max (g - (e + n)) 0 | m / 2 ^ n).
Proof.
  intros Hn Hg H. rewrite Z.max_l in H by lia. rewrite Z.max_l by lia.
  replace (g - e) with (n + (g - (e + n))) in H by lia.
  apply divide_pow_split in H; [assumption | lia | lia].
Qed.

(** Rounding a multiple of [2^g] gives a multiple of [2^g]: either no bit
    is lost, or the result has an exponent of at least [g]. *)
Lemma binary_round_aux_grid s M E g :
  E <= fexp prec emax (Zpos (digits2_pos M) + E) ->
  (2 ^ Z.max (g - E) 0 | Zpos M) ->
  SFgrid g (binary_round_aux prec emax s (Zpos M) E loc_Exact)
  \/ binary_round_aux prec emax s (Zpos M) E loc_Exact = S754_infinity s.
Proof.
  intros HE Hg.
  pose proof (digits2_pos_bounds M) as Bd.
  set (d := Zpos (digits2_pos M)) in *.
  set (e1 := fexp prec emax (d + E)) in *.
  assert (He1 : e1 = Z.max (d + E - 53) (-1074)) by apply fexp_eq.
  (* the rounded mantissa at exponent [e1] *)
  assert (Stage1 : exists q',
    binary_round_aux prec emax s (Zpos M) E loc_Exact
    = (let '(mrs'', e'') := shr_fexp prec emax q' e1 loc_Exact in
       match shr_m mrs'' with
       | 0 => S754_zero s
       | Zpos m => if e'' <=? emax - prec then S754_finite s m e'' else S754_infinity s
       | Zneg _ => S754_nan
       end)
    /\ 0 <= q'
    /\ (e1 < g -> q' * 2 ^ (e1 - E) = Zpos M)).
  { unfold binary_round_aux. unfold shr_fexp at 1. cbn [Zdigits2]. fold d. fold e1.
    unfold shr at 1. destruct (e1 - E) as [|n|n] eqn:En; try lia.
    - cbn [shr_record_of_loc loc_of_shr_record shr_m round_nearest_even].
      exists (Zpos M). replace e1 with E by lia.
      split; [reflexivity|]. split; [lia|].
      intros _. change (2 ^ 0) with 1. lia.
    - cbn [shr_record_of_loc].
      pose proof (round_nearest_even_shr M n) as Hr. cbv zeta in Hr.
      set (mrs1 := iter_pos shr_1 n _) in *.
      set (q' := round_nearest_even (shr_m mrs1) (loc_of_shr_record mrs1)) in *.
      exists q'. replace (E + Zpos n) with e1 by lia.
      assert (Hpn : 0 < 2 ^ Zpos n) by (apply Z.pow_pos_nonneg; lia).
      assert (Hq0 : 0 <= Zpos M / 2 ^ Zpos n) by (apply Z.div_pos; lia).
      split; [reflexivity|]. split; [destruct Hr as [->|[-> _]]; lia|].
      intros Hlt.
      destruct (divide_unshift g E (Zpos n) (Zpos M) ltac:(lia) ltac:(lia) Hg) as [[K HK] _].
      assert (Hex : Zpos M / 2 ^ Zpos n * 2 ^ Zpos n = Zpos M).
      { rewrite HK. rewrite Z.div_mul by lia. reflexivity. }
      destruct Hr as [->|[_ Hs]]; [exact Hex | lia]. }
  destruct Stage1 as (q' & -> & Hq0 & Hex).
  destruct (shr_fexp_spec q' e1 loc_Exact Hq0) as [Hm2 He2].
  destruct (shr_fexp prec emax q' e1 loc_Exact) as [mrs2 e2]. cbn [fst snd] in Hm2, He2.
  pose proof (fexp_eq (Zdigits2 q' + e1)) as Hf2.
  set (n2 := Z.max (fexp prec emax (Zdigits2 q' + e1) - e1) 0) in *.
  assert (Hn2 : 0 <= n2) by (unfold n2; lia).
  destruct (shr_m mrs2) as [|m2|m2] eqn:Em2.
  - left. exact I.
  - destruct (e2 <=? emax - prec); [left | now right].
    cbn [SFgrid].
    destruct (Z_le_gt_dec g e1) as [Hge|Hlt].
    + rewrite Z.max_r by lia. apply Z.divide_1_l.
    + specialize (Hex ltac:(lia)).
      assert (Hn : 0 <= e1 - E) by lia.
      destruct (divide_unshift g E (e1 - E) (Zpos M) Hn ltac:(lia) Hg) as [_ Hd].
      assert (Hpn : 0 < 2 ^ (e1 - E)) by (apply Z.pow_pos_nonneg; lia).
      assert (Hq' : Zpos M / 2 ^ (e1 - E) = q').
      { rewrite <- Hex. apply Z.div_mul. lia. }
      rewrite Hq' in Hd. replace (E + (e1 - E)) with e1 in Hd by lia.
      assert (Dq' : Zdigits2 q' = d - (e1 - E)).
      { assert (Hq'pos : 0 < q') by nia.
        pose proof (Zdigits2_mul_pow q' (e1 - E) Hq'pos Hn) as Hmp.
        rewrite Hex in Hmp. cbn [Zdigits2] in Hmp. fold d in Hmp. lia. }
      assert (Hn20 : n2 = 0) by (unfold n2; lia).
      rewrite Hn20 in Hm2, He2. change (2 ^ 0) with 1 in Hm2. rewrite Z.div_1_r in Hm2.
      rewrite Hm2. replace e2 with e1 by lia. exact Hd.
  - assert (0 <= q' / 2 ^ n2) by (apply Z.div_pos; [lia | apply Z.pow_pos_nonneg; lia]). lia.
Qed.

Lemma binary_round_grid s m e g :
  (2 ^ Z.max (g - e) 0 | Zpos m) ->
  SFgrid g (binary_round prec emax s m e)
  \/ binary_round prec emax s m e = S754_infinity s.
Proof.
  intros Hg. unfold binary_round.
  destruct (shl_align_spec m e (fexp prec emax (Zpos (digits2_pos m) + e))) as [Hd He].
  pose proof (shl_align_fst m e (snd (shl_align m e (fexp prec emax (Zpos (digits2_pos m) + e))))) as Hf.
  destruct (shl_align m e _) as [mz ez] eqn:Es. cbn [fst snd] in Hd, He.
  cbn [Zdigits2] in Hd.
  apply binary_round_aux_grid.
  - rewrite Hd. lia.
  - assert (Hm : Zpos mz = Zpos m * 2 ^ (e - ez)).
    { unfold shl_align in Es. destruct (fexp prec emax (Zpos (digits2_pos m) + e) - e) as [|p|p] eqn:E1;
        injection Es as <- <-.
      - rewrite Z.sub_diag. lia.
      - rewrite Z.sub_diag. lia.
      - rewrite iter_xO_pow. f_equal. f_equal. lia. }
    rewrite Hm. apply divide_shift; [lia | assumption].
Qed.

Lemma binary_normalize_grid S e g :
  (2 ^ Z.max (g - e) 0 | S) ->
  SFgrid g (binary_normalize prec emax S e false)
  \/ exists s, binary_normalize prec emax S e false = S754_infinity s.
Proof.
  intros Hg. destruct S as [|p|p]; cbn [binary_normalize].
  - left. exact I.
  - destruct (binary_round_grid false p e g Hg); eauto.
  - assert (Hg' : (2 ^ Z.max (g - e) 0 | Zpos p)).
    { apply Z.divide_opp_r in Hg. exact Hg. }
    destruct (binary_round_grid true p e g Hg'); eauto.
Qed.

Lemma SFadd_grid g x y :
  valid_binary x = true -> valid_binary y = true ->
  SFgrid g x -> SFgrid g y ->
  SFgrid g (SF64add x y) \/ exists s, SF64add x y = S754_infinity s.
Proof.
  intros Vx Vy Hx Hy.
  destruct x as [sx|sx| |sx mx ex], y as [sy|sy| |sy my ey]; cbn [SFgrid] in *;
    try contradiction; unfold SF64add; cbn [SFadd].
  - left. now destruct sx, sy.
  - left. exact Hy.
  - left. exact Hx.
  - apply valid_digits in Vx as (Dx & Ex & _). apply valid_digits in Vy as (Dy & Ey & _).
    apply binary_normalize_grid.
    rewrite !shl_align_fst by lia.
    apply (divide_shift g ex (Z.min ex ey)) in Hx; [|lia].
    apply (divide_shift g ey (Z.min ex ey)) in Hy; [|lia].
    apply Z.divide_add_r; destruct sx, sy; cbn [cond_Zopp];
      try assumption; now apply Z.divide_opp_r.
Qed.

Lemma SFsub_grid g x y :
  valid_binary x = true -> valid_binary y = true ->
  SFgrid g x -> SFgrid g y ->
  SFgrid g (SF64sub x y) \/ exists s, SF64sub x y = S754_infinity s.
Proof.
  intros Vx Vy Hx Hy.
  destruct x as [sx|sx| |sx mx ex], y as [sy|sy| |sy my ey]; cbn [SFgrid] in *;
    try contradiction; unfold SF64sub; cbn [SFsub].
  - left. now destruct sx, sy.
  - left. exact Hy.
  - left. exact Hx.
  - apply valid_digits in Vx as (Dx & Ex & _). apply valid_digits in Vy as (Dy & Ey & _).
    apply binary_normalize_grid.
    rewrite !shl_align_fst by lia.
    apply (divide_shift g ex (Z.min ex ey)) in Hx; [|lia].
    apply (divide_shift g ey (Z.min ex ey)) in Hy; [|lia].
    apply Z.divide_sub_r; destruct sx, sy; cbn [cond_Zopp];
      try assumption; now apply Z.divide_opp_r.
Qed.

End Magnitude.

Section Bounds.

Local Open Scope Z_scope.

Lemma above_SFabove c x : above c x -> SFabove c (Prim2SF x).
Proof.
  unfold above, is_nonzero_finite, mag. intros [H1 H2].
  destruct (Prim2SF x); try discriminate. exact H2.
Qed.

Lemma above_intro c k x : SFabove c (Prim2SF x) -> below k x -> above c x.
Proof.
  unfold above, below, is_nonzero_finite, mag.
  destruct (Prim2SF x); cbn [SFabove SFbelow]; try contradiction; auto.
Qed.

Lemma below_weaken k k' x : below k x -> k <= k' -> below k' x.
Proof.
  unfold below. destruct (Prim2SF x); cbn [SFbelow]; auto. lia.
Qed.

Lemma below_finite k x : below k x -> is_finite x = true.
Proof.
  unfold below. intros H. destruct (is_finite x) eqn:E; [reflexivity|].
  apply is_finite_false_spec in E. destruct E as [E|[s E]]; rewrite E in H; contradiction.
Qed.

Lemma below_const x : is_finite x = true -> below (mag x) x.
Proof.
  intros H. apply is_finite_true_spec in H as [Hn Hi].
  unfold below, mag. destruct (Prim2SF x) as [s|s| |s m e]; cbn [SFbelow].
  - exact I.
  - now elim (Hi s).
  - congruence.
  - lia.
Qed.

Lemma above_const x : is_nonzero_finite x = true -> above (mag x) x.
Proof. intros H. split; [assumption | lia]. Qed.

Lemma add_below a b x y :
  below a x -> below b y -> -1075 <= Z.max a b -> Z.max a b <= 1022 ->
  below (Z.max a b + 2) (x + y)%float.
Proof.
  unfold below. rewrite add_spec. apply SFadd_below; apply Prim2SF_valid.
Qed.

Lemma sub_below a b x y :
  below a x -> below b y -> -1075 <= Z.max a b -> Z.max a b <= 1022 ->
  below (Z.max a b + 2) (x - y)%float.
Proof.
  unfold below. rewrite sub_spec. apply SFsub_below; apply Prim2SF_valid.
Qed.

Lemma mul_below a b x y :
  below a x -> below b y -> -1074 <= a + b -> a + b <= 1023 ->
  below (a + b + 1) (x * y)%float.
Proof.
  unfold below. rewrite mul_spec. apply SFmul_below; apply Prim2SF_valid.
Qed.

Lemma div_below a c x y :
  below a x -> above c y -> -1075 <= a - c -> a - c <= 1022 ->
  below (a - c + 2) (x / y)%float.
Proof.
  intros Hx Hy. apply above_SFabove in Hy. revert Hx Hy.
  unfold below. rewrite div_spec. apply SFdiv_below; apply Prim2SF_valid.
Qed.

Lemma mul_above a b k x y :
  above a x -> above b y -> below k (x * y)%float -> -1072 <= a + b ->
  above (a + b - 1) (x * y)%float.
Proof.
  intros Hx Hy Hk Hlo. apply (above_intro _ k); [|assumption].
  rewrite mul_spec.
  apply SFmul_above; try apply Prim2SF_valid; try assumption; now apply above_SFabove.
Qed.

Lemma div_above a b c k x y :
  above a x -> below b y -> above c y -> below k (x / y)%float -> -1021 <= a - b ->
  above (a - b) (x / y)%float.
Proof.
  intros Hx Hy Hy' Hk Hlo. apply (above_intro _ k); [|assumption].
  rewrite div_spec.
  apply (SFdiv_above a b c); try apply Prim2SF_valid; try assumption;
    now apply above_SFabove.
Qed.

(** Adding a positive number to a number that is not negative. *)
Lemma add_above k x y :
  (0 <=? x)%float = true -> (0 <? y)%float = true -> is_nonzero_finite y = true ->
  below k (x + y)%float -> -1073 <= mag y ->
  above (mag y) (x + y)%float.
Proof.
  intros Hx Hs Hy Hk Hlo. apply (above_intro _ k); [|assumption].
  rewrite add_spec. rewrite leb_spec in Hx. rewrite ltb_spec in Hs.
  change (Prim2SF 0) with (S754_zero false) in Hx, Hs.
  unfold is_nonzero_finite in Hy. unfold mag in *.
  pose proof (Prim2SF_valid y) as Vy.
  destruct (Prim2SF y) as [s|s| |s m e] eqn:Ey; try discriminate.
  destruct s; [discriminate|].
  apply (SFadd_above _ _ _ m e); try apply Prim2SF_valid; try assumption; try reflexivity; lia.
Qed.

Lemma below_abs k x : below k x -> below k (abs x).
Proof. unfold below. rewrite abs_spec. now destruct (Prim2SF x). Qed.

Lemma above_abs c x : above c (abs x) -> above c x.
Proof.
  unfold above, is_nonzero_finite, mag. rewrite abs_spec. now destruct (Prim2SF x).
Qed.

(** A number of [[0, u]] has at most the magnitude of [u]. *)
Lemma leb_below x u :
  (0 <=? x)%float = true -> (x <=? u)%float = true -> is_nonzero_finite u = true ->
  below (mag u) x.
Proof.
  intros H0 Hu Fu. rewrite leb_spec in H0, Hu.
  change (Prim2SF 0%float) with (S754_zero false) in H0.
  unfold is_nonzero_finite in Fu. unfold below, mag, SFleb in *.
  pose proof (Prim2SF_valid x) as Vx. pose proof (Prim2SF_valid u) as Vu.
  destruct (Prim2SF u) as [su|su| |su mu eu]; try discriminate.
  destruct (Prim2SF x) as [s|s| |s m e]; try discriminate; cbn [SFbelow].
  - exact I.
  - destruct s; [discriminate|]. now destruct su.
  - destruct s; [discriminate|]. destruct su; [discriminate|].
    apply valid_digits in Vx as (Dx & Ex & Cx). apply valid_digits in Vu as (Du & Eu & Cu).
    cbn [SFcompare] in Hu.
    destruct (Z.compare_spec e eu) as [E|E|E]; try discriminate.
    + subst eu. fold (Pos.compare m mu) in Hu.
      assert (Hm : (m <= mu)%positive).
      { unfold Pos.le. destruct (m ?= mu)%positive; discriminate. }
      pose proof (Zdigits2_mono (Zpos m) (Zpos mu) ltac:(lia)) as Hd.
      cbn [Zdigits2] in Hd. lia.
    + lia.
Qed.

(** A finite number that is at least the positive number [l] has at
    least the magnitude of [l]. *)
Lemma geb_above l x k :
  (l <=? x)%float = true -> (0 <? l)%float = true -> is_nonzero_finite l = true ->
  below k x -> above (mag l) x.
Proof.
  intros Hl Hp Fl Hk. rewrite leb_spec in Hl. rewrite ltb_spec in Hp.
  change (Prim2SF 0%float) with (S754_zero false) in Hp.
  unfold is_nonzero_finite in Fl. unfold above, below, is_nonzero_finite, mag, SFleb, SFltb in *.
  pose proof (Prim2SF_valid x) as Vx. pose proof (Prim2SF_valid l) as Vl.
  destruct (Prim2SF l) as [sl|sl| |sl ml el]; try discriminate.
  destruct sl; [discriminate|].
  destruct (Prim2SF x) as [s|s| |s m e]; cbn [SFbelow] in Hk; try contradiction;
    try discriminate.
  destruct s; [discriminate|]. split; [reflexivity|].
  apply valid_digits in Vx as (Dx & Ex & Cx). apply valid_digits in Vl as (Dl & El & Cl).
  cbn [SFcompare] in Hl.
  destruct (Z.compare_spec el e) as [E|E|E]; try discriminate.
  - subst e. fold (Pos.compare ml m) in Hl.
    assert (Hm : (ml <= m)%positive).
    { unfold Pos.le. destruct (ml ?= m)%positive; discriminate. }
    pose proof (Zdigits2_mono (Zpos ml) (Zpos m) ltac:(lia)) as Hd.
    cbn [Zdigits2] in Hd. lia.
  - lia.
Qed.

(** Zeros and statistics of ordinary size. *)
Lemma zero_below k x : (x =? 0)%float = true -> below k x.
Proof.
  intros H. apply is_zero_spec in H as [s H]. unfold below. now rewrite H.
Qed.

Lemma zero_nonneg x : (x =? 0)%float = true -> (0 <=? x)%float = true.
Proof.
  intros H. apply is_zero_spec in H as [s H]. rewrite leb_spec, H.
  change (Prim2SF 0%float) with (S754_zero false). reflexivity.
Qed.

Lemma in_scale_nonneg x : in_scale x = true -> (0 <=? x)%float = true.
Proof.
  unfold in_scale. intros H. apply orb_prop in H as [H|H].
  - now apply zero_nonneg.
  - apply andb_prop in H as [H _]. apply (leb_trans _ 1e-6%float); [reflexivity | assumption].
Qed.

Lemma in_scale_below x : in_scale x = true -> below 20 x.
Proof.
  intros H. pose proof (in_scale_nonneg x H) as H0.
  unfold in_scale in H. apply orb_prop in H as [H|H].
  - now apply zero_below.
  - apply andb_prop in H as [_ H]. now apply (leb_below x 1e6%float).
Qed.

Lemma in_scale_above x :
  in_scale x = true -> (x =? 0)%float = false -> above (-19) x.
Proof.
  intros H Hz. pose proof (in_scale_below x H) as Hb.
  unfold in_scale in H. rewrite Hz in H. cbn [orb] in H.
  apply andb_prop in H as [H _].
  now apply (geb_above 1e-6%float x 20).
Qed.

(** Multiples of a power of two. *)
Lemma grid_weaken g g' x : grid g x -> g' <= g -> grid g' x.
Proof.
  unfold grid. destruct (Prim2SF x) as [s|s| |s m e]; cbn [SFgrid]; auto.
  intros [K HK] Hg.
  destruct (Z_le_gt_dec g' e) as [H|H].
  - rewrite (Z.max_r (g' - e)) by lia. apply Z.divide_1_l.
  - rewrite (Z.max_l (g' - e)) by lia. rewrite (Z.max_l (g - e)) in HK by lia.
    exists (K * 2 ^ (g - g')). rewrite HK.
    replace (g - e) with ((g - g') + (g' - e)) by lia.
    rewrite Z.pow_add_r by lia. ring.
Qed.

Lemma zero_grid g x : (x =? 0)%float = true -> grid g x.
Proof.
  intros H. apply is_zero_spec in H as [s H]. unfold grid. now rewrite H.
Qed.

Lemma above_grid c x : above c x -> grid (c - 53) x.
Proof.
  unfold above, grid, is_nonzero_finite, mag. intros [Hf Hc].
  pose proof (Prim2SF_valid x) as V.
  destruct (Prim2SF x) as [s|s| |s m e]; try discriminate.
  apply valid_digits in V as (D & E & C). cbn [SFgrid].
  rewrite Z.max_r by lia. apply Z.divide_1_l.
Qed.

Lemma in_scale_grid x : in_scale x = true -> grid (-72) x.
Proof.
  intros H. destruct (x =? 0)%float eqn:Hz.
  - now apply zero_grid.
  - apply (above_grid (-19)). now apply in_scale_above.
Qed.

Lemma add_grid g k x y :
  grid g x -> grid g y -> below k (x + y)%float -> grid g (x + y)%float.
Proof.
  unfold grid, below. rewrite add_spec. intros Hx Hy Hk.
  destruct (SFadd_grid g _ _ (Prim2SF_valid x) (Prim2SF_valid y) Hx Hy) as [H|[s H]];
    [assumption|]. rewrite H in Hk. contradiction.
Qed.

Lemma sub_grid g k x y :
  grid g x -> grid g y -> below k (x - y)%float -> grid g (x - y)%float.
Proof.
  unfold grid, below. rewrite sub_spec. intros Hx Hy Hk.
  destruct (SFsub_grid g _ _ (Prim2SF_valid x) (Prim2SF_valid y) Hx Hy) as [H|[s H]];
    [assumption|]. rewrite H in Hk. contradiction.
Qed.

(** A constant times a statistic of ordinary size. *)
Lemma scaled_grid a x k :
  is_nonzero_finite a = true -> in_scale x = true -> below k (a * x)%float ->
  -1053 <= mag a ->
  grid (mag a - 73) (a * x)%float.
Proof.
  intros Ha Hx Hk Hlo. destruct (x =? 0)%float eqn:Hz.
  - apply is_zero_spec in Hz as [s Hz]. unfold grid. rewrite mul_spec, Hz.
    unfold is_nonzero_finite in Ha. now destruct (Prim2SF a).
  - replace (mag a - 73) with (mag a + -19 - 1 - 53) by lia.
    apply above_grid. apply (mul_above _ _ k); try assumption; try lia.
    + now apply above_const.
    + now apply in_scale_above.
Qed.

(** A non-zero multiple of [2^g] is at least [2^g]. *)
Lemma grid_above g k x :
  grid g x -> (x =? 0)%float = false -> below k x -> above (g + 1) x.
Proof.
  unfold grid, below, above, is_nonzero_finite, mag. intros Hg Hz Hk.
  destruct (Prim2SF x) as [s|s| |s m e] eqn:E; cbn [SFbelow SFgrid] in *;
    try contradiction.
  - assert (Hz' : (x =? 0)%float = true) by (apply is_zero_spec; eauto). congruence.
  - split; [reflexivity|].
    destruct (Z_le_gt_dec g e) as [H|H]; [lia|].
    rewrite Z.max_l in Hg by lia.
    apply Z.divide_pos_le in Hg; [|lia].
    assert (g - e + 1 <= Zdigits2 (Zpos m)).
    { apply Zdigits2_ge_iff; [lia | lia |].
      replace (g - e + 1 - 1) with (g - e) by lia. assumption. }
    cbn [Zdigits2] in *. lia.
Qed.

End Bounds.

(** Bounds of a compound expression, from the bounds of its parts. *)
Ltac side := vm_compute; first [discriminate | reflexivity | exact I].

Ltac bound :=
  first
    [ eassumption
    | lazymatch goal with
      | |- below _ (_ + _) => eapply add_below; [bound | bound | side | side]
      | |- below _ (_ - _) => eapply sub_below; [bound | bound | side | side]
      | |- below _ (_ * _) => eapply mul_below; [bound | bound | side | side]
      | |- below _ (_ / _) => eapply div_below; [bound | bound | side | side]
      | |- below _ _ => apply below_const; reflexivity
      | |- above _ (_ + _) =>
          eapply add_above; [eassumption | reflexivity | reflexivity | bound | side]
      | |- above _ (_ * _) => eapply mul_above; [bound | bound | bound | side]
      | |- above _ (_ / _) => eapply div_above; [bound | bound | bound | bound | side]
      | |- above _ _ => apply above_const; reflexivity
      end ].

(* ================================================================== *)
(** * The PER calculator *)

Section PERCalculator.

Lemma calculatePER_clamp p :
  (MIN p =? 0) = false -> calculatePER p = clamp (per_uPER p * 15).
Proof. unfold calculatePER, JS.strict_eq. now intros ->. Qed.

Lemma positive_not_zero x : (0 <? x) = true -> (x =? 0) = false.
Proof. intros H. rewrite eqb_sym. now apply ltb_not_eqb. Qed.

(** The sum inside [uPER] is [NaN] as soon as its always-zero term or its
    personal-foul term is. *)
Lemma per_uPER_nan p :
  per_VOP p * (1 - DRB_PCT) * (REB p - REB p) = nan \/
  PF p * ((FTM p / PF p) - 0.44 * (FTA p / PF p) * per_VOP p) = nan ->
  per_uPER p * 15 = nan.
Proof.
  unfold per_uPER. cbv zeta. intros [H|H]; rewrite H;
    now rewrite ?add_nan_r, ?add_nan_l, ?sub_nan_l, ?sub_nan_r, ?mul_nan_r, ?mul_nan_l.
Qed.

End PERCalculator.

(** C1: [calculatePER] computes exactly the reference algorithm of section
    4.1 of the specification on every statistics record: the immediate [0]
    when [MIN == 0], otherwise the factor, the unguarded [VOP], the weighted
    sum as written and the clamp of [uPER * 15] to [0, 40], operation for
    operation in binary64 arithmetic. *)
Theorem C1_calculatePER_reference :
  forall p : NBAPlayerStats,
    calculatePER p =
    Reference.PERCalculator (MIN p) (FGM p) (FGA p) (FTM p) (FTA p) (FG3M p)
      (AST p) (REB p) (TOV p) (STL p) (BLK p) (PF p) (PTS p)
    /\ per_factor p = Reference.factor (FGM p) (FTM p) (AST p)
    /\ per_VOP p = Reference.VOP (FGA p) (FTA p) (REB p) (TOV p) (PTS p)
    /\ ((MIN p =? 0) = true -> calculatePER p = 0)
    /\ ((MIN p =? 0) = false ->
        calculatePER p = JS.Math_max 0 (JS.Math_min 40 (per_uPER p * 15))).
Proof.
  intros p. repeat split.
  - unfold calculatePER, JS.strict_eq. now intros ->.
  - unfold calculatePER, JS.strict_eq. now intros ->.
Qed.

(** C2, counterexample: non-negative statistics with [MIN > 0] and both
    unguarded denominators non-zero on which [calculatePER] returns [NaN]:
    [VOP = 1e308 / 0.5] overflows to [Infinity] and [VOP * TOV] is
    [Infinity * 0]. *)
Lemma C2_overflow_counterexample :
  nonneg_stats overflowing = true
  /\ (0 <? MIN overflowing) = true
  /\ (VOP_denominator overflowing =? 0) = false
  /\ (PF overflowing =? 0) = false
  /\ is_finite (calculatePER overflowing) = false
  /\ in_0_40 (calculatePER overflowing) = false.
Proof. vm_compute. repeat split. Qed.

(** A bound from above on the statistics is not enough: a statistic may
    not be tiny either.  With [FTA] at [1e-320] the denominator of [VOP] is
    [0.44 * 1e-320], [VOP] overflows and [VOP * TOV] is [Infinity * 0]; with
    [MIN] at [1e-320], [1 / MIN] overflows and multiplies a zero sum; with
    [PF] at [1e-320] the last term is [Infinity - Infinity]. *)
Example tiny_divisor_examples :
  Forall (fun p => small_and_nondegenerate p = true /\ is_nan (calculatePER p) = true)
    [tiny_denominator; tiny_minutes; tiny_fouls].
Proof. repeat constructor. Qed.

Section Range.

(** On ordinary statistics no intermediate of [uPER] overflows. *)
Lemma ordinary_stats_uPER p :
  ordinary_stats p = true -> below 1000 (per_uPER p).
Proof.
  unfold ordinary_stats. cbn [forallb]. intros H.
  repeat (apply andb_prop in H as [H ?HD]).
  repeat match goal with
         | H : (_ && _) = true |- _ => apply andb_prop in H as [?HS ?HS]
         end.
  apply negb_true_iff in HD, HD0.
  assert (AM : above (-19) (MIN p)).
  { apply in_scale_above; [assumption | now apply positive_not_zero]. }
  assert (AP : above (-19) (PF p)) by now apply in_scale_above.
  assert (GA : grid (-74) (FGA p)) by (apply (grid_weaken (-72)); [now apply in_scale_grid | lia]).
  assert (GR : grid (-74) (REB p)) by (apply (grid_weaken (-72)); [now apply in_scale_grid | lia]).
  assert (GT : grid (-74) (TOV p)) by (apply (grid_weaken (-72)); [now apply in_scale_grid | lia]).
  repeat match goal with
         | H : in_scale ?x = true |- _ =>
             pose proof (in_scale_below x H); pose proof (in_scale_nonneg x H); revert H
         end.
  intros.
  unfold VOP_denominator in *.
  assert (GD : grid (-74) (FGA p - REB p + TOV p + 0.44 * FTA p)).
  { eapply add_grid; [eapply add_grid; [eapply sub_grid|..]|..];
      try eassumption; try bound.
    eapply grid_weaken;
      [eapply (scaled_grid 0.44 (FTA p)); [reflexivity | assumption | bound | side] | side]. }
  assert (BD : below 100 (FGA p - REB p + TOV p + 0.44 * FTA p)).
  { eapply below_weaken; [bound | side]. }
  assert (AD : above (-73) (FGA p - REB p + TOV p + 0.44 * FTA p)).
  { now apply (grid_above (-74) 100). }
  clear BD GD.
  unfold per_uPER, per_factor, per_VOP, DRB_PCT. cbv zeta.
  eapply below_weaken; [bound | side].
Qed.

End Range.

(** C2, amended: for every statistics record whose thirteen fields are
    each zero or between [1e-6] and [1e6], with [MIN > 0] and the two
    unguarded denominators [FGA - REB + TOV + 0.44 * FTA] and [PF] not
    zero, [calculatePER] returns a finite value in the closed interval
    [0, 40].  On such records a denominator that is not zero is not tiny
    either, so no intermediate overflows and no [NaN] arises. *)
Theorem C2_calculatePER_range :
  forall p : NBAPlayerStats,
    ordinary_stats p = true ->
    is_finite (calculatePER p) = true /\ in_0_40 (calculatePER p) = true.
Proof.
  intros p H.
  pose proof (ordinary_stats_uPER p H) as Hk.
  assert (Hf : is_finite (per_uPER p * 15) = true).
  { apply (below_finite (1000 + mag 15 + 1)).
    apply mul_below; [assumption | now apply below_const | side | side]. }
  assert (Hmin : (MIN p =? 0) = false).
  { unfold ordinary_stats in H.
    repeat (apply andb_prop in H as [H ?HD]). now apply positive_not_zero. }
  rewrite (calculatePER_clamp p Hmin).
  apply is_finite_true_spec in Hf as [Hn _]. apply not_nan_spec in Hn.
  destruct (clamp_spec (per_uPER p * 15)) as [[Hn' _]|(_ & H0 & H40)]; [congruence|].
  split; [now apply in_range_finite|]. unfold in_0_40. now rewrite H0, H40.
Qed.

Lemma C2_calculatePER_range_witness :
  ordinary_stats sample = true
  /\ is_finite (calculatePER sample) = true /\ in_0_40 (calculatePER sample) = true
  /\ calculatePER sample = 8.5872083932496555.
Proof.
  split; [reflexivity|].
  destruct (C2_calculatePER_range sample eq_refl) as [Hf Hr].
  repeat split; assumption || reflexivity.
Defined.

(** C7: for every statistics record with [MIN > 0] on which an unguarded
    denominator is zero ([FGA - REB + TOV + 0.44 * FTA == 0] or [PF == 0]),
    [calculatePER] returns a value that is [NaN] or an infinity; the
    non-finite intermediate reaches the caller through the sum, the scaling
    by 15 and the clamp, and the value returned is in fact [NaN]. *)
Theorem C7_calculatePER_degenerate :
  forall p : NBAPlayerStats,
    (0 <? MIN p) = true ->
    (VOP_denominator p =? 0) = true \/ (PF p =? 0) = true ->
    (is_nan (calculatePER p) = true \/ is_infinity (calculatePER p) = true)
    /\ is_finite (per_uPER p * 15) = false
    /\ calculatePER p = nan.
Proof.
  intros p Hmin Hden.
  assert (Hu : per_uPER p * 15 = nan).
  { apply per_uPER_nan. destruct Hden as [Hv|Hpf].
    - left. apply mul_nonfinite_sub_diag.
      apply (mul_nonfinite_l _ _ false 7205759403792794 (-53)%Z); [reflexivity|].
      unfold per_VOP. now apply div_by_zero.
    - right. apply mul_zero_nonfinite; [assumption|].
      apply sub_nonfinite_l. now apply div_by_zero. }
  rewrite (calculatePER_clamp p (positive_not_zero _ Hmin)), Hu.
  repeat split. now left.
Qed.

Lemma C7_calculatePER_degenerate_witness :
  (is_nan (calculatePER no_fouls) = true \/ is_infinity (calculatePER no_fouls) = true)
  /\ is_finite (per_uPER no_fouls * 15) = false
  /\ calculatePER no_fouls = nan.
Proof.
  apply (C7_calculatePER_degenerate no_fouls); [reflexivity | right; reflexivity].
Defined.

(** C10: for every statistics record with [MIN > 0] the final clamp maps a
    [+Infinity] intermediate to exactly 40 and a [-Infinity] one to exactly
    0; [calculatePER] never returns an infinity, and the only non-finite
    value it returns is [NaN], exactly when [uPER * 15] is [NaN]. *)
Theorem C10_calculatePER_no_infinity :
  forall p : NBAPlayerStats,
    (0 <? MIN p) = true ->
    (per_uPER p * 15 = infinity -> calculatePER p = 40)
    /\ (per_uPER p * 15 = neg_infinity -> calculatePER p = 0)
    /\ is_infinity (calculatePER p) = false
    /\ (is_finite (calculatePER p) = false ->
        calculatePER p = nan /\ is_nan (per_uPER p * 15) = true).
Proof.
  intros p Hmin. rewrite (calculatePER_clamp p (positive_not_zero _ Hmin)).
  split; [now intros -> |]. split; [now intros -> |].
  destruct (clamp_spec (per_uPER p * 15)) as [[Hn Hc]|(Hn & H0 & H40)].
  - rewrite Hc. split; [reflexivity|]. now split.
  - pose proof (in_range_finite _ H0 H40) as Hf.
    split; [|rewrite Hf; discriminate].
    unfold is_finite in Hf. apply negb_true_iff, orb_false_iff in Hf. apply Hf.
Qed.

Lemma C10_calculatePER_no_infinity_witness :
  (per_uPER sample * 15 = infinity -> calculatePER sample = 40)
  /\ (per_uPER sample * 15 = neg_infinity -> calculatePER sample = 0)
  /\ is_infinity (calculatePER sample) = false
  /\ (is_finite (calculatePER sample) = false ->
      calculatePER sample = nan /\ is_nan (per_uPER sample * 15) = true).
Proof.
  apply (C10_calculatePER_no_infinity sample). reflexivity.
Defined.

(** A record whose [uPER * 15] is [+Infinity] (a subnormal [MIN] makes
    [1 / MIN] overflow): the value returned is 40. *)
Example infinite_uPER_clamped :
  let p := with_stats sample "Tiny" 70 5e-324 24 18 2 in
  per_uPER p * 15 = infinity /\ calculatePER p = 40.
Proof. vm_compute. split; reflexivity. Qed.

(* ================================================================== *)
(** * The stats normalizer *)

Section Normalizer.

Import RealNBADataService.

Variable rnd : nat -> JS.number.

Lemma mapM_Forall2 {A B : Type} (f : A -> JS.Rand B) l : forall k,
  Forall2 (fun a b => exists k', b = fst (f a k')) l (fst (JS.mapM f l k)).
Proof.
  induction l as [|a l IH]; intros k; simpl.
  - constructor.
  - unfold JS.bind. destruct (f a k) as [b k1] eqn:E.
    specialize (IH k1). destruct (JS.mapM f l k1) as [bs k2]. simpl in *.
    constructor; [|assumption]. exists k. now rewrite E.
Qed.

Lemma convertToPlayerFormat_fst l k :
  fst (convertToPlayerFormat rnd l k) =
  JS.Array_sort byPerDesc (fst (playerRecords rnd l k)).
Proof.
  unfold convertToPlayerFormat, JS.bind.
  now destruct (playerRecords rnd l k).
Qed.

Lemma convertToPlayerFormat_perm l k :
  Permutation (fst (convertToPlayerFormat rnd l k)) (fst (playerRecords rnd l k)).
Proof. rewrite convertToPlayerFormat_fst. apply (Array_sort_perm per). Qed.

Lemma playerRecords_keys l k :
  map player_key (fst (playerRecords rnd l k)) = map stats_key (filter admitted l).
Proof.
  unfold playerRecords.
  pose proof (mapM_Forall2 (toPlayer rnd) (filter admitted l) k) as H.
  induction H as [|p q ps qs [k' ->] _ IH]; simpl; [reflexivity|].
  now rewrite IH.
Qed.

Lemma playerRecords_admitted l k :
  Forall (fun q => (10 <? gamesPlayed q) = true) (fst (playerRecords rnd l k)).
Proof.
  unfold playerRecords.
  pose proof (mapM_Forall2 (toPlayer rnd) (filter admitted l) k) as H.
  assert (Hin : Forall (fun p => admitted p = true) (filter admitted l)).
  { apply Forall_forall. intros p Hp. now apply filter_In in Hp. }
  induction H as [|p q ps qs [k' ->] _ IH]; constructor.
  - inversion Hin; subst. assumption.
  - apply IH. now inversion Hin.
Qed.

End Normalizer.

(** ** Rounding to one decimal *)

Section Rounding1.

Import RealNBADataService.





(** Rounding a finite number to one decimal does not give [NaN]. *)
Lemma round1_not_nan x : is_finite x = true -> is_nan (round1 x) = false.
Proof.
  intros H. unfold round1.
  apply (div_finite_not_nan _ _ false 5629499534213120 (-49)%Z); [reflexivity|].
  apply Math_round_not_nan. now apply mul_finite_not_nan.
Qed.





Lemma playerRecords_origin rnd l k q :
  In q (fst (playerRecords rnd l k)) ->
  exists p k', In p l /\ (10 <? GP p) = true /\ q = fst (toPlayer rnd p k').
Proof.
  unfold playerRecords.
  pose proof (mapM_Forall2 (toPlayer rnd) (filter admitted l) k) as H.
  assert (Hin : forall p, In p (filter admitted l) -> In p l /\ (10 <? GP p) = true).
  { intros p Hp. now apply filter_In in Hp. }
  induction H as [|p q' ps qs [k' ->] _ IH]; simpl; [tauto|].
  intros [<-|Hq].
  - exists p, k'. destruct (Hin p (or_introl eq_refl)). auto.
  - apply IH; [|assumption]. intros p' Hp'. apply Hin. now right.
Qed.

End Rounding1.

(** C5: for every input list of raw player stats, [convertToPlayerFormat]
    drops every record whose games played are [<= 10] and keeps every
    record with games played [> 10]: the output holds, up to order, exactly
    the records passing [GP > 10]; no Player of the output has
    [gamesPlayed <= 10]; a value is always returned, and the output is at
    most as long as the input. *)
Theorem C5_convertToPlayerFormat_admission :
  forall (rnd : nat -> JS.number) (nbaPlayers : list NBAPlayerStats) (k : nat),
    let out := fst (RealNBADataService.convertToPlayerFormat rnd nbaPlayers k) in
    Forall (fun q => (gamesPlayed q <=? 10) = false) out
    /\ Permutation (map player_key out)
         (map stats_key (filter (fun p => 10 <? GP p) nbaPlayers))
    /\ (forall p, (GP p <=? 10) = true -> ~ In p (filter (fun p => 10 <? GP p) nbaPlayers))
    /\ (forall p, In p nbaPlayers -> (10 <? GP p) = true ->
          In (stats_key p) (map player_key out))
    /\ (List.length out <= List.length nbaPlayers)%nat.
Proof.
  intros rnd l k out.
  assert (Hperm : Permutation out (fst (RealNBADataService.playerRecords rnd l k)))
    by apply convertToPlayerFormat_perm.
  assert (Hkeys : Permutation (map player_key out)
                    (map stats_key (filter (fun p => 10 <? GP p) l))).
  { change (fun p => 10 <? GP p) with RealNBADataService.admitted.
    rewrite <- (playerRecords_keys rnd l k). now apply Permutation_map. }
  split; [|split; [exact Hkeys|split; [|split]]].
  - apply (Forall_perm _ (fst (RealNBADataService.playerRecords rnd l k)));
      [now symmetry|].
    eapply Forall_impl; [|apply playerRecords_admitted].
    intros q Hq. now apply ltb_not_leb.
  - intros p Hle Hin. apply filter_In in Hin as [_ Hlt].
    apply ltb_not_leb in Hlt. congruence.
  - intros p Hin Hlt. eapply Permutation_in; [symmetry; exact Hkeys|].
    apply in_map, filter_In. now split.
  - rewrite <- (length_map player_key out), (Permutation_length Hkeys), length_map.
    apply filter_length_le.
Qed.

(** The example of the specification: of two records with 5 and 15 games
    played, exactly the second comes out. *)
Example admission_example :
  map name (fst (RealNBADataService.convertToPlayerFormat low_draws [bench; starter] 0%nat))
  = ["Starter"%string].
Proof. reflexivity. Qed.

(** C6: for every input list of raw player stats whose computed PER values
    are all finite (it is enough that those of the records with more than
    10 games are), the list returned by [convertToPlayerFormat] is sorted by
    [per] in descending order and the sort is stable: it is a permutation
    of the records in input order in which the records of equal [per] keep
    their relative order. *)
Theorem C6_convertToPlayerFormat_sorted :
  forall (rnd : nat -> JS.number) (nbaPlayers : list NBAPlayerStats) (k : nat),
    let records := fst (RealNBADataService.playerRecords rnd nbaPlayers k) in
    let out := fst (RealNBADataService.convertToPlayerFormat rnd nbaPlayers k) in
    (forall p, In p nbaPlayers -> (10 <? GP p) = true ->
               is_finite (calculatePER p) = true) ->
    StronglySorted (fun a b => (per b <=? per a) = true) out
    /\ Permutation out records
    /\ map player_key records = map stats_key (filter (fun p => 10 <? GP p) nbaPlayers)
    /\ (forall v, filter (fun q => per q =? v) out = filter (fun q => per q =? v) records).
Proof.
  intros rnd l k records out Hfin.
  assert (Hnum : Forall (fun q => is_nan (per q) = false) records).
  { apply Forall_forall. intros q Hq.
    apply playerRecords_origin in Hq as (p & k' & Hp & Hgp & ->).
    apply round1_not_nan. now apply Hfin. }
  unfold out. rewrite convertToPlayerFormat_fst. fold records.
  split; [|split; [|split]].
  - now apply (Array_sort_sorted per).
  - apply (Array_sort_perm per).
  - apply playerRecords_keys.
  - intros v. now apply (Array_sort_stable per).
Qed.

Lemma C6_convertToPlayerFormat_sorted_witness :
  let l := [bench; sample; starter; scorer; sample] in
  let records := fst (RealNBADataService.playerRecords low_draws l 0%nat) in
  let out := fst (RealNBADataService.convertToPlayerFormat low_draws l 0%nat) in
  StronglySorted (fun a b => (per b <=? per a) = true) out
  /\ Permutation out records
  /\ map player_key records = map stats_key (filter (fun p => 10 <? GP p) l)
  /\ (forall v, filter (fun q => per q =? v) out = filter (fun q => per q =? v) records).
Proof.
  apply (C6_convertToPlayerFormat_sorted low_draws [bench; sample; starter; scorer; sample] 0%nat).
  intros p Hp _. simpl in Hp.
  repeat (destruct Hp as [<-|Hp]; [vm_compute; reflexivity|]). destruct Hp.
Defined.

(** The order on the sample: PER values 8.6, 9.8, 9.7, 8.6 come out as
    9.8, 9.7, 8.6, 8.6. *)
Example sorted_example :
  map name (fst (RealNBADataService.convertToPlayerFormat low_draws
                   [bench; sample; starter; scorer; no_fouls] 0%nat))
  = ["Starter"; "Scorer"; "Sample Player"; "No Fouls"]%string.
Proof. reflexivity. Qed.

(** Outside the non-negative statistics of the specification the two
    roundings part: for the per-game value [-0.25], [Math.round(-2.5)] is
    [-2] and the Player carries [-0.2], while rounding half away from zero
    gives [-0.3]. *)
Example negative_tie_example :
  map points
    (fst (RealNBADataService.convertToPlayerFormat low_draws [negative_tie] 0%nat))
  = [-0.2]
  /\ Reference.round_to_one_decimal (PTS negative_tie) = -0.3
  /\ (-0.2 =? -0.3) = false.
Proof. vm_compute. repeat split. Qed.



(* ================================================================== *)
(** * The fetch cache *)

Section FetchCache.

Import RealNBADataService.

Lemma fresh_true cached now this :
  fresh cached now this = true <->
  (0 < cached)%nat /\ (now - lastFetchTime this < CACHE_DURATION)%Z.
Proof.
  unfold fresh. rewrite andb_true_iff, Nat.ltb_lt, Z.ltb_lt. reflexivity.
Qed.

Lemma fresh_nonempty {A} (l : list A) now this :
  l <> [] -> (now - lastFetchTime this < CACHE_DURATION)%Z ->
  fresh (List.length l) now this = true.
Proof.
  intros Hl Ht. apply fresh_true. split; [|assumption].
  destruct l; [congruence | simpl; lia].
Qed.

Lemma fresh_stale cached now this :
  (CACHE_DURATION <= now - lastFetchTime this)%Z -> fresh cached now this = false.
Proof.
  intros H. unfold fresh. apply andb_false_iff. right. now apply Z.ltb_ge.
Qed.

(** A miss of [fetchPlayerData]: what the call does with the outcome of the
    request body. *)
Lemma fetchPlayerData_miss season w this :
  fresh (List.length (playerStatsCache this)) (now_check w) this = false ->
  let rows := match request w with JS.Returned rows => rows | JS.Thrown _ => [] end in
  let r := fetchPlayerData season w this in
  state r = {| playerStatsCache := rows; teamStatsCache := teamStatsCache this;
               lastFetchTime := now_store w |}
  /\ value r = JS.Returned (fst (convertToPlayerFormat (rnd w) rows (drawn w)))
  /\ calls r = [GetPlayerStats season].
Proof.
  intros Hf. unfold fetchPlayerData. rewrite Hf.
  destruct (request w) as [rows|msg]; cbn [getPlayerStats].
  - destruct (convertToPlayerFormat (rnd w) rows (drawn w)). auto.
  - auto.
Qed.

Lemma fetchTeamData_miss season w this :
  fresh (List.length (teamStatsCache this)) (now_check w) this = false ->
  let rows := match request w with JS.Returned rows => rows | JS.Thrown _ => [] end in
  let r := fetchTeamData season w this in
  state r = {| playerStatsCache := playerStatsCache this; teamStatsCache := rows;
               lastFetchTime := now_store w |}
  /\ value r = JS.Returned (convertToTeamFormat rows)
  /\ calls r = [GetTeamStats season].
Proof.
  intros Hf. unfold fetchTeamData. rewrite Hf.
  destruct (request w) as [rows|msg]; cbn [getTeamStats]; auto.
Qed.

Lemma fetchPlayerData_hit season w this :
  fresh (List.length (playerStatsCache this)) (now_check w) this = true ->
  let r := fetchPlayerData season w this in
  state r = this
  /\ value r = JS.Returned (fst (convertToPlayerFormat (rnd w) (playerStatsCache this) (drawn w)))
  /\ calls r = [].
Proof.
  intros Hf. unfold fetchPlayerData. rewrite Hf.
  destruct (convertToPlayerFormat (rnd w) (playerStatsCache this) (drawn w)). auto.
Qed.

Lemma fetchTeamData_hit season w this :
  fresh (List.length (teamStatsCache this)) (now_check w) this = true ->
  let r := fetchTeamData season w this in
  state r = this
  /\ value r = JS.Returned (convertToTeamFormat (teamStatsCache this))
  /\ calls r = [].
Proof.
  intros Hf. unfold fetchTeamData. rewrite Hf. auto.
Qed.

End FetchCache.

(** C3, counterexample: at time 400000 the request fails.  On the service
    filled at time 0 the call resolves to the empty list instead of
    failing, empties the players cache and moves the timestamp; on the new
    service the timestamp does not stay unset. *)
Lemma C3_failed_fetch_counterexample :
  let w := at_time 400000 (JS.Thrown (api_error "leaguedashplayerstats")) low_draws in
  let r := RealNBADataService.fetchPlayerData "2023-24" w filled_at_0 in
  let r0 := RealNBADataService.fetchPlayerData "2023-24" w RealNBADataService.init in
  RealNBADataService.value r = JS.Returned []
  /\ RealNBADataService.playerStatsCache (RealNBADataService.state r) = []
  /\ RealNBADataService.lastFetchTime (RealNBADataService.state r) = 400000%Z
  /\ RealNBADataService.state r <> filled_at_0
  /\ RealNBADataService.value r0 = JS.Returned []
  /\ RealNBADataService.lastFetchTime (RealNBADataService.state r0) = 400000%Z
  /\ RealNBADataService.state r0 <> RealNBADataService.init.
Proof.
  cbv zeta. repeat split; try reflexivity.
  - intros H. apply (f_equal RealNBADataService.lastFetchTime) in H. discriminate H.
  - intros H. apply (f_equal RealNBADataService.lastFetchTime) in H. discriminate H.
Qed.

(** C3, amended: when the raw-stats request of a [fetchPlayerData]
    (respectively [fetchTeamData]) call fails, [nbaApi] catches the failure
    and returns an empty array, so nothing is propagated: the call
    resolves to the empty list, replaces the corresponding stats cache by the
    empty array and sets [lastFetchTime] to the current time, leaving the
    other cache as it was; the cache being empty, the next call fetches
    again. *)
Theorem C3_failed_fetch_swallowed :
  forall (season : string) (w : RealNBADataService.world NBAPlayerStats)
         (wt : RealNBADataService.world NBATeamStats.t)
         (this : RealNBADataService.t) (msg msgt : string),
    RealNBADataService.request w = JS.Thrown msg ->
    RealNBADataService.request wt = JS.Thrown msgt ->
    RealNBADataService.fresh (List.length (RealNBADataService.playerStatsCache this))
      (RealNBADataService.now_check w) this = false ->
    RealNBADataService.fresh (List.length (RealNBADataService.teamStatsCache this))
      (RealNBADataService.now_check wt) this = false ->
    let r := RealNBADataService.fetchPlayerData season w this in
    let rt := RealNBADataService.fetchTeamData season wt this in
    (getPlayerStats (RealNBADataService.request w) = JS.Returned []
     /\ RealNBADataService.value r = JS.Returned []
     /\ RealNBADataService.calls r = [RealNBADataService.GetPlayerStats season]
     /\ RealNBADataService.state r =
        {| RealNBADataService.playerStatsCache := [];
           RealNBADataService.teamStatsCache := RealNBADataService.teamStatsCache this;
           RealNBADataService.lastFetchTime := RealNBADataService.now_store w |}
     /\ forall season' w',
          RealNBADataService.calls
            (RealNBADataService.fetchPlayerData season' w' (RealNBADataService.state r))
          = [RealNBADataService.GetPlayerStats season'])
    /\
    (getTeamStats (RealNBADataService.request wt) = JS.Returned []
     /\ RealNBADataService.value rt = JS.Returned []
     /\ RealNBADataService.calls rt = [RealNBADataService.GetTeamStats season]
     /\ RealNBADataService.state rt =
        {| RealNBADataService.playerStatsCache := RealNBADataService.playerStatsCache this;
           RealNBADataService.teamStatsCache := [];
           RealNBADataService.lastFetchTime := RealNBADataService.now_store wt |}
     /\ forall season' w',
          RealNBADataService.calls
            (RealNBADataService.fetchTeamData season' w' (RealNBADataService.state rt))
          = [RealNBADataService.GetTeamStats season']).
Proof.
  intros season w wt this msg msgt Hw Hwt Hf Hft r rt.
  destruct (fetchPlayerData_miss season w this Hf) as (Hs & Hv & Hc).
  destruct (fetchTeamData_miss season wt this Hft) as (Hst & Hvt & Hct).
  rewrite Hw in Hs, Hv. rewrite Hwt in Hst, Hvt.
  fold r in Hs, Hv, Hc. fold rt in Hst, Hvt, Hct.
  split.
  - rewrite Hw. repeat split; try assumption.
    intros season' w'. rewrite Hs.
    now destruct (fetchPlayerData_miss season' w'
      {| RealNBADataService.playerStatsCache := [];
         RealNBADataService.teamStatsCache := RealNBADataService.teamStatsCache this;
         RealNBADataService.lastFetchTime := RealNBADataService.now_store w |}
      eq_refl) as (_ & _ & ?).
  - rewrite Hwt. repeat split; try assumption.
    intros season' w'. rewrite Hst.
    now destruct (fetchTeamData_miss season' w'
      {| RealNBADataService.playerStatsCache := RealNBADataService.playerStatsCache this;
         RealNBADataService.teamStatsCache := [];
         RealNBADataService.lastFetchTime := RealNBADataService.now_store wt |}
      eq_refl) as (_ & _ & ?).
Qed.

Lemma C3_failed_fetch_swallowed_witness :
  let w := at_time 400000 (JS.Thrown (api_error "leaguedashplayerstats")) low_draws in
  let r := RealNBADataService.fetchPlayerData "2023-24" w filled_at_0 in
  RealNBADataService.value r = JS.Returned []
  /\ RealNBADataService.state r =
     {| RealNBADataService.playerStatsCache := [];
        RealNBADataService.teamStatsCache := [sample_team];
        RealNBADataService.lastFetchTime := 400000 |}.
Proof.
  cbv zeta.
  destruct (C3_failed_fetch_swallowed "2023-24"
              (at_time 400000 (JS.Thrown (api_error "leaguedashplayerstats")) low_draws)
              (at_time 400000 (JS.Thrown (api_error "leaguedashteamstats")) low_draws)
              filled_at_0 _ _ eq_refl eq_refl eq_refl eq_refl)
    as [(_ & Hv & _ & Hs & _) _].
  split; [exact Hv | exact Hs].
Defined.

(** C4, counterexample: a call at time 0 fills the cache and a call at
    time 100000 is served without a fetch, but what it returns is not what
    the first call returned: the cached raw stats are converted again, with
    new random draws for the position and the prediction. *)
Lemma C4_cache_hit_counterexample :
  let w0 := {| RealNBADataService.now_check := 0; RealNBADataService.now_store := 0;
               RealNBADataService.request := JS.Returned [sample];
               RealNBADataService.rnd := mixed_draws;
               RealNBADataService.drawn := 0 |} in
  let r0 := RealNBADataService.fetchPlayerData "2023-24" w0 RealNBADataService.init in
  let w1 := {| RealNBADataService.now_check := 100000;
               RealNBADataService.now_store := 100000;
               RealNBADataService.request := JS.Returned [sample];
               RealNBADataService.rnd := mixed_draws;
               RealNBADataService.drawn := RealNBADataService.draws r0 |} in
  let r1 := RealNBADataService.fetchPlayerData "2023-24" w1 (RealNBADataService.state r0) in
  RealNBADataService.calls r0 = [RealNBADataService.GetPlayerStats "2023-24"]
  /\ RealNBADataService.calls r1 = []
  /\ map position (returned (RealNBADataService.value r0)) = [Some "PG"%string]
  /\ map position (returned (RealNBADataService.value r1)) = [Some "C"%string]
  /\ map predictedPER (returned (RealNBADataService.value r0)) = [9.5]
  /\ map predictedPER (returned (RealNBADataService.value r1)) = [11.9]
  /\ RealNBADataService.value r1 <> RealNBADataService.value r0.
Proof.
  cbv zeta. repeat split; try (vm_compute; reflexivity).
  intros H. apply (f_equal (fun o => map position (returned o))) in H.
  vm_compute in H. discriminate H.
Qed.

(** C4, amended: a call to [fetchPlayerData] (respectively [fetchTeamData])
    made while the corresponding cached stats array is non-empty and
    [now - lastFetchTime < CACHE_DURATION] (300000 ms) makes no call to the
    fetch function and leaves the object as it is; it returns the cached raw
    stats converted anew by [convertToPlayerFormat] ([convertToTeamFormat]),
    a freshly built list whose position and predictedPER entries come from
    new random draws.  A call made when [now - lastFetchTime >=
    CACHE_DURATION] calls the fetch function again. *)
Theorem C4_cache_hit_reconverts :
  forall (season : string) (w : RealNBADataService.world NBAPlayerStats)
         (wt : RealNBADataService.world NBATeamStats.t) (this : RealNBADataService.t),
    let r := RealNBADataService.fetchPlayerData season w this in
    let rt := RealNBADataService.fetchTeamData season wt this in
    RealNBADataService.CACHE_DURATION = 300000%Z
    /\ (RealNBADataService.playerStatsCache this <> [] ->
        (RealNBADataService.now_check w - RealNBADataService.lastFetchTime this
         < RealNBADataService.CACHE_DURATION)%Z ->
        RealNBADataService.calls r = []
        /\ RealNBADataService.state r = this
        /\ RealNBADataService.value r =
           JS.Returned (fst (RealNBADataService.convertToPlayerFormat
                               (RealNBADataService.rnd w)
                               (RealNBADataService.playerStatsCache this)
                               (RealNBADataService.drawn w))))
    /\ (RealNBADataService.teamStatsCache this <> [] ->
        (RealNBADataService.now_check wt - RealNBADataService.lastFetchTime this
         < RealNBADataService.CACHE_DURATION)%Z ->
        RealNBADataService.calls rt = []
        /\ RealNBADataService.state rt = this
        /\ RealNBADataService.value rt =
           JS.Returned (RealNBADataService.convertToTeamFormat
                          (RealNBADataService.teamStatsCache this)))
    /\ ((RealNBADataService.CACHE_DURATION
         <= RealNBADataService.now_check w - RealNBADataService.lastFetchTime this)%Z ->
        RealNBADataService.calls r = [RealNBADataService.GetPlayerStats season])
    /\ ((RealNBADataService.CACHE_DURATION
         <= RealNBADataService.now_check wt - RealNBADataService.lastFetchTime this)%Z ->
        RealNBADataService.calls rt = [RealNBADataService.GetTeamStats season]).
Proof.
  intros season w wt this r rt.
  split; [reflexivity|]. split; [|split; [|split]].
  - intros Hne Ht.
    destruct (fetchPlayerData_hit season w this (fresh_nonempty _ _ _ Hne Ht))
      as (Hs & Hv & Hc). auto.
  - intros Hne Ht.
    destruct (fetchTeamData_hit season wt this (fresh_nonempty _ _ _ Hne Ht))
      as (Hs & Hv & Hc). auto.
  - intros Ht.
    now destruct (fetchPlayerData_miss season w this (fresh_stale _ _ _ Ht)) as (_ & _ & ?).
  - intros Ht.
    now destruct (fetchTeamData_miss season wt this (fresh_stale _ _ _ Ht)) as (_ & _ & ?).
Qed.

Lemma C4_cache_hit_reconverts_witness :
  let w := at_time 100000 (JS.Returned [scorer]) low_draws in
  let r := RealNBADataService.fetchPlayerData "2023-24" w filled_at_0 in
  let late := at_time 301000 (JS.Returned [scorer]) low_draws in
  (RealNBADataService.calls r = []
   /\ RealNBADataService.state r = filled_at_0
   /\ RealNBADataService.value r =
      JS.Returned (fst (RealNBADataService.convertToPlayerFormat low_draws [sample] 0%nat)))
  /\ RealNBADataService.calls (RealNBADataService.fetchPlayerData "2023-24" late filled_at_0)
     = [RealNBADataService.GetPlayerStats "2023-24"].
Proof.
  cbv zeta. split.
  - apply (proj1 (proj2 (C4_cache_hit_reconverts "2023-24"
             (at_time 100000 (JS.Returned [scorer]) low_draws)
             (at_time 100000 (JS.Returned [sample_team]) low_draws) filled_at_0)));
      [discriminate | reflexivity].
  - apply (proj1 (proj2 (proj2 (proj2 (C4_cache_hit_reconverts "2023-24"
             (at_time 301000 (JS.Returned [scorer]) low_draws)
             (at_time 301000 (JS.Returned [sample_team]) low_draws) filled_at_0))))).
    discriminate.
Defined.

(** C9: the service has one [lastFetchTime] for both kinds of data.  A
    players fetch writes it and the teams freshness test reads it: after a
    players fetch at time [t], a teams call before [t + CACHE_DURATION] is
    served from a non-empty teams cache without a fetch, however old that
    cache is; and the same with the two kinds exchanged. *)
Theorem C9_shared_lastFetchTime :
  forall (season : string) (w w' : RealNBADataService.world NBAPlayerStats)
         (wt wt' : RealNBADataService.world NBATeamStats.t) (this : RealNBADataService.t),
    (RealNBADataService.fresh (List.length (RealNBADataService.playerStatsCache this))
       (RealNBADataService.now_check w) this = false ->
     let after := RealNBADataService.state (RealNBADataService.fetchPlayerData season w this) in
     RealNBADataService.lastFetchTime after = RealNBADataService.now_store w
     /\ RealNBADataService.teamStatsCache after = RealNBADataService.teamStatsCache this
     /\ (RealNBADataService.teamStatsCache this <> [] ->
         (RealNBADataService.now_check wt' - RealNBADataService.now_store w
          < RealNBADataService.CACHE_DURATION)%Z ->
         RealNBADataService.calls (RealNBADataService.fetchTeamData season wt' after) = [])
     /\ ((RealNBADataService.CACHE_DURATION
          <= RealNBADataService.now_check wt' - RealNBADataService.now_store w)%Z ->
         RealNBADataService.calls (RealNBADataService.fetchTeamData season wt' after)
         = [RealNBADataService.GetTeamStats season]))
    /\
    (RealNBADataService.fresh (List.length (RealNBADataService.teamStatsCache this))
       (RealNBADataService.now_check wt) this = false ->
     let after := RealNBADataService.state (RealNBADataService.fetchTeamData season wt this) in
     RealNBADataService.lastFetchTime after = RealNBADataService.now_store wt
     /\ RealNBADataService.playerStatsCache after = RealNBADataService.playerStatsCache this
     /\ (RealNBADataService.playerStatsCache this <> [] ->
         (RealNBADataService.now_check w' - RealNBADataService.now_store wt
          < RealNBADataService.CACHE_DURATION)%Z ->
         RealNBADataService.calls (RealNBADataService.fetchPlayerData season w' after) = [])
     /\ ((RealNBADataService.CACHE_DURATION
          <= RealNBADataService.now_check w' - RealNBADataService.now_store wt)%Z ->
         RealNBADataService.calls (RealNBADataService.fetchPlayerData season w' after)
         = [RealNBADataService.GetPlayerStats season])).
Proof.
  intros season w w' wt wt' this. split.
  - intros Hf after.
    destruct (fetchPlayerData_miss season w this Hf) as (Hs & _ & _).
    fold after in Hs. rewrite Hs. cbn [RealNBADataService.lastFetchTime
      RealNBADataService.teamStatsCache]. repeat split.
    + intros Hne Ht.
      match goal with |- RealNBADataService.calls (RealNBADataService.fetchTeamData _ _ ?st) = _ =>
        now destruct (fetchTeamData_hit season wt' st
              (fresh_nonempty (RealNBADataService.teamStatsCache this)
                 (RealNBADataService.now_check wt') st Hne Ht)) as (_ & _ & ?)
      end.
    + intros Ht.
      match goal with |- RealNBADataService.calls (RealNBADataService.fetchTeamData _ _ ?st) = _ =>
        now destruct (fetchTeamData_miss season wt' st
              (fresh_stale _ (RealNBADataService.now_check wt') st Ht)) as (_ & _ & ?)
      end.
  - intros Hf after.
    destruct (fetchTeamData_miss season wt this Hf) as (Hs & _ & _).
    fold after in Hs. rewrite Hs. cbn [RealNBADataService.lastFetchTime
      RealNBADataService.playerStatsCache]. repeat split.
    + intros Hne Ht.
      match goal with |- RealNBADataService.calls (RealNBADataService.fetchPlayerData _ _ ?st) = _ =>
        now destruct (fetchPlayerData_hit season w' st
              (fresh_nonempty (RealNBADataService.playerStatsCache this)
                 (RealNBADataService.now_check w') st Hne Ht)) as (_ & _ & ?)
      end.
    + intros Ht.
      match goal with |- RealNBADataService.calls (RealNBADataService.fetchPlayerData _ _ ?st) = _ =>
        now destruct (fetchPlayerData_miss season w' st
              (fresh_stale _ (RealNBADataService.now_check w') st Ht)) as (_ & _ & ?)
      end.
Qed.

Lemma C9_shared_lastFetchTime_witness :
  let w := at_time 400000 (JS.Returned [scorer]) low_draws in
  let wt' := at_time 400001 (JS.Returned [sample_team]) low_draws in
  let after := RealNBADataService.state
                 (RealNBADataService.fetchPlayerData "2023-24" w filled_at_0) in
  RealNBADataService.lastFetchTime after = 400000%Z
  /\ RealNBADataService.teamStatsCache after = [sample_team]
  /\ RealNBADataService.calls (RealNBADataService.fetchTeamData "2023-24" wt' after) = []
  /\ RealNBADataService.calls (RealNBADataService.fetchTeamData "2023-24" wt' filled_at_0)
     = [RealNBADataService.GetTeamStats "2023-24"].
Proof.
  cbv zeta.
  destruct (proj1 (C9_shared_lastFetchTime "2023-24"
              (at_time 400000 (JS.Returned [scorer]) low_draws)
              (at_time 400000 (JS.Returned [scorer]) low_draws)
              (at_time 400001 (JS.Returned [sample_team]) low_draws)
              (at_time 400001 (JS.Returned [sample_team]) low_draws)
              filled_at_0) eq_refl) as (Ht & Hc & Hhit & _).
  split; [exact Ht|]. split; [exact Hc|].
  split; [apply Hhit; [discriminate | reflexivity] | reflexivity].
Defined.

(* ================================================================== *)
(** * Rows and objects *)

Section RowsFacts.

Lemma own_value_assign_same props h v :
  Rows.own_value (Rows.assign props h v) h = Some v.
Proof.
  unfold Rows.own_value. induction props as [|[h' v'] props IH]; simpl.
  - now rewrite String.eqb_refl.
  - destruct (String.eqb h' h) eqn:E; simpl; rewrite E; [reflexivity | exact IH].
Qed.

Lemma own_value_assign_other props h h' v :
  h <> h' -> Rows.own_value (Rows.assign props h v) h' = Rows.own_value props h'.
Proof.
  intros Hne. unfold Rows.own_value. induction props as [|[h0 v0] props IH]; simpl.
  - assert (E : String.eqb h h' = false) by now apply String.eqb_neq.
    now rewrite E.
  - destruct (String.eqb h0 h) eqn:E; simpl.
    + apply String.eqb_eq in E. subst h0.
      assert (E' : String.eqb h h' = false) by now apply String.eqb_neq.
      now rewrite E'.
    + destruct (String.eqb h0 h'); [reflexivity | exact IH].
Qed.

Lemma keys_assign props h v x :
  In x (map fst (Rows.assign props h v)) <-> x = h \/ In x (map fst props).
Proof.
  induction props as [|[h' v'] props IH]; simpl.
  - intuition.
  - destruct (String.eqb h' h) eqn:E; simpl.
    + apply String.eqb_eq in E. subst. intuition.
    + rewrite IH. intuition.
Qed.

(** An assignment to any other name than [__proto__] writes an own
    property and leaves the prototype. *)
Lemma set_plain o h v :
  h <> "__proto__"%string ->
  Rows.set o h v = {| Rows.own := Rows.assign (Rows.own o) h v; Rows.proto := Rows.proto o |}.
Proof.
  intros Hne. unfold Rows.set.
  assert (E : String.eqb h "__proto__" = false) by now apply String.eqb_neq.
  now rewrite E.
Qed.

Lemma forEach_assign_proto headers : forall idx row o,
  ~ In "__proto__"%string headers ->
  Rows.proto (Rows.forEach_assign headers idx row o) = Rows.proto o.
Proof.
  induction headers as [|x rest IH]; intros idx row o Hp; simpl; [reflexivity|].
  rewrite IH by (intros H; apply Hp; now right).
  rewrite set_plain; [reflexivity|]. intros ->. apply Hp. now left.
Qed.

Lemma forEach_assign_absent headers : forall idx row o h,
  ~ In "__proto__"%string headers -> ~ In h headers ->
  Rows.own_value (Rows.own (Rows.forEach_assign headers idx row o)) h
  = Rows.own_value (Rows.own o) h.
Proof.
  induction headers as [|x rest IH]; intros idx row o h Hp Hn; simpl; [reflexivity|].
  rewrite IH by (intros H; first [apply Hp; now right | apply Hn; now right]).
  rewrite set_plain by (intros ->; apply Hp; now left).
  apply own_value_assign_other. intros ->. apply Hn. now left.
Qed.

Lemma forEach_assign_last headers : forall idx row o i h,
  ~ In "__proto__"%string headers ->
  nth_error headers i = Some h -> ~ In h (skipn (S i) headers) ->
  Rows.own_value (Rows.own (Rows.forEach_assign headers idx row o)) h
  = Some (Rows.cell row (idx + i)).
Proof.
  induction headers as [|x rest IH]; intros idx row o i h Hp Hi Hn.
  - now destruct i.
  - assert (Hp' : ~ In "__proto__"%string rest) by (intros H; apply Hp; now right).
    destruct i as [|i]; simpl in *.
    + injection Hi as ->. rewrite forEach_assign_absent by assumption.
      rewrite set_plain by (intros ->; apply Hp; now left).
      cbn [Rows.own]. rewrite own_value_assign_same. now rewrite Nat.add_0_r.
    + rewrite (IH (S idx) row _ i h Hp' Hi Hn). do 2 f_equal. lia.
Qed.

Lemma forEach_assign_keys headers : forall idx row o x,
  ~ In "__proto__"%string headers ->
  In x (Rows.keys (Rows.forEach_assign headers idx row o))
  <-> In x headers \/ In x (Rows.keys o).
Proof.
  induction headers as [|h rest IH]; intros idx row o x Hp; simpl.
  - intuition.
  - rewrite IH by (intros H; apply Hp; now right).
    rewrite set_plain by (intros ->; apply Hp; now left).
    unfold Rows.keys. cbn [Rows.own]. rewrite keys_assign. intuition.
Qed.

End RowsFacts.

(** X1: when no header is [__proto__], the object built from a row has
    exactly the headers as own properties and still has [Object.prototype]
    as prototype.  Reading a header gives the cell of the last column with
    that header ([undefined] when the row is too short); reading any other
    name is answered by [Object.prototype]. *)
Theorem X1_reshape_lookup :
  forall (headers : list string) (row : list Rows.value) (i : nat) (h : string),
    ~ In "__proto__"%string headers ->
    nth_error headers i = Some h ->
    ~ In h (skipn (S i) headers) ->
    let o := Rows.reshape headers row in
    Rows.get o h = Rows.Found (Rows.cell row i)
    /\ (forall h', ~ In h' headers -> Rows.get o h' = Rows.Delegated Rows.ObjectPrototype)
    /\ (forall h', In h' (Rows.keys o) <-> In h' headers)
    /\ Rows.proto o = Rows.ObjectPrototype.
Proof.
  intros headers row i h Hp Hi Hlast o. unfold o, Rows.reshape, Rows.get.
  split; [|split; [|split]].
  - now rewrite (forEach_assign_last headers 0 row Rows.empty i h Hp Hi Hlast).
  - intros h' Hn. rewrite forEach_assign_absent by assumption.
    now rewrite forEach_assign_proto.
  - intros h'. rewrite forEach_assign_keys by assumption. simpl. intuition.
  - now apply forEach_assign_proto.
Qed.

Lemma X1_reshape_lookup_witness :
  let o := Rows.reshape sample_headers sample_row in
  (Rows.get o "PLAYER_NAME" = Rows.Found (Rows.Str "LeBron James")
   /\ (forall h', ~ In h' sample_headers ->
                  Rows.get o h' = Rows.Delegated Rows.ObjectPrototype)
   /\ (forall h', In h' (Rows.keys o) <-> In h' sample_headers)
   /\ Rows.proto o = Rows.ObjectPrototype)
  /\ Rows.get o "MIN" = Rows.Found Rows.Undefined
  /\ Rows.keys o = ["PLAYER_ID"; "PLAYER_NAME"; "GP"; "MIN"]%string.
Proof.
  split; [|split; reflexivity].
  apply (X1_reshape_lookup sample_headers sample_row 3 "PLAYER_NAME");
    [| reflexivity | simpl; intros [H|[]]; discriminate H].
  simpl. intros [H|[H|[H|[H|[H|[]]]]]]; discriminate H.
Defined.

(** A header [__proto__] is not stored: with a [null] cell it takes the
    prototype away, after which a second such header is stored as a
    property. *)
Example proto_header_example :
  Rows.reshape ["GP"; "__proto__"]%string [Rows.Num 71; Rows.Null]
  = {| Rows.own := [("GP"%string, Rows.Num 71)]; Rows.proto := Rows.NoPrototype |}
  /\ Rows.keys (Rows.reshape ["__proto__"; "__proto__"]%string [Rows.Null; Rows.Num 1])
     = ["__proto__"]%string
  /\ Rows.reshape ["__proto__"]%string [Rows.Str "x"] = Rows.empty.
Proof. repeat split. Qed.

(* ================================================================== *)
(** * Team names *)

Section TeamNames.

Lemma drop_no_space n : forall s, no_space s = true -> no_space (JS.drop n s) = true.
Proof.
  induction n as [|n IH]; intros [|c s] H; try assumption.
  cbn [JS.drop]. apply IH. cbn [no_space] in H. now apply andb_prop in H.
Qed.

Lemma take_drop n : forall s, (JS.take n s ++ JS.drop n s)%string = s.
Proof.
  induction n as [|n IH]; intros [|c s]; try reflexivity.
  cbn [JS.take JS.drop append]. now rewrite IH.
Qed.

(** The bytes that [space_width] counts are the encoding of one character
    of the class. *)
Lemma space_width_take s :
  (0 < JS.space_width s)%nat -> space_char (JS.take (JS.space_width s) s).
Proof.
  unfold space_char.
  destruct s as [|c s1]; [cbn; lia|].
  unfold JS.space_width at 1 2 4. cbv zeta.
  destruct ((9 <=? N_of_ascii c) && (N_of_ascii c <=? 13) || (N_of_ascii c =? 32))%N eqn:E1.
  { intros _. cbn [JS.take String.length]. split; [discriminate|].
    unfold JS.space_width. cbv zeta. now rewrite E1. }
  destruct s1 as [|c1 s2]; [lia|].
  destruct ((N_of_ascii c =? 194) && (N_of_ascii c1 =? 160))%N eqn:E2.
  { intros _. cbn [JS.take String.length]. split; [discriminate|].
    unfold JS.space_width. cbv zeta. now rewrite E1, E2. }
  destruct s2 as [|c2 s3]; [lia|].
  destruct (JS.three_byte_space (N_of_ascii c) (N_of_ascii c1) (N_of_ascii c2)) eqn:E3;
    [|lia].
  intros _. cbn [JS.take String.length]. split; [discriminate|].
  unfold JS.space_width. cbv zeta. now rewrite E1, E2, E3.
Qed.

Lemma strip_match_spec s :
  one_line s = true ->
  match JS.strip_match s with
  | Some r => (exists pre w, s = (pre ++ w ++ r)%string /\ space_char w)
              /\ no_space r = true
  | None => no_space s = true
  end.
Proof.
  induction s as [|c s IH]; [reflexivity|].
  intros H. cbn [one_line] in H. apply andb_prop in H as [Hc Hs].
  apply Nat.eqb_eq in Hc. specialize (IH Hs).
  cbn [JS.strip_match]. rewrite Hc. change (0 <? 0)%nat with false. cbv iota.
  destruct (JS.strip_match s) as [r|].
  - destruct IH as [(pre & w & -> & Hw) Hr]. split; [|assumption].
    exists (String c pre), w. auto.
  - destruct (0 <? JS.space_width (String c s))%nat eqn:E; cbv iota.
    + apply Nat.ltb_lt in E. split.
      * exists EmptyString, (JS.take (JS.space_width (String c s)) (String c s)).
        split; [|now apply space_width_take].
        cbn [append]. now rewrite take_drop.
      * destruct (JS.space_width (String c s)) as [|n]; [lia|].
        cbn [JS.drop]. now apply drop_no_space.
    + apply Nat.ltb_ge in E. cbn [no_space].
      replace (JS.space_width (String c s)) with 0%nat by lia. assumption.
Qed.

End TeamNames.

(** X2: for a team name without line terminator, the name kept by
    [convertToTeamFormat] is what follows the last character of the class
    [\s] of [TEAM_NAME] (the ASCII white space, the no-break space U+00A0,
    U+FEFF and the Unicode space separators): it holds no such character,
    the part cut off ends in one, and a name without any is kept whole. *)
Theorem X2_team_name_after_last_space :
  forall team : NBATeamStats.t,
    one_line (NBATeamStats.TEAM_NAME team) = true ->
    let kept := Team.name (RealNBADataService.toTeam team) in
    no_space kept = true
    /\ ((kept = NBATeamStats.TEAM_NAME team /\ no_space (NBATeamStats.TEAM_NAME team) = true)
        \/ exists pre w, NBATeamStats.TEAM_NAME team = (pre ++ w ++ kept)%string
                         /\ space_char w).
Proof.
  intros team H kept. unfold kept. cbn [RealNBADataService.toTeam Team.name].
  unfold JS.replace_to_last_space.
  pose proof (strip_match_spec _ H) as Hs.
  destruct (JS.strip_match (NBATeamStats.TEAM_NAME team)) as [r|].
  - destruct Hs as [(pre & w & E & Hw) Hr]. split; [assumption|].
    right. exists pre, w. auto.
  - split; [assumption|]. left. auto.
Qed.

Lemma X2_team_name_after_last_space_witness :
  let kept := Team.name (RealNBADataService.toTeam blazers) in
  (no_space kept = true
   /\ ((kept = NBATeamStats.TEAM_NAME blazers
        /\ no_space (NBATeamStats.TEAM_NAME blazers) = true)
       \/ exists pre w, NBATeamStats.TEAM_NAME blazers = (pre ++ w ++ kept)%string
                        /\ space_char w))
  /\ kept = "Blazers"%string.
Proof.
  split; [|reflexivity].
  apply (X2_team_name_after_last_space blazers). reflexivity.
Defined.

(* ================================================================== *)
(** * The simulated prediction and the random draws *)

Section Draws.

Import RealNBADataService.

Variable rnd : nat -> JS.number.

Lemma toPlayer_draws p k : snd (toPlayer rnd p k) = S (S k).
Proof. reflexivity. Qed.

Lemma mapM_toPlayer l : forall k,
  snd (JS.mapM (toPlayer rnd) l k) = (k + 2 * List.length l)%nat
  /\ forall i, nth_error (fst (JS.mapM (toPlayer rnd) l k)) i
               = option_map (fun p => fst (toPlayer rnd p (k + 2 * i)%nat)) (nth_error l i).
Proof.
  induction l as [|p l IH]; intros k.
  - split; [simpl; lia | intros [|i]; reflexivity].
  - cbn [JS.mapM]. unfold JS.bind.
    destruct (toPlayer rnd p k) as [q k1] eqn:E.
    assert (Hk1 : k1 = S (S k)) by (rewrite <- (toPlayer_draws p k), E; reflexivity).
    destruct (IH k1) as [Hs Hn].
    destruct (JS.mapM (toPlayer rnd) l k1) as [qs k2]. cbn [fst snd JS.ret] in *.
    split; [simpl; lia|].
    intros [|i]; cbn [nth_error option_map].
    + rewrite Nat.mul_0_r, Nat.add_0_r, E. reflexivity.
    + rewrite Hn. subst k1.
      replace (S (S k) + 2 * i)%nat with (k + 2 * S i)%nat by lia. reflexivity.
Qed.

End Draws.

(** X3: the simulated prediction of [generateMLPrediction] is [NaN] or a
    number in [0, 40], never an infinity; it takes exactly one random draw
    and does not depend on the actual PER it is given. *)
Theorem X3_generateMLPrediction_range :
  forall (rnd : nat -> JS.number) (player : NBAPlayerStats) (actualPER other : JS.number)
         (k : nat),
    let v := fst (RealNBADataService.generateMLPrediction rnd player actualPER k) in
    (v = nan \/ in_0_40 v = true)
    /\ is_infinity v = false
    /\ snd (RealNBADataService.generateMLPrediction rnd player actualPER k) = S k
    /\ RealNBADataService.generateMLPrediction rnd player other k
       = RealNBADataService.generateMLPrediction rnd player actualPER k.
Proof.
  intros rnd player a other k v.
  assert (Hv : exists x, v = clamp x) by (eexists; reflexivity).
  destruct Hv as [x ->].
  destruct (clamp_spec x) as [[_ Hc]|(_ & H0 & H40)].
  - rewrite Hc. repeat split. now left.
  - pose proof (in_range_finite _ H0 H40) as Hf.
    unfold is_finite in Hf. apply negb_true_iff, orb_false_iff in Hf.
    repeat split; [|apply Hf]. right. unfold in_0_40. now rewrite H0, H40.
Qed.

(** X4: [convertToPlayerFormat] makes exactly two random draws for each
    record with more than 10 games and none for the others: the [i]-th
    kept record, in input order, gets its prediction from draw [k + 2i] and
    its position from draw [k + 2i + 1]. *)
Theorem X4_convertToPlayerFormat_draws :
  forall (rnd : nat -> JS.number) (nbaPlayers : list NBAPlayerStats) (k : nat),
    let kept := filter (fun p => 10 <? GP p) nbaPlayers in
    snd (RealNBADataService.convertToPlayerFormat rnd nbaPlayers k)
    = (k + 2 * List.length kept)%nat
    /\ forall i, nth_error (fst (RealNBADataService.playerRecords rnd nbaPlayers k)) i
                 = option_map
                     (fun p => fst (RealNBADataService.toPlayer rnd p (k + 2 * i)%nat))
                     (nth_error kept i).
Proof.
  intros rnd l k kept.
  destruct (mapM_toPlayer rnd kept k) as [Hs Hn]. split.
  - unfold RealNBADataService.convertToPlayerFormat, JS.bind,
      RealNBADataService.playerRecords.
    change (filter RealNBADataService.admitted l) with kept.
    destruct (JS.mapM (RealNBADataService.toPlayer rnd) kept k). exact Hs.
  - exact Hn.
Qed.

(* ================================================================== *)
(** * The team list *)

Section Teams.

Import RealNBADataService.

Lemma round_pct_not_nan x : is_finite x = true -> is_nan (round_pct x) = false.
Proof.
  intros H. unfold round_pct.
  apply (div_finite_not_nan _ _ false 5629499534213120 (-49)%Z); [reflexivity|].
  apply Math_round_not_nan. now apply mul_finite_not_nan.
Qed.

End Teams.

(** X5: [convertToTeamFormat] returns one Team for each row, the converted
    rows in another order; when every [W_PCT] is finite the list is sorted
    by [winPercentage] in descending order and teams of equal
    [winPercentage] keep the order of the rows. *)
Theorem X5_convertToTeamFormat_sorted :
  forall nbaTeams : list NBATeamStats.t,
    let out := RealNBADataService.convertToTeamFormat nbaTeams in
    Permutation out (map RealNBADataService.toTeam nbaTeams)
    /\ List.length out = List.length nbaTeams
    /\ ((forall t, In t nbaTeams -> is_finite (NBATeamStats.W_PCT t) = true) ->
        StronglySorted
          (fun a b => (Team.winPercentage b <=? Team.winPercentage a) = true) out
        /\ forall v, filter (fun t => Team.winPercentage t =? v) out
                     = filter (fun t => Team.winPercentage t =? v)
                         (map RealNBADataService.toTeam nbaTeams)).
Proof.
  intros l out.
  assert (Hp : Permutation out (map RealNBADataService.toTeam l))
    by apply (Array_sort_perm Team.winPercentage).
  split; [exact Hp|]. split.
  - rewrite (Permutation_length Hp). apply length_map.
  - intros Hfin.
    assert (Hnum : Forall (fun t => is_nan (Team.winPercentage t) = false)
                     (map RealNBADataService.toTeam l)).
    { apply Forall_forall. intros t Ht. apply in_map_iff in Ht as (r & <- & Hr).
      apply round_pct_not_nan. now apply Hfin. }
    split.
    + now apply (Array_sort_sorted Team.winPercentage).
    + intros v. now apply (Array_sort_stable Team.winPercentage).
Qed.

Lemma X5_convertToTeamFormat_sorted_witness :
  let out := RealNBADataService.convertToTeamFormat sample_league in
  (StronglySorted (fun a b => (Team.winPercentage b <=? Team.winPercentage a) = true) out
   /\ forall v, filter (fun t => Team.winPercentage t =? v) out
                = filter (fun t => Team.winPercentage t =? v)
                    (map RealNBADataService.toTeam sample_league))
  /\ map Team.name (map RealNBADataService.toTeam sample_league)
     = ["Lakers"; "Celtics"; "Clippers"; "Nuggets"; "Blazers"]%string
  /\ map Team.name out = ["Celtics"; "Nuggets"; "Lakers"; "Clippers"; "Blazers"]%string.
Proof.
  split; [|split; reflexivity].
  apply (proj2 (proj2 (X5_convertToTeamFormat_sorted sample_league))).
  intros t Ht. simpl in Ht.
  repeat (destruct Ht as [<-|Ht]; [reflexivity|]). destruct Ht.
Defined.

(* ================================================================== *)
(** * The overview figures, the table and the accuracy *)

Section Overview.

Lemma fold_better_max ts : forall t0,
  is_nan (Team.winPercentage t0) = false ->
  Forall (fun t => is_nan (Team.winPercentage t) = false) ts ->
  let top := fold_left App.better ts t0 in
  In top (t0 :: ts)
  /\ is_nan (Team.winPercentage top) = false
  /\ Forall (fun t => (Team.winPercentage t <=? Team.winPercentage top) = true) (t0 :: ts).
Proof.
  induction ts as [|t ts IH]; intros t0 H0 Hts; cbn [fold_left].
  - split; [now left|]. split; [assumption|].
    constructor; [|constructor].
    rewrite leb_cmp, SFcompare_refl; [reflexivity | now apply not_nan_spec].
  - inversion Hts as [|? ? Ht Hts']; subst.
    assert (Hb : is_nan (Team.winPercentage (App.better t0 t)) = false
                 /\ (Team.winPercentage t0 <=? Team.winPercentage (App.better t0 t)) = true
                 /\ (Team.winPercentage t <=? Team.winPercentage (App.better t0 t)) = true
                 /\ (App.better t0 t = t0 \/ App.better t0 t = t)).
    { unfold App.better.
      destruct (Team.winPercentage t <? Team.winPercentage t0) eqn:E.
      - repeat split; auto using ltb_leb.
        rewrite leb_cmp, SFcompare_refl; [reflexivity | now apply not_nan_spec].
      - repeat split; auto using not_ltb_geb.
        rewrite leb_cmp, SFcompare_refl; [reflexivity | now apply not_nan_spec]. }
    destruct Hb as (Hn & Hle0 & Hlet & Hsel).
    destruct (IH (App.better t0 t) Hn Hts') as (Hin & Hnt & Hall).
    inversion Hall as [|? ? Hb Hrest]; subst.
    split; [|split; [assumption|]].
    + destruct Hin as [<-|Hin]; [|now right; right].
      destruct Hsel as [->| ->]; [now left | now right; left].
    + constructor; [eapply leb_trans; eassumption|].
      constructor; [eapply leb_trans; eassumption | assumption].
Qed.

End Overview.

(** X6: [getOverviewStats] throws exactly when there are players but no
    team (the [reduce] without initial value meets the empty array); with no
    player it returns the placeholder figures whatever the teams are. *)
Theorem X6_getOverviewStats_throws :
  forall (players : list Player) (teams : list Team.t),
    ((exists e, App.getOverviewStats players teams = JS.Thrown e)
     <-> players <> [] /\ teams = [])
    /\ (players = [] ->
        App.getOverviewStats players teams
        = JS.Returned {| App.totalPoints := 0; App.avgPER := 0;
                         App.topTeam := "Loading..."; App.totalGames := 0 |}).
Proof.
  intros players teams. split.
  - unfold App.getOverviewStats.
    destruct players as [|p ps]; cbn [List.length Nat.eqb].
    + split; [intros [e H]; discriminate H | intros [H _]; congruence].
    + destruct teams as [|t ts]; cbn [Array_reduce_no_init].
      * split; [intros _; split; [discriminate | reflexivity] | intros _; eauto].
      * split; [intros [e H]; discriminate H | intros [_ H]; discriminate H].
  - intros ->. reflexivity.
Qed.

(** X7: when there are players and teams and no [winPercentage] is [NaN],
    the top team shown by [getOverviewStats] is a team of the list whose
    [winPercentage] no other team exceeds ([N/A] when its name is empty),
    and the total of games adds the wins and losses of every team. *)
Theorem X7_getOverviewStats_top_team :
  forall (players : list Player) (teams : list Team.t),
    players <> [] -> teams <> [] ->
    Forall (fun t => is_nan (Team.winPercentage t) = false) teams ->
    exists top stats,
      App.getOverviewStats players teams = JS.Returned stats
      /\ In top teams
      /\ Forall (fun t => (Team.winPercentage t <=? Team.winPercentage top) = true) teams
      /\ App.topTeam stats = (if String.eqb (Team.name top) "" then "N/A" else Team.name top)%string
      /\ App.totalGames stats
         = fold_left (fun sum team => sum + Team.wins team + Team.losses team) teams 0.
Proof.
  intros players teams Hp Ht Hn.
  destruct players as [|p ps]; [congruence|].
  destruct teams as [|t0 ts]; [congruence|].
  inversion Hn as [|? ? H0 Hts]; subst.
  destruct (fold_better_max ts t0 H0 Hts) as (Hin & _ & Hall).
  exists (fold_left App.better ts t0). eexists.
  split; [reflexivity|]. repeat split; assumption.
Qed.

Lemma X7_getOverviewStats_top_team_witness :
  let players := fst (RealNBADataService.convertToPlayerFormat low_draws [sample] 0%nat) in
  let teams := map RealNBADataService.toTeam sample_league in
  exists top stats,
    (App.getOverviewStats players teams = JS.Returned stats
     /\ In top teams
     /\ Forall (fun t => (Team.winPercentage t <=? Team.winPercentage top) = true) teams
     /\ App.topTeam stats
        = (if String.eqb (Team.name top) "" then "N/A" else Team.name top)%string
     /\ App.totalGames stats
        = fold_left (fun sum team => sum + Team.wins team + Team.losses team) teams 0)
    /\ List.length teams = 5%nat
    /\ App.topTeam stats = "Celtics"%string.
Proof.
  intros players teams.
  destruct (X7_getOverviewStats_top_team players teams) as (top & stats & H).
  - vm_compute. discriminate.
  - vm_compute. discriminate.
  - vm_compute. repeat constructor.
  - exists top, stats. split; [exact H|]. split; [reflexivity|].
    destruct H as (H & _). vm_compute in H. injection H as <-. reflexivity.
Defined.

(* ================================================================== *)
(** * Loading the data *)

Section Loading.

Import RealNBADataService.

Lemma fetchPlayerData_returns season w this :
  value (fetchPlayerData season w this) = JS.Returned (returned (value (fetchPlayerData season w this))).
Proof.
  unfold fetchPlayerData.
  destruct (fresh _ _ this).
  - now destruct (convertToPlayerFormat (rnd w) (playerStatsCache this) (drawn w)).
  - destruct (request w) as [rows|msg]; cbn [getPlayerStats]; [|reflexivity].
    now destruct (convertToPlayerFormat (rnd w) rows (drawn w)).
Qed.

Lemma fetchTeamData_returns season w this :
  value (fetchTeamData season w this) = JS.Returned (returned (value (fetchTeamData season w this))).
Proof.
  unfold fetchTeamData.
  destruct (fresh _ _ this); [reflexivity|].
  now destruct (request w) as [rows|msg].
Qed.

Lemma convertToPlayerFormat_length rnd l k :
  List.length (fst (convertToPlayerFormat rnd l k)) = List.length (filter admitted l).
Proof.
  rewrite (Permutation_length (convertToPlayerFormat_perm rnd l k)).
  rewrite <- (length_map player_key), playerRecords_keys. apply length_map.
Qed.

Lemma loadNBAData_hasError order wp wt now app :
  App.hasError (App.loadNBAData order wp wt now app) = false.
Proof.
  unfold App.loadNBAData. cbv zeta.
  rewrite (fetchPlayerData_returns "2023-24" wp (App.service app)).
  rewrite (fetchTeamData_returns "2023-24" wt (App.service app)).
  reflexivity.
Qed.

End Loading.

(** X8: [loadNBAData] never ends in its error branch: whatever the two
    requests do, also when they fail, it clears [isLoading], leaves
    [hasError] false, stamps [lastUpdated] and shows the lists the two
    fetches resolved to, each computed on the service as it was before the
    load. *)
Theorem X8_loadNBAData_no_error :
  forall (order : bool) (wp : RealNBADataService.world NBAPlayerStats)
         (wt : RealNBADataService.world NBATeamStats.t) (now : Z) (app : App.state),
    let app' := App.loadNBAData order wp wt now app in
    App.hasError app' = false
    /\ App.isLoading app' = false
    /\ App.lastUpdated app' = Some now
    /\ App.players app'
       = returned (RealNBADataService.value
                     (RealNBADataService.fetchPlayerData "2023-24" wp (App.service app)))
    /\ App.teams app'
       = returned (RealNBADataService.value
                     (RealNBADataService.fetchTeamData "2023-24" wt (App.service app))).
Proof.
  intros order wp wt now app. unfold App.loadNBAData. cbv zeta.
  rewrite (fetchPlayerData_returns "2023-24" wp (App.service app)).
  rewrite (fetchTeamData_returns "2023-24" wt (App.service app)).
  repeat split.
Qed.

(** X9: a load in which the players request brings at least one record
    with more than 10 games and the teams request fails shows players, no
    team and no error, and on that state [getOverviewStats] throws. *)
Theorem X9_failed_teams_break_overview :
  forall (order : bool) (wp : RealNBADataService.world NBAPlayerStats)
         (wt : RealNBADataService.world NBATeamStats.t) (now : Z) (app : App.state)
         (rows : list NBAPlayerStats) (p : NBAPlayerStats) (msg : string),
    RealNBADataService.fresh
      (List.length (RealNBADataService.playerStatsCache (App.service app)))
      (RealNBADataService.now_check wp) (App.service app) = false ->
    RealNBADataService.fresh
      (List.length (RealNBADataService.teamStatsCache (App.service app)))
      (RealNBADataService.now_check wt) (App.service app) = false ->
    RealNBADataService.request wp = JS.Returned rows ->
    In p rows -> (10 <? GP p) = true ->
    RealNBADataService.request wt = JS.Thrown msg ->
    let app' := App.loadNBAData order wp wt now app in
    App.hasError app' = false
    /\ App.players app' <> []
    /\ App.teams app' = []
    /\ exists e, App.getOverviewStats (App.players app') (App.teams app') = JS.Thrown e.
Proof.
  intros order wp wt now app rows p msg Hfp Hft Hwp Hp Hgp Hwt app'.
  assert (Hplayers : App.players app'
            = fst (RealNBADataService.convertToPlayerFormat
                     (RealNBADataService.rnd wp) rows (RealNBADataService.drawn wp))).
  { unfold app', App.loadNBAData. cbv zeta.
    rewrite (fetchPlayerData_returns "2023-24" wp (App.service app)).
    rewrite (fetchTeamData_returns "2023-24" wt (App.service app)).
    cbn [App.players].
    destruct (fetchPlayerData_miss "2023-24" wp _ Hfp) as (_ & Hv & _).
    rewrite Hwp in Hv. now rewrite Hv. }
  assert (Hteams : App.teams app' = []).
  { unfold app', App.loadNBAData. cbv zeta.
    rewrite (fetchPlayerData_returns "2023-24" wp (App.service app)).
    rewrite (fetchTeamData_returns "2023-24" wt (App.service app)).
    cbn [App.teams].
    destruct (fetchTeamData_miss "2023-24" wt _ Hft) as (_ & Hv & _).
    rewrite Hwt in Hv. now rewrite Hv. }
  assert (Hne : App.players app' <> []).
  { rewrite Hplayers. intros E.
    apply (f_equal (@List.length Player)) in E.
    rewrite convertToPlayerFormat_length in E. simpl in E.
    assert (Hin : In p (filter RealNBADataService.admitted rows))
      by (apply filter_In; now split).
    destruct (filter RealNBADataService.admitted rows); [destruct Hin | discriminate E]. }
  split; [apply loadNBAData_hasError|].
  split; [exact Hne|]. split; [exact Hteams|].
  rewrite Hteams. unfold App.getOverviewStats.
  destruct (App.players app'); [congruence|]. cbn. eauto.
Qed.

Lemma X9_failed_teams_break_overview_witness :
  let app := {| App.players := []; App.teams := []; App.isLoading := true;
                App.hasError := false; App.lastUpdated := None;
                App.service := RealNBADataService.init |} in
  let app' := App.loadNBAData true
                (at_time 1000 (JS.Returned [sample]) low_draws)
                (at_time 1000 (JS.Thrown (api_error "leaguedashteamstats")) low_draws)
                2000 app in
  App.hasError app' = false
  /\ App.players app' <> []
  /\ App.teams app' = []
  /\ exists e, App.getOverviewStats (App.players app') (App.teams app') = JS.Thrown e.
Proof.
  apply (X9_failed_teams_break_overview true
           (at_time 1000 (JS.Returned [sample]) low_draws)
           (at_time 1000 (JS.Thrown (api_error "leaguedashteamstats")) low_draws)
           2000 _ [sample] sample (api_error "leaguedashteamstats"));
    try reflexivity.
  now left.
Defined.

(* ================================================================== *)
(** * The table *)

Section Table.

Lemma StronglySorted_split {A : Type} (R : A -> A -> Prop) n l :
  StronglySorted R l ->
  forall a b, In a (firstn n l) -> In b (skipn n l) -> R a b.
Proof.
  intros Hs. revert n. induction Hs as [|x l Hs IH Hx]; intros n a b Ha Hb.
  - destruct n; destruct Ha.
  - destruct n as [|n]; [destruct Ha|]. simpl in Ha, Hb.
    destruct Ha as [<-|Ha].
    + rewrite Forall_forall in Hx. apply Hx.
      rewrite <- (firstn_skipn n l). apply in_or_app. now right.
    + now apply (IH n).
Qed.

End Table.

(** X10: the table shows the first ten players of the list it is given; on
    the list returned by [convertToPlayerFormat] for records of finite PER
    these are ten players of highest [per]: no player left out has a
    higher [per] than a player shown. *)
Theorem X10_PlayerTable_top_ten :
  forall (rnd : nat -> JS.number) (nbaPlayers : list NBAPlayerStats) (k : nat),
    let out := fst (RealNBADataService.convertToPlayerFormat rnd nbaPlayers k) in
    (forall p, In p nbaPlayers -> (10 <? GP p) = true ->
               is_finite (calculatePER p) = true) ->
    List.length (PlayerTable_rows out) = Nat.min 10 (List.length out)
    /\ forall shown hidden,
         In shown (PlayerTable_rows out) -> In hidden (skipn 10 out) ->
         (per hidden <=? per shown) = true.
Proof.
  intros rnd l k out Hfin. split; [apply length_firstn|].
  assert (Hnum : Forall (fun q => is_nan (per q) = false)
                   (fst (RealNBADataService.playerRecords rnd l k))).
  { apply Forall_forall. intros q Hq.
    apply playerRecords_origin in Hq as (p & k' & Hp & Hgp & ->).
    apply round1_not_nan. now apply Hfin. }
  assert (Hs : StronglySorted (fun a b => (per b <=? per a) = true) out).
  { unfold out. rewrite convertToPlayerFormat_fst. now apply (Array_sort_sorted per). }
  intros shown hidden Ha Hb.
  exact (StronglySorted_split _ 10 out Hs shown hidden Ha Hb).
Qed.

Lemma X10_PlayerTable_top_ten_witness :
  let out := fst (RealNBADataService.convertToPlayerFormat low_draws sample_roster 0%nat) in
  (List.length (PlayerTable_rows out) = Nat.min 10 (List.length out)
   /\ forall shown hidden,
        In shown (PlayerTable_rows out) -> In hidden (skipn 10 out) ->
        (per hidden <=? per shown) = true)
  /\ map name (PlayerTable_rows out)
     = ["5"; "8"; "10"; "12"; "15"; "19"; "22"; "24"; "27"; "29"]%string
  /\ map (fun q => (name q, per q)) (skipn 10 out) = [("31"%string, 9.5); ("35"%string, 8.4)].
Proof.
  split; [|split; reflexivity].
  apply (X10_PlayerTable_top_ten low_draws sample_roster 0%nat).
  intros p Hp _. simpl in Hp.
  repeat (destruct Hp as [<-|Hp]; [vm_compute; reflexivity|]). destruct Hp.
Defined.

(* ================================================================== *)
(** * Several seasons *)

Section Seasons.

Import RealNBADataService.

Lemma season_step_hit acc season wp wt :
  playerStatsCache (Historical.service acc) <> [] ->
  teamStatsCache (Historical.service acc) <> [] ->
  (now_check wp - lastFetchTime (Historical.service acc) < CACHE_DURATION)%Z ->
  (now_check wt - lastFetchTime (Historical.service acc) < CACHE_DURATION)%Z ->
  let acc' := Historical.season_step acc (season, wp, wt) in
  Historical.service acc' = Historical.service acc
  /\ Historical.calls acc' = Historical.calls acc
  /\ Historical.teams acc'
     = (Historical.teams acc
        ++ convertToTeamFormat (teamStatsCache (Historical.service acc)))%list
  /\ List.length (Historical.players acc')
     = (List.length (Historical.players acc)
        + List.length (filter admitted (playerStatsCache (Historical.service acc))))%nat.
Proof.
  intros Hp Ht Hwp Hwt. unfold Historical.season_step. cbv zeta.
  set (w := Historical.after_draws (Historical.draws acc) wp).
  destruct (fetchPlayerData_hit season w (Historical.service acc)
              (fresh_nonempty _ (now_check w) _ Hp Hwp)) as (Hs & Hv & Hc).
  rewrite Hv, Hs, Hc.
  set (w' := Historical.after_draws _ wt).
  destruct (fetchTeamData_hit season w' (Historical.service acc)
              (fresh_nonempty _ (now_check w') _ Ht Hwt)) as (Hs' & Hv' & Hc').
  rewrite Hv', Hs', Hc'.
  cbn [Historical.service Historical.calls Historical.teams Historical.players].
  rewrite !app_nil_r. repeat split.
  rewrite length_app. f_equal. apply convertToPlayerFormat_length.
Qed.

Lemma fold_season_step_hits rest : forall acc,
  playerStatsCache (Historical.service acc) <> [] ->
  teamStatsCache (Historical.service acc) <> [] ->
  Forall (fun s =>
            (now_check (snd (fst s)) - lastFetchTime (Historical.service acc)
             < CACHE_DURATION)%Z
            /\ (now_check (snd s) - lastFetchTime (Historical.service acc)
                < CACHE_DURATION)%Z) rest ->
  let r := fold_left Historical.season_step rest acc in
  Historical.service r = Historical.service acc
  /\ Historical.calls r = Historical.calls acc
  /\ Historical.teams r
     = (Historical.teams acc
        ++ List.concat (repeat (convertToTeamFormat (teamStatsCache (Historical.service acc)))
                     (List.length rest)))%list
  /\ List.length (Historical.players r)
     = (List.length (Historical.players acc)
        + List.length rest
          * List.length (filter admitted (playerStatsCache (Historical.service acc))))%nat.
Proof.
  induction rest as [|[[season wp] wt] rest IH]; intros acc Hp Ht Hall.
  - cbn. rewrite app_nil_r. repeat split. lia.
  - inversion Hall as [|? ? [Hwp Hwt] Hrest]; subst. cbn [fst snd] in *.
    destruct (season_step_hit acc season wp wt Hp Ht Hwp Hwt) as (Hs & Hc & Hte & Hpl).
    cbn [fold_left].
    set (acc' := Historical.season_step acc (season, wp, wt)) in *.
    destruct (IH acc') as (Hs2 & Hc2 & Hte2 & Hpl2); rewrite ?Hs; try assumption.
    cbv zeta. rewrite Hs2, Hc2, Hte2, Hpl2, Hs, Hc, Hte, Hpl.
    repeat split.
    + cbn [List.length repeat List.concat]. now rewrite <- app_assoc.
    + cbn [List.length]. lia.
Qed.

End Seasons.

(** X11: [fetchHistoricalData] on a service with empty caches asks the API
    for the first season only when that season brings players and teams and
    the later calls come within [CACHE_DURATION] of its teams fetch: the
    cache is not keyed by season, so every later season is answered from
    the first season's rows, and each season contributes the same team list
    and as many players as the first. *)
Theorem X11_fetchHistoricalData_one_season :
  forall (season : string) (wp : RealNBADataService.world NBAPlayerStats)
         (wt : RealNBADataService.world NBATeamStats.t)
         (rest : list (string * RealNBADataService.world NBAPlayerStats
                       * RealNBADataService.world NBATeamStats.t))
         (this : RealNBADataService.t) (drawn : nat)
         (rowsP : list NBAPlayerStats) (rowsT : list NBATeamStats.t),
    RealNBADataService.playerStatsCache this = [] ->
    RealNBADataService.teamStatsCache this = [] ->
    RealNBADataService.request wp = JS.Returned rowsP -> rowsP <> [] ->
    RealNBADataService.request wt = JS.Returned rowsT -> rowsT <> [] ->
    Forall (fun s =>
              (RealNBADataService.now_check (snd (fst s)) - RealNBADataService.now_store wt
               < RealNBADataService.CACHE_DURATION)%Z
              /\ (RealNBADataService.now_check (snd s) - RealNBADataService.now_store wt
                  < RealNBADataService.CACHE_DURATION)%Z) rest ->
    let r := Historical.fetchHistoricalData ((season, wp, wt) :: rest) this drawn in
    Historical.calls r
    = [RealNBADataService.GetPlayerStats season; RealNBADataService.GetTeamStats season]
    /\ Historical.service r
       = {| RealNBADataService.playerStatsCache := rowsP;
            RealNBADataService.teamStatsCache := rowsT;
            RealNBADataService.lastFetchTime := RealNBADataService.now_store wt |}
    /\ Historical.teams r
       = List.concat (repeat (RealNBADataService.convertToTeamFormat rowsT)
                   (S (List.length rest)))
    /\ List.length (Historical.players r)
       = (S (List.length rest)
          * List.length (filter RealNBADataService.admitted rowsP))%nat.
Proof.
  intros season wp wt rest this drawn rowsP rowsT Hcp Hct Hwp HrP Hwt HrT Hall r.
  unfold r, Historical.fetchHistoricalData. cbn [fold_left].
  set (acc0 := {| Historical.players := []; Historical.teams := [];
                  Historical.service := this; Historical.calls := [];
                  Historical.draws := drawn |}).
  assert (H1 : let acc1 := Historical.season_step acc0 (season, wp, wt) in
               Historical.service acc1
               = {| RealNBADataService.playerStatsCache := rowsP;
                    RealNBADataService.teamStatsCache := rowsT;
                    RealNBADataService.lastFetchTime := RealNBADataService.now_store wt |}
               /\ Historical.calls acc1
                  = [RealNBADataService.GetPlayerStats season;
                     RealNBADataService.GetTeamStats season]
               /\ Historical.teams acc1 = RealNBADataService.convertToTeamFormat rowsT
               /\ List.length (Historical.players acc1)
                  = List.length (filter RealNBADataService.admitted rowsP)).
  { unfold Historical.season_step. cbv zeta. cbn [Historical.service Historical.draws acc0].
    set (w := Historical.after_draws drawn wp).
    assert (Hf : RealNBADataService.fresh
                   (List.length (RealNBADataService.playerStatsCache this))
                   (RealNBADataService.now_check w) this = false)
      by (rewrite Hcp; reflexivity).
    destruct (fetchPlayerData_miss season w this Hf) as (Hs & Hv & Hc).
    cbn [w Historical.after_draws RealNBADataService.request
         RealNBADataService.now_store RealNBADataService.rnd
         RealNBADataService.drawn] in Hs, Hv.
    rewrite Hwp in Hs, Hv. rewrite Hv, Hs, Hc.
    set (st := {| RealNBADataService.playerStatsCache := rowsP;
                  RealNBADataService.teamStatsCache := _;
                  RealNBADataService.lastFetchTime := _ |}).
    set (w' := Historical.after_draws _ wt).
    assert (Hf' : RealNBADataService.fresh
                    (List.length (RealNBADataService.teamStatsCache st))
                    (RealNBADataService.now_check w') st = false)
      by (cbn [st RealNBADataService.teamStatsCache]; rewrite Hct; reflexivity).
    destruct (fetchTeamData_miss season w' st Hf') as (Hs' & Hv' & Hc').
    cbn [w' Historical.after_draws RealNBADataService.request
         RealNBADataService.now_store] in Hs', Hv'.
    rewrite Hwt in Hs', Hv'. rewrite Hv', Hs', Hc'.
    cbn [Historical.service Historical.calls Historical.teams Historical.players
         st RealNBADataService.playerStatsCache app].
    repeat split. apply convertToPlayerFormat_length. }
  cbv zeta in H1. destruct H1 as (Hs1 & Hc1 & Ht1 & Hp1).
  set (acc1 := Historical.season_step acc0 (season, wp, wt)) in *.
  destruct (fold_season_step_hits rest acc1) as (Hs & Hc & Hte & Hpl);
    rewrite ?Hs1; cbn [RealNBADataService.playerStatsCache
                       RealNBADataService.teamStatsCache
                       RealNBADataService.lastFetchTime]; try assumption.
  rewrite Hs, Hc, Hte, Hpl, Hs1, Hc1, Ht1, Hp1.
  cbn [RealNBADataService.playerStatsCache RealNBADataService.teamStatsCache
       repeat List.concat].
  repeat split.
Qed.

Lemma X11_fetchHistoricalData_one_season_witness :
  let r := Historical.fetchHistoricalData
             [("2022-23"%string, at_time 0 (JS.Returned [sample]) low_draws,
               at_time 10 (JS.Returned [sample_team]) low_draws);
              ("2023-24"%string, at_time 1010 (JS.Returned [scorer; starter]) low_draws,
               at_time 1020 (JS.Returned []) low_draws)]
             RealNBADataService.init 0 in
  Historical.calls r
  = [RealNBADataService.GetPlayerStats "2022-23"; RealNBADataService.GetTeamStats "2022-23"]
  /\ Historical.service r
     = {| RealNBADataService.playerStatsCache := [sample];
          RealNBADataService.teamStatsCache := [sample_team];
          RealNBADataService.lastFetchTime := 10 |}
  /\ Historical.teams r
     = List.concat (repeat (RealNBADataService.convertToTeamFormat [sample_team]) 2)
  /\ List.length (Historical.players r)
     = (2 * List.length (filter RealNBADataService.admitted [sample]))%nat.
Proof.
  apply (X11_fetchHistoricalData_one_season "2022-23"
           (at_time 0 (JS.Returned [sample]) low_draws)
           (at_time 10 (JS.Returned [sample_team]) low_draws)
           [("2023-24"%string, at_time 1010 (JS.Returned [scorer; starter]) low_draws,
             at_time 1020 (JS.Returned []) low_draws)]
           RealNBADataService.init 0 [sample] [sample_team]);
    try reflexivity; try discriminate.
  repeat constructor.
Defined.

(* ================================================================== *)
(** * Rounding is monotone *)

Section Monotone.

Local Open Scope Z_scope.

(** The two shifts of [binary_round_aux] on a mantissa that loses bits:
    the result is a zero or a finite number (an infinity past [emax]) whose
    value is the shifted mantissa, moved up by one at most and only when
    bits were lost. *)
Lemma binary_round_aux_shape M E :
  let d := Zpos (digits2_pos M) in
  let e1 := Z.max (d + E - 53) (-1074) in
  0 < e1 - E ->
  binary_round_aux prec emax false (Zpos M) E loc_Exact = S754_zero false
  \/ exists m'' e'' q',
    (binary_round_aux prec emax false (Zpos M) E loc_Exact
     = if e'' <=? emax - prec then S754_finite false m'' e'' else S754_infinity false)
    /\ Zpos m'' * 2 ^ (e'' - E) = q' * 2 ^ (e1 - E)
    /\ e1 <= e''
    /\ Zpos m'' < 2 ^ 53
    /\ (2 ^ 52 <= Zpos m'' \/ e'' = -1074)
    /\ (q' = Zpos M / 2 ^ (e1 - E)
        \/ (q' = Zpos M / 2 ^ (e1 - E) + 1
            /\ Zpos M / 2 ^ (e1 - E) * 2 ^ (e1 - E) < Zpos M)).
Proof.
  intros d e1 Hn.
  pose proof (digits2_pos_bounds M) as Hd. fold d in Hd.
  remember (binary_round_aux prec emax false (Zpos M) E loc_Exact) as R eqn:ER.
  unfold binary_round_aux in ER. unfold shr_fexp at 1 in ER.
  rewrite fexp_eq in ER. unfold shr at 1 in ER.
  cbn [Zdigits2] in ER. fold d in ER. fold e1 in ER.
  destruct (e1 - E) as [|n|n] eqn:En; try lia.
  cbn [shr_record_of_loc] in ER.
  pose proof (round_nearest_even_shr M n) as Hr. cbv zeta in Hr.
  set (mrs1 := iter_pos shr_1 n _) in *.
  set (q := Zpos M / 2 ^ Zpos n) in *.
  replace (E + Zpos n) with e1 in ER by lia.
  assert (Hpn : 0 < 2 ^ Zpos n) by (apply Z.pow_pos_nonneg; lia).
  assert (Hq0 : 0 <= q) by (apply Z.div_pos; lia).
  assert (Hq53 : q < 2 ^ 53).
  { apply Z.div_lt_upper_bound; [assumption|].
    apply Z.lt_le_trans with (2 ^ d); [apply Hd|].
    rewrite <- Z.pow_add_r by lia. apply Z.pow_le_mono_r; lia. }
  assert (Hlow : 2 ^ 52 <= q \/ e1 = -1074).
  { destruct (Z.eq_dec e1 (-1074)) as [|Hne]; [now right|]. left.
    assert (Hnd : Zpos n = d - 53) by lia.
    apply Z.div_le_lower_bound; [assumption|].
    apply Z.le_trans with (2 ^ (d - 1)); [|apply Hd].
    rewrite <- Z.pow_add_r by lia. apply Z.pow_le_mono_r; lia. }
  assert (He1 : -1074 <= e1) by (unfold e1; lia).
  unfold shr_fexp, shr in ER. rewrite fexp_eq in ER.
  destruct (round_nearest_even (shr_m mrs1) (loc_of_shr_record mrs1))
    as [|pq|pq] eqn:Eq'.
  - left. cbn [Zdigits2 shr_record_of_loc] in ER.
    destruct (Z.max (0 + e1 - 53) (-1074) - e1) eqn:E2; try lia; exact ER.
  - right. cbn [Zdigits2 shr_record_of_loc] in ER.
    pose proof (digits2_pos_bounds pq) as Hd'.
    set (d' := Zpos (digits2_pos pq)) in *.
    assert (Hq'le : Zpos pq <= 2 ^ 53) by (destruct Hr as [Hr|[Hr _]]; lia).
    destruct (Z.eq_dec (Zpos pq) (2 ^ 53)) as [Ecarry|Ecarry].
    + assert (Hd54 : d' = 54).
      { assert (d' - 1 < 54).
        { apply pow2_lt_exp; [lia|]. apply Z.le_lt_trans with (Zpos pq); [apply Hd'|].
          rewrite Ecarry. reflexivity. }
        assert (53 < d').
        { apply pow2_lt_exp; [lia|]. rewrite <- Ecarry. apply Hd'. }
        lia. }
      replace (Z.max (d' + e1 - 53) (-1074) - e1) with 1 in ER by lia.
      cbn [iter_pos] in ER. rewrite Ecarry in ER.
      change (shr_m (shr_1 {| shr_m := 2 ^ 53; shr_r := false; shr_s := false |}))
        with (Zpos 4503599627370496) in ER.
      cbv iota in ER.
      exists 4503599627370496%positive, (e1 + 1), (Zpos pq).
      split; [exact ER|]. split.
      { replace (e1 + 1 - E) with (1 + Zpos n) by lia.
        rewrite Z.pow_add_r by lia. rewrite Ecarry.
        change (2 ^ 1) with 2. change (2 ^ 53) with 9007199254740992. lia. }
      split; [lia|]. split; [reflexivity|]. split; [left; reflexivity|].
      exact Hr.
    + assert (Hd53 : d' <= 53).
      { assert (d' - 1 < 53); [|lia].
        apply pow2_lt_exp; [lia|]. apply Z.le_lt_trans with (Zpos pq); [apply Hd'|]. lia. }
      assert (ER' : R = if e1 <=? emax - prec then S754_finite false pq e1
                        else S754_infinity false).
      { destruct (Z.max (d' + e1 - 53) (-1074) - e1) eqn:E2; try lia; exact ER. }
      exists pq, e1, (Zpos pq).
      split; [exact ER'|]. split; [rewrite En; reflexivity|]. split; [lia|].
      split; [lia|]. split.
      { destruct Hlow as [Hlow|Hlow]; [left|now right].
        destruct Hr as [Hr|[Hr _]]; lia. }
      exact Hr.
  - exfalso. destruct Hr as [Hr|[Hr _]]; lia.
Qed.

(** When the first shift is above the smallest exponent the shifted
    mantissa keeps 53 bits. *)
Lemma first_shift_low M E :
  let d := Zpos (digits2_pos M) in
  let e1 := Z.max (d + E - 53) (-1074) in
  0 < e1 - E -> 2 ^ 52 <= Zpos M / 2 ^ (e1 - E) \/ e1 = -1074.
Proof.
  intros d e1 Hn.
  pose proof (digits2_pos_bounds M) as Hd. fold d in Hd.
  destruct (Z.eq_dec e1 (-1074)) as [|Hne]; [now right|]. left.
  assert (Hnd : e1 - E = d - 53) by lia.
  apply Z.div_le_lower_bound; [apply Z.pow_pos_nonneg; lia|].
  apply Z.le_trans with (2 ^ (d - 1)); [|apply Hd].
  rewrite <- Z.pow_add_r by lia. apply Z.pow_le_mono_r; lia.
Qed.

(** Rounding to nearest is monotone against a representable bound: an
    exact value [M * 2^E] that is at most the valid number [mb * 2^eb]
    rounds to a number that is at most [mb * 2^eb]. *)
Lemma binary_round_aux_le M E mb eb lo :
  let d := Zpos (digits2_pos M) in
  let e1 := Z.max (d + E - 53) (-1074) in
  0 < e1 - E ->
  valid_binary (S754_finite false mb eb) = true ->
  lo <= E -> lo <= eb ->
  Zpos M * 2 ^ (E - lo) <= Zpos mb * 2 ^ (eb - lo) ->
  SFleb (S754_zero false) (binary_round_aux prec emax false (Zpos M) E loc_Exact) = true
  /\ SFleb (binary_round_aux prec emax false (Zpos M) E loc_Exact)
           (S754_finite false mb eb) = true.
Proof.
  intros d e1 Hn Hb HloE Hlob Hle.
  assert (Hbound : eb <= emax - prec).
  { unfold SpecFloat.valid_binary, bounded in Hb.
    apply andb_prop in Hb as [_ Hb]. now apply Z.leb_le in Hb. }
  apply valid_finite_bounds in Hb as (Heb & Hmb & Hnb).
  pose proof (first_shift_low M E Hn) as Hlow. fold d e1 in Hlow.
  destruct (binary_round_aux_shape M E Hn) as [->|(m'' & e'' & q' & -> & Hval & He & Hm & Hcan & Hq)];
    [split; reflexivity|].
  fold d e1 in Hval, He, Hq.
  set (n := e1 - E) in *. set (q := Zpos M / 2 ^ n) in *.
  assert (Hpn : 0 < 2 ^ n) by (apply Z.pow_pos_nonneg; lia).
  assert (HpE : 0 < 2 ^ (E - lo)) by (apply Z.pow_pos_nonneg; lia).
  assert (Hqn : q * 2 ^ n <= Zpos M).
  { unfold q. rewrite Z.mul_comm. apply Z.mul_div_le. assumption. }
  assert (He1lo : 2 ^ (e1 - lo) = 2 ^ n * 2 ^ (E - lo)).
  { rewrite <- Z.pow_add_r by lia. f_equal. lia. }
  change (2 ^ 53) with 9007199254740992 in *.
  change (2 ^ 52) with 4503599627370496 in *.
  (* the rounded value is at most the bound *)
  assert (Hq' : q' * 2 ^ (e1 - lo) <= Zpos mb * 2 ^ (eb - lo)).
  { destruct (Z_lt_le_dec eb e1) as [Hlt|Hge].
    - exfalso. destruct Hlow as [Hlow|Hlow]; [|lia].
      assert (H2 : 2 * 2 ^ (eb - lo) <= 2 ^ (e1 - lo)).
      { change 2 with (2 ^ 1) at 1. rewrite <- Z.pow_add_r by lia.
        apply Z.pow_le_mono_r; lia. }
      assert (Hpb : 0 < 2 ^ (eb - lo)) by (apply Z.pow_pos_nonneg; lia).
      rewrite He1lo in H2. nia.
    - set (K := Zpos mb * 2 ^ (eb - e1)).
      assert (HK : Zpos mb * 2 ^ (eb - lo) = K * 2 ^ (e1 - lo)).
      { unfold K. rewrite <- Z.mul_assoc, <- Z.pow_add_r by lia. do 2 f_equal. lia. }
      rewrite HK in *. rewrite He1lo in *.
      assert (HMK : Zpos M <= K * 2 ^ n) by nia.
      assert (HqK : q' <= K).
      { destruct Hq as [->|[-> Hs]].
        - apply (Z.mul_le_mono_pos_r _ _ (2 ^ n)); lia.
        - assert (q < K); [|lia]. apply (Z.mul_lt_mono_pos_r (2 ^ n)); lia. }
      apply Z.mul_le_mono_nonneg_r; [nia|exact HqK]. }
  assert (Hm'' : Zpos m'' * 2 ^ (e'' - lo) <= Zpos mb * 2 ^ (eb - lo)).
  { replace (e'' - lo) with (e'' - E + (E - lo)) by lia.
    rewrite Z.pow_add_r, Z.mul_assoc, Hval by lia. fold n.
    rewrite <- Z.mul_assoc, <- He1lo. exact Hq'. }
  assert (Hee : e'' <= eb).
  { destruct (Z_lt_le_dec eb e'') as [Hlt|]; [exfalso|assumption].
    destruct Hcan as [Hcan|Hcan]; [|lia].
    assert (H2 : 2 * 2 ^ (eb - lo) <= 2 ^ (e'' - lo)).
    { change 2 with (2 ^ 1) at 1. rewrite <- Z.pow_add_r by lia.
      apply Z.pow_le_mono_r; lia. }
    assert (Hpb : 0 < 2 ^ (eb - lo)) by (apply Z.pow_pos_nonneg; lia).
    nia. }
  replace (e'' <=? emax - prec) with true by (symmetry; apply Z.leb_le; lia).
  split; [reflexivity|]. unfold SFleb. cbn [SFcompare].
  destruct (Z.compare_spec e'' eb) as [Heq|Hlt|Hgt]; [|reflexivity|lia].
  subst e''. assert (Hpb : 0 < 2 ^ (eb - lo)) by (apply Z.pow_pos_nonneg; lia).
  assert (Hmm : (m'' <= mb)%positive) by nia.
  unfold Pos.le in Hmm. fold (Pos.compare m'' mb).
  destruct (m'' ?= mb)%positive; [reflexivity|reflexivity|congruence].
Qed.

(** Multiplying a number of [[0, u]] by a positive constant [c] (normal,
    with a fraction part) stays in [[0, b]] whenever [u * c <= b] holds
    exactly: the product is rounded, and rounding does not cross [b]. *)
Lemma mul_le_bound x u c b mu eu mc ec mb eb :
  Prim2SF u = S754_finite false mu eu ->
  Prim2SF c = S754_finite false mc ec ->
  Prim2SF b = S754_finite false mb eb ->
  2 ^ 52 <= Zpos mc -> ec < 0 ->
  Zpos mu * Zpos mc * 2 ^ (eu + ec - Z.min (eu + ec) eb)
    <= Zpos mb * 2 ^ (eb - Z.min (eu + ec) eb) ->
  (0 <=? x)%float = true -> (x <=? u)%float = true ->
  (0 <=? x * c)%float = true /\ (x * c <=? b)%float = true.
Proof.
  intros Hu Hc Hb Hmc Hec Hprod H0 Hxu.
  pose proof (Prim2SF_valid x) as Vx. pose proof (Prim2SF_valid u) as Vu.
  pose proof (Prim2SF_valid b) as Vb.
  rewrite !leb_spec, mul_spec, Hc, Hb. rewrite leb_spec in H0, Hxu.
  change (Prim2SF 0) with (S754_zero false) in *. rewrite Hu in *. rewrite Hb in Vb.
  unfold SFleb in H0, Hxu.
  destruct (Prim2SF x) as [sx|sx| |sx mx ex]; try discriminate.
  - destruct sx; split; reflexivity.
  - destruct sx; discriminate.
  - destruct sx; [discriminate|]. clear H0.
    cbn [SF64mul SFmul xorb].
    pose proof (aligned_compare mx ex mu eu Vx Vu) as Hal.
    cbn [SFcompare] in Hxu.
    assert (Hle : Zpos mx * 2 ^ (ex - Z.min ex eu) <= Zpos mu * 2 ^ (eu - Z.min ex eu)).
    { unfold Z.le. rewrite Hal.
      destruct (ex ?= eu); try discriminate.
      unfold Pos.compare in Hxu.
      destruct (Pos.compare_cont Eq mx mu); discriminate. }
    apply valid_finite_bounds in Vx as (Hex & Hmx & Hnx).
    change (2 ^ 53) with 9007199254740992 in *.
    change (2 ^ 52) with 4503599627370496 in *.
    set (lo := Z.min (Z.min ex eu + ec) eb).
    apply (binary_round_aux_le (mx * mc) (ex + ec) mb eb lo); try assumption; try (unfold lo; lia).
    + pose proof (digits2_pos_bounds (mx * mc)) as Hd.
      set (d := Zpos (digits2_pos (mx * mc))) in *.
      destruct (Z.eq_dec ex (-1074)) as [->|Hne]; [lia|].
      specialize (Hnx ltac:(lia)).
      assert (104 < d); [|lia].
      apply pow2_lt_exp; [lia|].
      apply Z.le_lt_trans with (Zpos (mx * mc)); [|apply Hd].
      rewrite Pos2Z.inj_mul. change (2 ^ 104) with (4503599627370496 * 4503599627370496). nia.
    + set (l0 := Z.min (eu + ec) eb) in *. set (mn := Z.min ex eu) in *.
      assert (P1 : 2 ^ (ex + ec - lo) = 2 ^ (ex - mn) * 2 ^ (mn + ec - lo)).
      { rewrite <- Z.pow_add_r by (unfold mn, lo; lia). f_equal. lia. }
      assert (P2 : 2 ^ (eu + ec - lo) = 2 ^ (eu - mn) * 2 ^ (mn + ec - lo)).
      { rewrite <- Z.pow_add_r by (unfold mn, lo; lia). f_equal. lia. }
      assert (P3 : 2 ^ (eu + ec - lo) = 2 ^ (eu + ec - l0) * 2 ^ (l0 - lo)).
      { rewrite <- Z.pow_add_r by (unfold mn, l0, lo; lia). f_equal. lia. }
      assert (P4 : 2 ^ (eb - lo) = 2 ^ (eb - l0) * 2 ^ (l0 - lo)).
      { rewrite <- Z.pow_add_r by (unfold mn, l0, lo; lia). f_equal. lia. }
      assert (Q1 : 0 < 2 ^ (mn + ec - lo)) by (apply Z.pow_pos_nonneg; unfold mn, lo; lia).
      assert (Q2 : 0 < 2 ^ (l0 - lo)) by (apply Z.pow_pos_nonneg; unfold mn, l0, lo; lia).
      rewrite Pos2Z.inj_mul, P1, P4.
      apply Z.le_trans with (Zpos mu * Zpos mc * 2 ^ (eu + ec - lo)).
      * rewrite P2.
        replace (Zpos mx * Zpos mc * (2 ^ (ex - mn) * 2 ^ (mn + ec - lo)))
          with ((Zpos mx * 2 ^ (ex - mn)) * (Zpos mc * 2 ^ (mn + ec - lo))) by ring.
        replace (Zpos mu * Zpos mc * (2 ^ (eu - mn) * 2 ^ (mn + ec - lo)))
          with ((Zpos mu * 2 ^ (eu - mn)) * (Zpos mc * 2 ^ (mn + ec - lo))) by ring.
        apply Z.mul_le_mono_nonneg_r; [lia|exact Hle].
      * rewrite P3, !Z.mul_assoc.
        apply Z.mul_le_mono_nonneg_r; [lia|exact Hprod].
Qed.

Lemma mul_10_range x :
  (0 <=? x)%float = true -> (x <=? 40)%float = true ->
  (0 <=? x * 10)%float = true /\ (x * 10 <=? 400)%float = true.
Proof.
  apply (mul_le_bound x 40%float 10%float 400%float
           5629499534213120 (-47) 5629499534213120 (-49) 7036874417766400 (-44));
    try reflexivity; vm_compute; discriminate.
Qed.

Lemma mul_100_range x :
  (0 <=? x)%float = true -> (x <=? 1)%float = true ->
  (0 <=? x * 100)%float = true /\ (x * 100 <=? 100)%float = true.
Proof.
  apply (mul_le_bound x 1%float 100%float 100%float
           4503599627370496 (-52) 7036874417766400 (-46) 7036874417766400 (-46));
    try reflexivity; vm_compute; discriminate.
Qed.

(** [Math.round] of a number of [[0, 400]] is a zero or one of the
    integers 1 to 400. *)
Lemma Math_round_range y :
  (0 <=? y)%float = true -> (y <=? 400)%float = true ->
  (exists s, JS.Math_round y = JS.signed_zero s)
  \/ exists n, 1 <= n <= 400 /\ JS.Math_round y = JS.of_Z n.
Proof.
  intros H0 H400. pose proof (Prim2SF_valid y) as Vy.
  rewrite leb_spec in H0, H400.
  change (Prim2SF 0) with (S754_zero false) in H0.
  change (Prim2SF 400) with (S754_finite false 7036874417766400 (-44)) in H400.
  unfold JS.Math_round. unfold SFleb in H0, H400.
  destruct (Prim2SF y) as [s|s| |s m e] eqn:Ey; try discriminate.
  - left. exists s. apply Prim2SF_inj. rewrite Ey. now destruct s.
  - destruct s; discriminate.
  - destruct s; [discriminate|]. clear H0.
    assert (Vb : valid_binary (S754_finite false 7036874417766400 (-44)) = true)
      by reflexivity.
    pose proof (aligned_compare m e _ _ Vy Vb) as Hal.
    cbn [SFcompare] in H400.
    assert (Hle : Zpos m * 2 ^ (e - Z.min e (-44))
                  <= 7036874417766400 * 2 ^ (-44 - Z.min e (-44))).
    { unfold Z.le. rewrite Hal. destruct (e ?= -44); try discriminate.
      unfold Pos.compare in H400.
      destruct (Pos.compare_cont Eq m 7036874417766400); discriminate. }
    destruct (Z.leb_spec 0 e) as [He|He].
    + exfalso. destruct (Z.compare_spec e (-44)); try lia; discriminate.
    + cbn [cond_Zopp].
      set (p := 2 ^ (- e)).
      assert (Hp : 0 < p) by (apply Z.pow_pos_nonneg; lia).
      assert (Hp1 : 2 ^ (1 - e) = 2 * p).
      { unfold p. replace (1 - e) with (1 + - e) by lia.
        rewrite Z.pow_add_r by lia. reflexivity. }
      assert (Hm : Zpos m <= 400 * p).
      { destruct (Z_le_gt_dec e (-44)) as [Hc|Hc].
        - rewrite Z.min_l, Z.sub_diag, Z.mul_1_r in Hle by lia.
          assert (Hs : p = 2 ^ 44 * 2 ^ (-44 - e)).
          { unfold p. rewrite <- Z.pow_add_r by lia. f_equal. lia. }
          rewrite Hs. change (2 ^ 44) with 17592186044416. lia.
        - rewrite Z.min_r, Z.sub_diag, Z.mul_1_r in Hle by lia.
          assert (Hs : 2 ^ 44 = p * 2 ^ (e - -44)).
          { unfold p. rewrite <- Z.pow_add_r by lia. f_equal. lia. }
          assert (Hq : 0 < 2 ^ (e - -44)) by (apply Z.pow_pos_nonneg; lia).
          change (2 ^ 44) with 17592186044416 in Hs. nia. }
      rewrite Hp1.
      set (n := (2 * Zpos m + p) / (2 * p)).
      assert (Hn0 : 0 <= n) by (apply Z.div_pos; lia).
      assert (Hn : n < 401) by (apply Z.div_lt_upper_bound; lia).
      destruct (Z.eqb_spec n 0) as [Hz|Hz].
      * left. now exists false.
      * right. exists n. split; [lia|reflexivity].
Qed.

Lemma tenths_checked : forallb tenths_in_range (map Z.of_nat (seq 1 400)) = true.
Proof. vm_compute. reflexivity. Qed.

Lemma tenths_range n :
  1 <= n <= 400 ->
  (0 <=? JS.of_Z n / 10)%float = true /\ (JS.of_Z n / 10 <=? 40)%float = true.
Proof.
  intros Hn. pose proof tenths_checked as H.
  rewrite forallb_forall in H. specialize (H n).
  apply andb_prop. apply H.
  apply in_map_iff. exists (Z.to_nat n). split; [lia|].
  apply in_seq. lia.
Qed.

(** Rounding to one decimal keeps a number of [[0, 40]] in [[0, 40]]. *)
Lemma round1_range x :
  (0 <=? x)%float = true -> (x <=? 40)%float = true ->
  (0 <=? RealNBADataService.round1 x)%float = true
  /\ (RealNBADataService.round1 x <=? 40)%float = true.
Proof.
  intros H0 H40. unfold RealNBADataService.round1.
  destruct (mul_10_range x H0 H40) as [Ha Hb].
  destruct (Math_round_range _ Ha Hb) as [[s ->]|(n & Hn & ->)].
  - destruct s; split; reflexivity.
  - now apply tenths_range.
Qed.

End Monotone.

(* ================================================================== *)
(** * The range of the displayed ratings *)

Section Ranges.

Lemma range_after_round1 x :
  x = nan \/ in_0_40 x = true ->
  RealNBADataService.round1 x = nan \/ in_0_40 (RealNBADataService.round1 x) = true.
Proof.
  intros [->|H]; [now left|]. right.
  unfold in_0_40 in *. apply andb_prop in H as [H0 H40].
  destruct (round1_range x H0 H40) as [-> ->]. reflexivity.
Qed.

Lemma clamp_range x : clamp x = nan \/ in_0_40 (clamp x) = true.
Proof.
  destruct (clamp_spec x) as [[_ H]|(_ & H0 & H40)]; [now left|right].
  unfold in_0_40. now rewrite H0, H40.
Qed.

Lemma calculatePER_range p : calculatePER p = nan \/ in_0_40 (calculatePER p) = true.
Proof.
  unfold calculatePER. destruct (JS.strict_eq (MIN p) 0); [now right|].
  apply clamp_range.
Qed.

(** X12: every record returned by [convertToPlayerFormat] carries a [per]
    and a [predictedPER] that are [NaN] or lie in [0, 40]: rounding the
    clamped rating to one decimal does not leave the range. *)
Theorem X12_displayed_per_range :
  forall (rnd : nat -> JS.number) (nbaPlayers : list NBAPlayerStats) (k : nat)
         (q : Player),
    In q (fst (RealNBADataService.convertToPlayerFormat rnd nbaPlayers k)) ->
    (per q = nan \/ in_0_40 (per q) = true)
    /\ (predictedPER q = nan \/ in_0_40 (predictedPER q) = true).
Proof.
  intros rnd l k q Hq.
  eapply Permutation_in in Hq; [|apply convertToPlayerFormat_perm].
  apply playerRecords_origin in Hq as (p & k' & _ & _ & ->).
  split.
  - apply (range_after_round1 (calculatePER p)), calculatePER_range.
  - apply (range_after_round1
             (fst (RealNBADataService.generateMLPrediction rnd p (calculatePER p) k'))).
    apply clamp_range.
Qed.

Lemma X12_displayed_per_range_witness :
  let q := fst (RealNBADataService.toPlayer low_draws sample 0%nat) in
  (per q = nan \/ in_0_40 (per q) = true)
  /\ (predictedPER q = nan \/ in_0_40 (predictedPER q) = true).
Proof.
  apply (X12_displayed_per_range low_draws [sample] 0%nat
           (fst (RealNBADataService.toPlayer low_draws sample 0%nat))).
  vm_compute. left. reflexivity.
Defined.

End Ranges.

(* ================================================================== *)
(** * The accuracy of the prediction panel *)

Section Accuracy.

Lemma unit_clamp_spec x :
  JS.Math_max 0 (JS.Math_min 1 x) = nan
  \/ ((0 <=? JS.Math_max 0 (JS.Math_min 1 x))%float = true
      /\ (JS.Math_max 0 (JS.Math_min 1 x) <=? 1)%float = true).
Proof.
  destruct (is_nan x) eqn:Hn.
  - left. apply is_nan_eq in Hn. now subst.
  - right.
    unfold JS.Math_min. rewrite Hn.
    change (is_nan 1) with false. cbn [orb].
    assert (H1 : is_nan 1 = false) by reflexivity.
    destruct (SFcompare_some 1 x H1 Hn) as [c Hc].
    rewrite ltb_cmp, gtb_cmp, Hc.
    assert (Hx : c <> Lt ->
      (0 <=? JS.Math_max 0 x)%float = true /\ (JS.Math_max 0 x <=? 1)%float = true).
    { intros Hlt.
      assert (Hle : (x <=? 1)%float = true).
      { rewrite geb_cmp, Hc. now destruct c. }
      unfold JS.Math_max. change (is_nan 0) with false. rewrite Hn. cbn [orb].
      assert (H0 : is_nan 0 = false) by reflexivity.
      destruct (SFcompare_some 0 x H0 Hn) as [c0 Hc0].
      rewrite ltb_cmp, gtb_cmp, Hc0.
      destruct c0; change (get_sign 0) with false; cbv iota;
        try (split; reflexivity).
      split; [|assumption]. rewrite leb_cmp, Hc0. reflexivity. }
    destruct c; change (get_sign 1) with false; cbv iota.
    + apply Hx. discriminate.
    + split; reflexivity.
    + apply Hx. discriminate.
Qed.

(** X13: the model accuracy shown by the prediction panel is [NaN] or a
    percentage in [0, 100], whatever the records. *)
Theorem X13_accuracy_range :
  forall players : list Player,
    calculatePredictionAccuracy players = nan
    \/ ((0 <=? calculatePredictionAccuracy players)%float = true
        /\ (calculatePredictionAccuracy players <=? 100)%float = true).
Proof.
  intros players. unfold calculatePredictionAccuracy.
  match goal with |- context [JS.Math_min 1 ?a] => generalize a end.
  intros avg. destruct (unit_clamp_spec avg) as [->|[H0 H1]].
  - left. apply mul_nan_l.
  - right. now apply mul_100_range.
Qed.

Lemma div_nan_l x : (nan / x)%float = nan.
Proof.
  apply Prim2SF_inj. rewrite div_spec. change (Prim2SF nan) with S754_nan.
  now destruct (Prim2SF x).
Qed.

Lemma fold_add_from_nan l : fold_left (fun sum acc => sum + acc)%float l nan = nan.
Proof. induction l as [|a l IH]; [reflexivity|]. cbn [fold_left]. now rewrite add_nan_l. Qed.

Lemma fold_add_nan l : forall init,
  In nan l -> fold_left (fun sum acc => sum + acc)%float l init = nan.
Proof.
  induction l as [|a l IH]; intros init; [intros []|].
  intros [->|H]; cbn [fold_left].
  - rewrite add_nan_r. apply fold_add_from_nan.
  - now apply IH.
Qed.

Lemma accuracy_term_nan (a b : JS.number) :
  is_nan a = true \/ is_nan b = true \/ ((a =? 0)%float = true /\ (b =? 0)%float = true) ->
  (1 - abs (a - b) / a)%float = nan.
Proof.
  intros [H|[H|[Ha Hb]]].
  - apply is_nan_eq in H as ->. rewrite sub_nan_l. reflexivity.
  - apply is_nan_eq in H as ->. rewrite sub_nan_r.
    change (abs nan) with nan. rewrite div_nan_l. reflexivity.
  - apply is_zero_spec in Ha as [sa Ha]. apply is_zero_spec in Hb as [sb Hb].
    apply Prim2SF_inj. rewrite sub_spec, div_spec, abs_spec, sub_spec, Ha, Hb.
    now destruct sa, sb.
Qed.

(** X14: the model accuracy is [NaN] when there is no record, and as soon
    as one record has a [NaN] rating or prediction, or a rating and a
    prediction that are both zero (relative error 0/0). *)
Theorem X14_accuracy_nan :
  forall players : list Player,
    (players = []
     \/ exists p, In p players
                  /\ (is_nan (per p) = true \/ is_nan (predictedPER p) = true
                      \/ ((per p =? 0)%float = true /\ (predictedPER p =? 0)%float = true))) ->
    calculatePredictionAccuracy players = nan.
Proof.
  intros players [->|(p & Hp & H)]; [reflexivity|].
  unfold calculatePredictionAccuracy.
  rewrite (fold_add_nan _ 0%float).
  - rewrite div_nan_l. reflexivity.
  - apply in_map_iff. exists p. split; [|assumption].
    now apply accuracy_term_nan.
Qed.

Lemma X14_accuracy_nan_witness :
  calculatePredictionAccuracy
    (fst (RealNBADataService.convertToPlayerFormat low_draws [sample; overflowing] 0%nat))
  = nan.
Proof.
  apply X14_accuracy_nan. right.
  exists (fst (RealNBADataService.toPlayer low_draws overflowing 2%nat)).
  split; [vm_compute; auto|]. left. reflexivity.
Defined.

End Accuracy.
